(** * task-runner-mcp: the task lifecycle manager of [src/index.ts]

    A shallow embedding of the in-memory task registry, the bounded log
    buffer and the start / signal / stop / wait / prune protocol, with the
    properties the specification states about them, and further
    properties that the code has (the second part of the file).

    Conventions of the embedding.
    - A JavaScript number that the program only uses as an integer
      (byte counts, item counts, pids, timestamps, delays) is a [Z].
    - A JavaScript string is represented by its UTF-8 encoding, one
      [ascii] per byte, so that [Buffer.byteLength(s, "utf8")] is the
      length of the representation.
    - Task objects are mutable and shared between the registry, the
      process event handlers and suspended tool calls; they live in a
      heap and are referred to by their allocation index.
    - What the environment decides (the uuid, the outcome of [spawn], the
      clock, the result of [kill], which throws for a name that is no
      signal) is an input of the handler.
    - An ["error"] event that no listener handles ends the server
      process: the turn that causes it yields the action [Uncaught], and
      [serve] is the event loop that stops there. [run] is the fold of
      the handlers over the events that are handled.
    - Real time is a history of events with their times, in which a
      timer fires no earlier than the delay that [setTimeout] makes of
      its argument. *)

From Stdlib Require Import ZArith Lia Ascii String.
From Stdlib.Strings Require Import Byte.
From stdpp Require Import base list strings gmap.

Local Open Scope Z_scope.

(** ** Strings and buffers *)

Definition Buffer := list byte.

Definition byte_val (b : byte) : Z := Z.of_N (Byte.to_N b).

Definition str_of_bytes (bs : list byte) : string := string_of_list_byte bs.

(** U+FFFD, the replacement character, in UTF-8. *)
Definition replacement : string := str_of_bytes [xef; xbf; xbd].

(** State of the UTF-8 decoder inside a multi-byte sequence: the bytes of
    the sequence read so far, how many continuation bytes are still
    needed, and the range allowed for the next one. *)
Record Utf8State := {
  utf8_needed : nat;
  utf8_seen : list byte;
  utf8_lower : Z;
  utf8_upper : Z
}.

Definition utf8_idle : Utf8State :=
  {| utf8_needed := 0; utf8_seen := []; utf8_lower := 128; utf8_upper := 191 |}.

Definition in_range (lo hi z : Z) : bool := (lo <=? z) && (z <=? hi).

(** A byte read while no sequence is in progress. *)
Definition utf8_lead (b : byte) : Utf8State * string :=
  let z := byte_val b in
  if z <=? 127 then (utf8_idle, str_of_bytes [b])
  else if in_range 194 223 z then
    ({| utf8_needed := 1; utf8_seen := [b]; utf8_lower := 128; utf8_upper := 191 |}, EmptyString)
  else if in_range 224 239 z then
    ({| utf8_needed := 2; utf8_seen := [b];
        utf8_lower := if z =? 224 then 160 else 128;
        utf8_upper := if z =? 237 then 159 else 191 |}, EmptyString)
  else if in_range 240 244 z then
    ({| utf8_needed := 3; utf8_seen := [b];
        utf8_lower := if z =? 240 then 144 else 128;
        utf8_upper := if z =? 244 then 143 else 191 |}, EmptyString)
  else (utf8_idle, replacement).

Definition utf8_step (st : Utf8State) (b : byte) : Utf8State * string :=
  match utf8_needed st with
  | O => utf8_lead b
  | S n =>
      if in_range (utf8_lower st) (utf8_upper st) (byte_val b) then
        match n with
        | O => (utf8_idle, str_of_bytes (utf8_seen st ++ [b]))
        | S _ =>
            ({| utf8_needed := n; utf8_seen := utf8_seen st ++ [b];
                utf8_lower := 128; utf8_upper := 191 |}, EmptyString)
        end
      else
        let '(st', out) := utf8_lead b in (st', replacement +:+ out)
  end.

Fixpoint utf8_run (st : Utf8State) (bs : list byte) : string :=
  match bs with
  | [] => match utf8_needed st with O => EmptyString | S _ => replacement end
  | b :: rest => let '(st', out) := utf8_step st b in out +:+ utf8_run st' rest
  end.

(** [chunk.toString("utf8")]: well-formed sequences are kept, every
    ill-formed one becomes U+FFFD. *)
Definition toString_utf8 (chunk : Buffer) : string := utf8_run utf8_idle chunk.

(** [Buffer.byteLength(text, "utf8")]. *)
Definition byteLength_utf8 (text : string) : Z := Z.of_nat (String.length text).

(** [Buffer.from(s)], the UTF-8 bytes of a string. *)
Definition Buffer_from (s : string) : Buffer := list_byte_of_string s.

(** ** Data model *)

Inductive TaskState := running | exited.

Inductive Stream := stdout | stderr.

Record LogItem := { t : Z; stream : Stream; text : string }.

(** The closures pushed on [task.waiters], by the call that made them:
    [() => resolve(true)] of the first race of [task_stop],
    [() => resolve()] of its second race, and the [resolve] of the
    promise [done] of [task_wait]. *)
Inductive Waiter :=
| ResolveStopTerm (call : nat)
| ResolveStopKill (call : nat)
| ResolveDone (call : nat).

(** Node's [ChildProcess] as far as the program sees it: the pid that
    [spawn] obtained, and whether the handle has already reported the
    exit (Node emits ["exit"] when the handle closes, and the handle
    closes once). *)
Record ChildProcess := { proc_pid : Z; exitEmitted : bool }.

Record Task := {
  id : string;
  name : option string;
  command : string;
  args : list string;
  cwd : option string;
  env : option (list (string * string));
  createdAt : Z;
  proc : ChildProcess;
  pid : Z;
  state : TaskState;
  exitCode : option Z;
  signal : option string;
  maxLogBytes : Z;
  logBytes : Z;
  logs : list LogItem;
  waiters : list Waiter
}.

Definition DEFAULT_MAX_LOG_BYTES : Z := 1024 * 1024.

#[global] Instance TaskState_eq_dec : EqDecision TaskState.
Proof. solve_decision. Defined.

(** Field assignments [task.f = v]. *)
Definition with_logs (task : Task) (v : list LogItem) : Task :=
  {| id := id task; name := name task; command := command task; args := args task;
     cwd := cwd task; env := env task; createdAt := createdAt task; proc := proc task;
     pid := pid task; state := state task; exitCode := exitCode task;
     signal := signal task; maxLogBytes := maxLogBytes task; logBytes := logBytes task;
     logs := v; waiters := waiters task |}.

Definition with_logBytes (task : Task) (v : Z) : Task :=
  {| id := id task; name := name task; command := command task; args := args task;
     cwd := cwd task; env := env task; createdAt := createdAt task; proc := proc task;
     pid := pid task; state := state task; exitCode := exitCode task;
     signal := signal task; maxLogBytes := maxLogBytes task; logBytes := v;
     logs := logs task; waiters := waiters task |}.

Definition with_state (task : Task) (v : TaskState) : Task :=
  {| id := id task; name := name task; command := command task; args := args task;
     cwd := cwd task; env := env task; createdAt := createdAt task; proc := proc task;
     pid := pid task; state := v; exitCode := exitCode task;
     signal := signal task; maxLogBytes := maxLogBytes task; logBytes := logBytes task;
     logs := logs task; waiters := waiters task |}.

Definition with_exitCode (task : Task) (v : option Z) : Task :=
  {| id := id task; name := name task; command := command task; args := args task;
     cwd := cwd task; env := env task; createdAt := createdAt task; proc := proc task;
     pid := pid task; state := state task; exitCode := v;
     signal := signal task; maxLogBytes := maxLogBytes task; logBytes := logBytes task;
     logs := logs task; waiters := waiters task |}.

Definition with_signal (task : Task) (v : option string) : Task :=
  {| id := id task; name := name task; command := command task; args := args task;
     cwd := cwd task; env := env task; createdAt := createdAt task; proc := proc task;
     pid := pid task; state := state task; exitCode := exitCode task;
     signal := v; maxLogBytes := maxLogBytes task; logBytes := logBytes task;
     logs := logs task; waiters := waiters task |}.

Definition with_waiters (task : Task) (v : list Waiter) : Task :=
  {| id := id task; name := name task; command := command task; args := args task;
     cwd := cwd task; env := env task; createdAt := createdAt task; proc := proc task;
     pid := pid task; state := state task; exitCode := exitCode task;
     signal := signal task; maxLogBytes := maxLogBytes task; logBytes := logBytes task;
     logs := logs task; waiters := v |}.

Definition with_proc (task : Task) (v : ChildProcess) : Task :=
  {| id := id task; name := name task; command := command task; args := args task;
     cwd := cwd task; env := env task; createdAt := createdAt task; proc := v;
     pid := pid task; state := state task; exitCode := exitCode task;
     signal := signal task; maxLogBytes := maxLogBytes task; logBytes := logBytes task;
     logs := logs task; waiters := waiters task |}.

(** ** The log buffer *)

(** What one retained item adds to [logBytes]: the UTF-8 length of its
    text and 16 bytes of overhead. *)
Definition item_bytes (i : LogItem) : Z := byteLength_utf8 (text i) + 16.

(** The sum of that over the retained items. *)
Definition retained_bytes (items : list LogItem) : Z :=
  foldr (fun i acc => item_bytes i + acc) 0 items.

(** The loop [while (task.logBytes > task.maxLogBytes && task.logs.length)],
    on the two fields it changes; each round shifts the oldest item out. *)
Fixpoint evict (maxLogBytes logBytes : Z) (logs : list LogItem) : Z * list LogItem :=
  match logs with
  | [] => (logBytes, [])
  | old :: rest =>
      if maxLogBytes <? logBytes
      then evict maxLogBytes (logBytes - (byteLength_utf8 (text old) + 16)) rest
      else (logBytes, logs)
  end.

(** [pushLog(task, stream, chunk)], with [now] for [Date.now()]. *)
Definition pushLog (task : Task) (stream : Stream) (now : Z) (chunk : Buffer) : Task :=
  let text := toString_utf8 chunk in
  let task := with_logs task (logs task ++ [{| t := now; stream := stream; text := text |}]) in
  let task := with_logBytes task (logBytes task + (byteLength_utf8 text + 16)) in
  let '(bytes, kept) := evict (maxLogBytes task) (logBytes task) (logs task) in
  with_logs (with_logBytes task bytes) kept.

(** ** Rendering the logs *)

(** [formatLogs] needs [new Date(i.t).toISOString()]: the date of a
    number of milliseconds since the epoch, in the proleptic Gregorian
    calendar, as [YYYY-MM-DDTHH:mm:ss.sssZ] (years outside 0..9999 take a
    sign and six digits). The time stamps of log items come from
    [Date.now()] and are within the range of [Date]. *)
Definition digit (n : Z) : string :=
  String (ascii_of_N (Z.to_N (48 + n mod 10))) EmptyString.

Fixpoint digits (width : nat) (n : Z) : string :=
  match width with
  | O => EmptyString
  | S k => digits k (n / 10) +:+ digit n
  end.

Definition civil_from_days (day : Z) : Z * Z * Z :=
  let z := day + 719468 in
  let era := z / 146097 in
  let doe := z mod 146097 in
  let yoe := (doe - doe / 1460 + doe / 36524 - doe / 146096) / 365 in
  let doy := doe - (365 * yoe + yoe / 4 - yoe / 100) in
  let mp := (5 * doy + 2) / 153 in
  let d := doy - (153 * mp + 2) / 5 + 1 in
  let m := if mp <? 10 then mp + 3 else mp - 9 in
  (yoe + era * 400 + (if m <=? 2 then 1 else 0), m, d).

Definition toISOString (ms : Z) : string :=
  let '(y, m, d) := civil_from_days (ms / 86400000) in
  let tod := ms mod 86400000 in
  let year :=
    if in_range 0 9999 y then digits 4 y
    else (if y <? 0 then "-"%string else "+"%string) +:+ digits 6 (Z.abs y) in
  (year +:+ "-" +:+ digits 2 m +:+ "-" +:+ digits 2 d +:+ "T" +:+
   digits 2 (tod / 3600000) +:+ ":" +:+ digits 2 (tod / 60000 mod 60) +:+ ":" +:+
   digits 2 (tod / 1000 mod 60) +:+ "." +:+ digits 3 (tod mod 1000) +:+ "Z")%string.

Definition stream_name (s : Stream) : string :=
  match s with stdout => "stdout" | stderr => "stderr" end.

(** [items.map(f).join("")]. *)
Definition join_map {A} (f : A -> string) (items : list A) : string :=
  foldr (fun i acc => f i +:+ acc) EmptyString items.

Definition formatLogs (items : list LogItem) : string :=
  join_map (fun i => toISOString (t i) +:+ " [" +:+ stream_name (stream i) +:+ "] " +:+ text i)%string
           items.

(** [items.slice(start)] for an integer [start]: a negative start counts
    from the end. *)
Definition slice {A} (start : Z) (items : list A) : list A :=
  let len := Z.of_nat (length items) in
  let from := if start <? 0 then Z.max (len + start) 0 else Z.min start len in
  drop (Z.to_nat from) items.

(** ** Responses *)

Module Summary.
Record obj := {
  id : string;
  name : option string;
  command : string;
  args : list string;
  cwd : option string;
  pid : Z;
  state : TaskState;
  exitCode : option Z;
  signal : option string;
  createdAt : Z;
  logBytes : Z;
  maxLogBytes : Z
}.
End Summary.

Definition summary (task : Task) : Summary.obj :=
  {| Summary.id := id task;
     Summary.name := name task;
     Summary.command := command task;
     Summary.args := args task;
     Summary.cwd := cwd task;
     Summary.pid := pid task;
     Summary.state := state task;
     Summary.exitCode := exitCode task;
     Summary.signal := signal task;
     Summary.createdAt := createdAt task;
     Summary.logBytes := logBytes task;
     Summary.maxLogBytes := maxLogBytes task |}.

Module Logs.
Record obj := {
  id : string;
  state : TaskState;
  pid : Z;
  exitCode : option Z;
  signal : option string;
  logItemCount : Z;
  returnedCount : Z;
  text : string
}.
End Logs.

(** The objects handed to [okJson], one constructor per shape; the last
    but one is [{ id, state, pid, timeout: true }]. *)
Inductive Json :=
| JStarted (id : string) (pid : Z) (state : TaskState)
| JSummary (s : Summary.obj)
| JTasks (l : list Summary.obj)
| JLogs (r : Logs.obj)
| JSignal (ok : bool) (id : string) (pid : Z) (signal : string)
| JTimeout (id : string) (state : TaskState) (pid : Z)
| JPrune (removed remaining : Z).

(** [okJson(v)] is [okText(JSON.stringify(v, null, 2))]; the embedding
    keeps the object that is serialised. *)
Inductive ToolResponse :=
| okText (text : string)
| okJson (v : Json).

(** A value, or [throw new Error(message)]. *)
Inductive Result (A : Type) :=
| Ok (a : A)
| Throw (message : string).
Arguments Ok {A} a.
Arguments Throw {A} message.

(** ** The registry: [new Map<string, Task>()], in insertion order *)

Abbreviation TaskMap := (list (string * nat)).

Fixpoint Map_get (k : string) (m : TaskMap) : option nat :=
  match m with
  | [] => None
  | (k', v) :: rest => if decide (k' = k) then Some v else Map_get k rest
  end.

Fixpoint Map_set (k : string) (v : nat) (m : TaskMap) : TaskMap :=
  match m with
  | [] => [(k, v)]
  | (k', v') :: rest =>
      if decide (k' = k) then (k, v) :: rest else (k', v') :: Map_set k v rest
  end.

Fixpoint Map_delete (k : string) (m : TaskMap) : TaskMap :=
  match m with
  | [] => []
  | (k', v) :: rest => if decide (k' = k) then rest else (k', v) :: Map_delete k rest
  end.

Definition Map_size (m : TaskMap) : Z := Z.of_nat (length m).

(** ** The server state *)

(** Where a suspended tool call waits: for the callback of the stdin
    write, in the first or the second race of [task_stop], for [done]
    alone, or in the race of [done] against the timer of [task_wait]. *)
Inductive Pending :=
| AwaitWrite
| AwaitStopTerm (task : nat)
| AwaitStopKill (task : nat)
| AwaitDone
| AwaitDoneOrTimeout (id : string) (task : nat).

Inductive Timer := StopTermTimer | StopKillTimer | WaitTimer.

#[global] Instance Timer_eq_dec : EqDecision Timer.
Proof. solve_decision. Defined.

(** The emitters on which the program leaves ["error"] without a
    listener: a child that [spawn] returned without a pid, for which
    [task_start] throws before it reaches [proc.on("error", ...)], and
    the stdin of a process, here named by the call whose write failed. *)
Inductive Emitter :=
| Child
| Stdin (call : nat).

(** What a handler does to the outside: signals, stdin writes, timers,
    and the result of a tool call. [Uncaught] is an ["error"] event that
    nothing listens to: Node throws it, nothing catches it, and the
    server process ends with the turn. *)
Inductive Action :=
| Kill (task : nat) (signal : string)
| StdinWrite (task : nat) (payload : string)
| SetTimeout (call : nat) (timer : Timer) (ms : Z)
| Return (call : nat) (r : Result ToolResponse)
| Uncaught (from : Emitter).

(** The task objects created so far, the registry [tasks] from ids to
    their references, the suspended tool calls by call number, and the
    number that the next tool call gets. *)
Record World := {
  heap : list Task;
  tasks : TaskMap;
  pending : gmap nat Pending;
  nextCall : nat
}.

Definition init : World :=
  {| heap := []; tasks := []; pending := ∅; nextCall := 0 |}.

Definition with_heap (w : World) (v : list Task) : World :=
  {| heap := v; tasks := tasks w; pending := pending w; nextCall := nextCall w |}.

Definition with_tasks (w : World) (v : TaskMap) : World :=
  {| heap := heap w; tasks := v; pending := pending w; nextCall := nextCall w |}.

Definition with_pending (w : World) (v : gmap nat Pending) : World :=
  {| heap := heap w; tasks := tasks w; pending := v; nextCall := nextCall w |}.

Definition with_nextCall (w : World) (v : nat) : World :=
  {| heap := heap w; tasks := tasks w; pending := pending w; nextCall := v |}.

(** A mutation of the task object at [r]. *)
Definition set_task (w : World) (r : nat) (task : Task) : World :=
  with_heap w (<[r := task]> (heap w)).

(** The call [c] suspends at [p]; the call [c] is over. *)
Definition suspend (w : World) (c : nat) (p : Pending) : World :=
  with_pending w (<[c := p]> (pending w)).

Definition finish (w : World) (c : nat) : World :=
  with_pending w (delete c (pending w)).

(** What the environment decides during a tool call: what [randomUUID()]
    and [Date.now()] give, whether [spawn] throws or returns a process
    with or without a pid, and what [proc.kill(signal)] does with the
    string it is given. The cast [signal as NodeJS.Signals] checks
    nothing: for a string that names no signal of the platform [kill]
    throws [ERR_UNKNOWN_SIGNAL]; for one that does, it returns whether
    the signal was delivered. Where the system refuses the delivery for
    another reason than a process that is gone, [kill] returns false
    after it has emitted ["error"] on the child, which has its listener
    by then: that is [Delivered false] here, with the event [ProcError]
    next. *)
Inductive SpawnResult :=
| SpawnThrows (message : string)
| Spawned (pid : option Z).

Inductive KillResult :=
| UnknownSignal
| Delivered (ok : bool).

Record Oracle := {
  randomUUID : string;
  spawn : SpawnResult;
  Date_now : Z;
  kill : KillResult
}.

(** ** The tools *)

Definition not_found (id : string) : string := ("Task not found: " +:+ id)%string.

(** [getTask]: the task object registered under [id], with its
    reference. A registered reference is always allocated (see
    [registry_ok]); the inner [None] is there for totality only. *)
Definition getTask (w : World) (id : string) : Result (nat * Task) :=
  match Map_get id (tasks w) with
  | None => Throw (not_found id)
  | Some r =>
      match heap w !! r with
      | None => Throw (not_found id)
      | Some task => Ok (r, task)
      end
  end.

(** [task_start]. [!proc.pid] holds when there is no pid or the pid is 0.
    The listeners that the tool attaches to the process are the process
    events of [step] below, which reach the task by its reference. *)
Definition task_start (w : World) (o : Oracle)
    (command : string) (args : list string) (cwd : option string)
    (env : option (list (string * string))) (name : option string)
    (maxLogBytes : option Z) : World * Result ToolResponse :=
  let id := randomUUID o in
  match spawn o with
  | SpawnThrows message => (w, Throw message)
  | Spawned None => (w, Throw "Failed to start process (no pid)"%string)
  | Spawned (Some p) =>
      if p =? 0 then (w, Throw "Failed to start process (no pid)"%string)
      else
        let task :=
          {| id := id; name := name; command := command; args := args; cwd := cwd;
             env := env; createdAt := Date_now o;
             proc := {| proc_pid := p; exitEmitted := false |};
             pid := p; state := running; exitCode := None; signal := None;
             maxLogBytes := default DEFAULT_MAX_LOG_BYTES maxLogBytes;
             logBytes := 0; logs := []; waiters := [] |} in
        let r := length (heap w) in
        (with_tasks (with_heap w (heap w ++ [task])) (Map_set id r (tasks w)),
         Ok (okJson (JStarted id (pid task) (state task))))
  end.

Definition task_status (w : World) (id : string) : Result ToolResponse :=
  match getTask w id with
  | Throw message => Throw message
  | Ok (_, task) => Ok (okJson (JSummary (summary task)))
  end.

(** [task_list]: the summaries in the order of the registry. *)
Definition task_list (w : World) : Result ToolResponse :=
  Ok (okJson (JTasks (omap (fun e => summary <$> heap w !! e.2) (tasks w)))).

(** The items [task_logs] selects. *)
Definition select_logs (items : list LogItem) (offset tail : option Z) : list LogItem :=
  match tail, offset with
  | Some n, _ => slice (Z.max 0 (Z.of_nat (length items) - n)) items
  | None, Some k => slice k items
  | None, None => items
  end.

(** [task_logs]; [offset] and [tail] are integers, and not negative when
    they come through the schema. *)
Definition task_logs (w : World) (id : string) (offset tail : option Z)
    (includeTimestamps : option bool) : Result ToolResponse :=
  match getTask w id with
  | Throw message => Throw message
  | Ok (_, task) =>
      let ts := default true includeTimestamps in
      let items := select_logs (logs task) offset tail in
      let text :=
        if ts then formatLogs items
        else join_map (fun i => "[" +:+ stream_name (stream i) +:+ "] " +:+ text i)%string items in
      Ok (okJson (JLogs
        {| Logs.id := id; Logs.state := state task; Logs.pid := pid task;
           Logs.exitCode := exitCode task; Logs.signal := signal task;
           Logs.logItemCount := Z.of_nat (length (logs task));
           Logs.returnedCount := Z.of_nat (length items);
           Logs.text := text |}))
  end.

Definition newline : string := String (ascii_of_N 10) EmptyString.

(** [task_write]: the call writes and is suspended until the callback of
    the write. *)
Definition task_write (w : World) (c : nat) (id data : string)
    (addNewline : option bool) : World * list Action :=
  match getTask w id with
  | Throw message => (w, [Return c (Throw message)])
  | Ok (r, task) =>
      match state task with
      | exited => (w, [Return c (Throw "Task is not running"%string)])
      | running =>
          let payload := if default false addNewline then (data +:+ newline)%string else data in
          (suspend w c AwaitWrite, [StdinWrite r payload])
      end
  end.

Definition unknown_signal (signal : string) : string :=
  ("Unknown signal: " +:+ signal)%string.

(** [task_signal]: it changes nothing in the server. [t.proc.kill(signal)]
    is not guarded: when it throws, the tool fails with its error and no
    signal has been sent. *)
Definition task_signal (w : World) (o : Oracle) (c : nat) (id signal : string) : list Action :=
  match getTask w id with
  | Throw message => [Return c (Throw message)]
  | Ok (r, task) =>
      match state task with
      | exited => [Return c (Ok (okText "not running"))]
      | running =>
          match kill o with
          | UnknownSignal => [Return c (Throw (unknown_signal signal))]
          | Delivered ok =>
              [Kill r signal; Return c (Ok (okJson (JSignal ok id (pid task) signal)))]
          end
      end
  end.

(** [task_stop] up to its first [await]: SIGTERM, then the race between
    the waiter and the timer. The rest is in [invoke] and [on_timeout]. *)
Definition task_stop (w : World) (c : nat) (id : string) (timeoutMs : option Z)
    : World * list Action :=
  match getTask w id with
  | Throw message => (w, [Return c (Throw message)])
  | Ok (r, task) =>
      match state task with
      | exited => (w, [Return c (Ok (okJson (JSummary (summary task))))])
      | running =>
          let w := set_task w r (with_waiters task (waiters task ++ [ResolveStopTerm c])) in
          (suspend w c (AwaitStopTerm r),
           [Kill r "SIGTERM"; SetTimeout c StopTermTimer (default 5000 timeoutMs)])
      end
  end.

(** [task_wait] up to its [await]: the waiter that resolves [done], and
    the timer when [timeoutMs] is given. *)
Definition task_wait (w : World) (c : nat) (id : string) (timeoutMs : option Z)
    : World * list Action :=
  match getTask w id with
  | Throw message => (w, [Return c (Throw message)])
  | Ok (r, task) =>
      match state task with
      | exited => (w, [Return c (Ok (okJson (JSummary (summary task))))])
      | running =>
          let w := set_task w r (with_waiters task (waiters task ++ [ResolveDone c])) in
          match timeoutMs with
          | None => (suspend w c AwaitDone, [])
          | Some ms => (suspend w c (AwaitDoneOrTimeout id r), [SetTimeout c WaitTimer ms])
          end
      end
  end.

(** The test [t.state === "exited" || includeRunning] of [task_prune]. *)
Definition prune_test (w : World) (includeRunning : option bool) (r : nat) : bool :=
  match state <$> heap w !! r with
  | Some exited => true
  | _ => default false includeRunning
  end.

(** [for (const [id, t] of tasks)]: the entries in insertion order, each
    visited once; deleting the entry being visited does not disturb the
    iteration. *)
Fixpoint prune_loop (w : World) (includeRunning : option bool)
    (entries : TaskMap) (m : TaskMap) (removed : Z) : TaskMap * Z :=
  match entries with
  | [] => (m, removed)
  | (id, r) :: rest =>
      if prune_test w includeRunning r
      then prune_loop w includeRunning rest (Map_delete id m) (removed + 1)
      else prune_loop w includeRunning rest m removed
  end.

Definition task_prune (w : World) (includeRunning : option bool)
    : World * Result ToolResponse :=
  let '(m, removed) := prune_loop w includeRunning (tasks w) (tasks w) 0 in
  (with_tasks w m, Ok (okJson (JPrune removed (Map_size m)))).

(** ** Process events and resumed calls *)

(** A suspended call returns the summary of the task it holds. *)
Definition resume_with_summary (w : World) (c r : nat) : World * list Action :=
  match heap w !! r with
  | None => (w, [])
  | Some task => (finish w c, [Return c (Ok (okJson (JSummary (summary task))))])
  end.

(** [w(task)] for one drained waiter, with the continuation of the call
    it resumes. A waiter whose race was already won by the timer resolves
    a promise nobody awaits. After [resolve(true)] the first race of
    [task_stop] skips the SIGKILL branch; every continuation only reads
    the task, so running it at once gives what the microtask gives. *)
Definition invoke (wt : Waiter) (r : nat) (w : World) : World * list Action :=
  match wt with
  | ResolveStopTerm c =>
      match pending w !! c with
      | Some (AwaitStopTerm tr) => resume_with_summary w c tr
      | _ => (w, [])
      end
  | ResolveStopKill c =>
      match pending w !! c with
      | Some (AwaitStopKill tr) => resume_with_summary w c tr
      | _ => (w, [])
      end
  | ResolveDone c =>
      match pending w !! c with
      | Some AwaitDone | Some (AwaitDoneOrTimeout _ _) => resume_with_summary w c r
      | _ => (w, [])
      end
  end.

(** [for (const w of drained) w(task)]. *)
Fixpoint invoke_all (drained : list Waiter) (r : nat) (w : World) : World * list Action :=
  match drained with
  | [] => (w, [])
  | wt :: rest =>
      let '(w1, a1) := invoke wt r w in
      let '(w2, a2) := invoke_all rest r w1 in
      (w2, a1 ++ a2)
  end.

(** The body of [proc.on("exit", ...)] on the task object: the new task,
    and the waiters that [task.waiters.splice(0)] took out. *)
Definition on_exit (task : Task) (code : option Z) (sig : option string)
    : Task * list Waiter :=
  let task := with_state task exited in
  let task := with_exitCode task code in
  let task := with_signal task sig in
  let drained := waiters task in
  (with_waiters task [], drained).

Definition close_handle (p : ChildProcess) : ChildProcess :=
  {| proc_pid := proc_pid p; exitEmitted := true |}.

(** The handle of the process of task [r] reports its exit: Node closes
    the handle and emits ["exit"], unless it did so before. *)
Definition emit_exit (w : World) (r : nat) (code : option Z) (sig : option string)
    : World * list Action :=
  match heap w !! r with
  | None => (w, [])
  | Some task =>
      if exitEmitted (proc task) then (w, [])
      else
        let task := with_proc task (close_handle (proc task)) in
        let '(task, drained) := on_exit task code sig in
        invoke_all drained r (set_task w r task)
  end.

Definition emit_data (w : World) (r : nat) (stream : Stream) (chunk : Buffer) (now : Z)
    : World :=
  match heap w !! r with
  | None => w
  | Some task => set_task w r (pushLog task stream now chunk)
  end.

(** [proc.on("error", ...)], with [err] standing for [String(err)]. *)
Definition emit_error (w : World) (r : nat) (err : string) (now : Z) : World :=
  emit_data w r stderr (Buffer_from ("Process error: " +:+ err +:+ newline)%string) now.

(** A timer set by the call [c] fires. *)
Definition on_timeout (w : World) (c : nat) (timer : Timer) : World * list Action :=
  match timer, pending w !! c with
  | StopTermTimer, Some (AwaitStopTerm r) =>
      match heap w !! r with
      | None => (w, [])
      | Some task =>
          match state task with
          | running =>
              let w := set_task w r (with_waiters task (waiters task ++ [ResolveStopKill c])) in
              (suspend w c (AwaitStopKill r),
               [Kill r "SIGKILL"; SetTimeout c StopKillTimer 1000])
          | exited => (finish w c, [Return c (Ok (okJson (JSummary (summary task))))])
          end
      end
  | StopKillTimer, Some (AwaitStopKill r) => resume_with_summary w c r
  | WaitTimer, Some (AwaitDoneOrTimeout id r) =>
      match heap w !! r with
      | None => (w, [])
      | Some task => (finish w c, [Return c (Ok (okJson (JTimeout id (state task) (pid task))))])
      end
  | _, _ => (w, [])
  end.

(** The callback of [t.proc.stdin.write(payload, cb)]. Without an error
    the promise resolves and the call returns ["ok"]. With an error the
    callback rejects the promise, and the stream emits ["error"] on the
    next tick, before the continuation of the call can run; the program
    attaches no listener to [proc.stdin], so the error is uncaught and
    the call never gets to throw it. *)
Definition on_write_done (w : World) (c : nat) (e : option string) : World * list Action :=
  match pending w !! c with
  | Some AwaitWrite =>
      match e with
      | None => (finish w c, [Return c (Ok (okText "ok"))])
      | Some _ => (w, [Uncaught (Stdin c)])
      end
  | _ => (w, [])
  end.

(** ** The event loop *)

Inductive Request :=
| Req_start (command : string) (args : list string) (cwd : option string)
    (env : option (list (string * string))) (name : option string) (maxLogBytes : option Z)
| Req_status (id : string)
| Req_list
| Req_logs (id : string) (offset tail : option Z) (includeTimestamps : option bool)
| Req_write (id data : string) (addNewline : option bool)
| Req_signal (id signal : string)
| Req_stop (id : string) (timeoutMs : option Z)
| Req_wait (id : string) (timeoutMs : option Z)
| Req_prune (includeRunning : option bool).

Inductive Event :=
| Call (req : Request) (o : Oracle)
| ProcData (task : nat) (stream : Stream) (chunk : Buffer) (now : Z)
| ProcExit (task : nat) (code : option Z) (sig : option string)
| ProcError (task : nat) (err : string) (now : Z)
| TimerFired (call : nat) (timer : Timer)
| WriteDone (call : nat) (e : option string)
| Shutdown.

(** A child that [spawn] returned without a pid emits ["error"] on the
    next tick, which comes before any other event. [task_start] has
    thrown at line 107 by then, before the listener of line 138 was
    attached, so the event finds no listener. *)
Definition orphan_error (o : Oracle) : list Action :=
  match spawn o with
  | Spawned None => [Uncaught Child]
  | _ => []
  end.

Definition handle (w : World) (c : nat) (req : Request) (o : Oracle) : World * list Action :=
  match req with
  | Req_start command args cwd env name maxLogBytes =>
      let '(w', res) := task_start w o command args cwd env name maxLogBytes in
      (w', Return c res :: orphan_error o)
  | Req_status id => (w, [Return c (task_status w id)])
  | Req_list => (w, [Return c (task_list w)])
  | Req_logs id offset tail includeTimestamps =>
      (w, [Return c (task_logs w id offset tail includeTimestamps)])
  | Req_write id data addNewline => task_write w c id data addNewline
  | Req_signal id signal => (w, task_signal w o c id signal)
  | Req_stop id timeoutMs => task_stop w c id timeoutMs
  | Req_wait id timeoutMs => task_wait w c id timeoutMs
  | Req_prune includeRunning =>
      let '(w', res) := task_prune w includeRunning in
      (w', [Return c res])
  end.

(** The handler of SIGINT and SIGTERM installed by [main]: SIGTERM to the
    process of every registered task that is running. *)
Definition shutdown (w : World) : list Action :=
  flat_map (fun e => match state <$> heap w !! e.2 with
                     | Some running => [Kill e.2 "SIGTERM"]
                     | _ => []
                     end) (tasks w).

(** One turn of the event loop. A tool call gets the next call number. *)
Definition step (w : World) (ev : Event) : World * list Action :=
  match ev with
  | Call req o => handle (with_nextCall w (S (nextCall w))) (nextCall w) req o
  | ProcData r stream chunk now => (emit_data w r stream chunk now, [])
  | ProcExit r code sig => emit_exit w r code sig
  | ProcError r err now => (emit_error w r err now, [])
  | TimerFired c timer => on_timeout w c timer
  | WriteDone c e => on_write_done w c e
  | Shutdown => (w, shutdown w)
  end.

(** The handlers over a sequence of events that the server handles, one
    turn each. *)
Fixpoint run (w : World) (evs : list Event) : World * list Action :=
  match evs with
  | [] => (w, [])
  | ev :: rest =>
      let '(w1, a1) := step w ev in
      let '(w2, a2) := run w1 rest in
      (w2, a1 ++ a2)
  end.

(** ** The server process *)



(** ** Real time *)

(** [setTimeout(f, ms)] of Node: a delay that is not within 1 and
    [TIMEOUT_MAX] is set to 1. *)
Definition TIMEOUT_MAX : Z := 2147483647.

Definition timer_delay (ms : Z) : Z :=
  if (1 <=? ms) && (ms <=? TIMEOUT_MAX) then ms else 1.

(** A timer that is set and has not fired: the call that set it, which
    of its timers it is, and the time from which it can fire. *)
Abbreviation Armed := (list (nat * Timer * Z)).

(** The timers that the actions of a turn at the time [now] set. *)
Definition arm (now : Z) (acts : list Action) : Armed :=
  omap (fun a => match a with
                 | SetTimeout c timer ms => Some (c, timer, now + timer_delay ms)
                 | _ => None
                 end) acts.

(** The timers left when the event is a timer that fires. *)
Definition disarm (ev : Event) (armed : Armed) : Armed :=
  match ev with
  | TimerFired c timer =>
      filter (fun e => e.1 <> (c, timer)) armed
  | _ => armed
  end.

(** A history with the time of each turn, in milliseconds. It is timely
    when time does not go back and a timer fires only when it was set
    and is due. *)
Fixpoint timely (w : World) (armed : Armed) (now : Z) (tevs : list (Z * Event)) : Prop :=
  match tevs with
  | [] => True
  | (t, ev) :: rest =>
      now <= t /\
      (forall c timer, ev = TimerFired c timer ->
         exists due, (c, timer, due) ∈ armed /\ due <= t) /\
      timely (step w ev).1 (disarm ev armed ++ arm t (step w ev).2) t rest
  end.

(** The actions of a history with the time of the turn of each. *)
Fixpoint timed_actions (w : World) (tevs : list (Z * Event)) : list (Z * Action) :=
  match tevs with
  | [] => []
  | (t, ev) :: rest =>
      (pair t <$> (step w ev).2) ++ timed_actions (step w ev).1 rest
  end.

(** ** Vocabulary of the statements *)

(** The item that [pushLog] appends. *)
Definition new_item (stream : Stream) (now : Z) (chunk : Buffer) : LogItem :=
  {| t := now; stream := stream; text := toString_utf8 chunk |}.

(** A series of calls of [pushLog] on one task object. *)
Definition Append : Type := Stream * Z * Buffer.

Definition append_item (a : Append) : LogItem := new_item a.1.1 a.1.2 a.2.

Definition pushLogs (task : Task) (appends : list Append) : Task :=
  foldl (fun tk a => pushLog tk a.1.1 a.1.2 a.2) task appends.

Definition logBytes_exact (task : Task) : Prop :=
  logBytes task = retained_bytes (logs task).

(** The selection rule of [logs] in the words of the specification: the
    last [tail] items, clamped to what there is; else the items from the
    index [offset] on; else everything. *)
Definition last_items {A} (n : nat) (items : list A) : list A :=
  drop (length items - n) items.

Definition spec_select (items : list LogItem) (offset tail : option Z) : list LogItem :=
  match tail with
  | Some n => last_items (Z.to_nat n `min` length items) items
  | None =>
      match offset with
      | Some k => drop (Z.to_nat k) items
      | None => items
      end
  end.

(** The text of some items in the two formatting modes: every item with
    its time in ISO form, its stream and its text (the default), or with
    its stream and its text alone. *)
Definition render (includeTimestamps : option bool) (items : list LogItem) : string :=
  if default true includeTimestamps then formatLogs items
  else join_map (fun i => "[" +:+ stream_name (stream i) +:+ "] " +:+ text i)%string items.

(** The results returned to the call [c] among some actions. *)
Definition returned (c : nat) (acts : list Action) : list (Result ToolResponse) :=
  omap (fun a => match a with
                 | Return c' res => if decide (c' = c) then Some res else None
                 | _ => None
                 end) acts.
Arguments returned : simpl never.

Definition waiter_call (wt : Waiter) : nat :=
  match wt with
  | ResolveStopTerm c | ResolveStopKill c | ResolveDone c => c
  end.

(** The number of the tool call that an event starts, if it starts one. *)
Definition new_call (w : World) (ev : Event) : option nat :=
  match ev with
  | Call _ _ => Some (nextCall w)
  | _ => None
  end.

(** The waiter [wt], invoked on the task [r0], resumes a call suspended
    at [p]: the reference of the task whose summary the call returns. *)
Definition resumes (p : Pending) (wt : Waiter) (r0 : nat) : option nat :=
  match wt, p with
  | ResolveStopTerm _, AwaitStopTerm r => Some r
  | ResolveStopKill _, AwaitStopKill r => Some r
  | ResolveDone _, AwaitDone => Some r0
  | ResolveDone _, AwaitDoneOrTimeout _ _ => Some r0
  | _, _ => None
  end.

(** The event leaves the call [c] where it is and returns nothing to it. *)
Definition quiet (w : World) (ev : Event) (c : nat) : Prop :=
  pending (step w ev).1 !! c = pending w !! c /\ returned c (step w ev).2 = [].

(** The call [c] is suspended on the task [r] through the waiter [wt]. *)
Definition awaits (w : World) (c r : nat) (wt : Waiter) : Prop :=
  match wt with
  | ResolveStopTerm c' => c' = c /\ pending w !! c = Some (AwaitStopTerm r)
  | ResolveStopKill c' => c' = c /\ pending w !! c = Some (AwaitStopKill r)
  | ResolveDone c' =>
      c' = c /\
      (pending w !! c = Some AwaitDone \/
       exists id, pending w !! c = Some (AwaitDoneOrTimeout id r))
  end.

(** The call [c] is in one of the two races of [task_stop] on the task [r]. *)
Definition stop_pending (w : World) (c r : nat) : Prop :=
  pending w !! c = Some (AwaitStopTerm r) \/ pending w !! c = Some (AwaitStopKill r).

(** The ways out of the first race of [task_stop], for the call [c] on
    the task [r]: the exit comes first and the call returns the summary
    without any other signal; or the timer comes first, and then SIGKILL
    is sent and the second race starts with a timer of one second if the
    task is still running, and the call returns the summary if it is not. *)
Definition stop_first_race (c r : nat) : Prop :=
  forall (w : World) (task : Task),
    pending w !! c = Some (AwaitStopTerm r) ->
    heap w !! r = Some task ->
    invoke (ResolveStopTerm c) r w
      = (finish w c, [Return c (Ok (okJson (JSummary (summary task))))]) /\
    (state task = running ->
       exists w',
         step w (TimerFired c StopTermTimer)
           = (w', [Kill r "SIGKILL"; SetTimeout c StopKillTimer 1000]) /\
         tasks w' = tasks w /\
         pending w' !! c = Some (AwaitStopKill r) /\
         heap w' !! r = Some (with_waiters task (waiters task ++ [ResolveStopKill c]))) /\
    (state task = exited ->
       step w (TimerFired c StopTermTimer)
         = (finish w c, [Return c (Ok (okJson (JSummary (summary task))))])).

(** The ways out of the second race: the exit or the one-second timer,
    and either way the call returns the summary of the task as it is. *)
Definition stop_second_race (c r : nat) : Prop :=
  forall (w : World) (task : Task),
    pending w !! c = Some (AwaitStopKill r) ->
    heap w !! r = Some task ->
    invoke (ResolveStopKill c) r w
      = (finish w c, [Return c (Ok (okJson (JSummary (summary task))))]) /\
    step w (TimerFired c StopKillTimer)
      = (finish w c, [Return c (Ok (okJson (JSummary (summary task))))]).

(** SIGKILL goes to the process of a task only on a [task_signal] that
    names it, or when the first timer of a [task_stop] on that task fires
    and finds the task still running. *)
Definition sigkill_only_when_running : Prop :=
  forall (w : World) (ev : Event) (r : nat),
    Kill r "SIGKILL" ∈ (step w ev).2 ->
    (exists id o, ev = Call (Req_signal id "SIGKILL") o) \/
    (exists c task,
       ev = TimerFired c StopTermTimer /\
       pending w !! c = Some (AwaitStopTerm r) /\
       heap w !! r = Some task /\ state task = running).

(** The timer of [task_wait] fires while the call [c] still races on the
    task [r]: the call returns the timeout marker with the state and the
    pid that the task has then. *)
Definition wait_times_out (c : nat) (id : string) (r : nat) : Prop :=
  forall (w : World) (task : Task),
    pending w !! c = Some (AwaitDoneOrTimeout id r) ->
    heap w !! r = Some task ->
    step w (TimerFired c WaitTimer)
      = (finish w c, [Return c (Ok (okJson (JTimeout id (state task) (pid task))))]).

(** The events during which a [task_wait] with a timeout keeps waiting:
    any but the exit of its task and its own timer. *)
Definition keeps_waiting (c r : nat) (ev : Event) : Prop :=
  ev <> TimerFired c WaitTimer /\ forall code sig, ev <> ProcExit r code sig.

(** The waiter of the wait call [c] is queued on no task but [r]. *)
Definition done_only_on (w : World) (c r : nat) : Prop :=
  forall (r0 : nat) task0,
    heap w !! r0 = Some task0 -> ResolveDone c ∈ waiters task0 -> r0 = r.

(** Waiters of [task_wait] belong to calls that have started. *)
Definition done_started (w : World) : Prop :=
  forall (r0 : nat) task0 c, heap w !! r0 = Some task0 -> ResolveDone c ∈ waiters task0 ->
    (c < nextCall w)%nat.

(** A task object as [task_start] creates it. *)
Definition fresh (task : Task) : Prop :=
  state task = running /\ exitCode task = None /\ signal task = None /\
  logBytes task = 0 /\ logs task = [] /\ waiters task = [] /\
  exitEmitted (proc task) = false.

(** All that one turn of the event loop can do to a task object, [n]
    being the call that starts in that turn, if any: nothing, an append
    to the log, a waiter pushed while the task is running (by the new
    call, or for the second race of a [task_stop]), or the exit. *)
Inductive task_step (n : option nat) : Task -> Task -> Prop :=
| task_same task : task_step n task task
| task_pushLog task stream now chunk : task_step n task (pushLog task stream now chunk)
| task_waiter task wt :
    n = Some (waiter_call wt) \/ (exists c, wt = ResolveStopKill c) ->
    state task = running ->
    task_step n task (with_waiters task (waiters task ++ [wt]))
| task_exit task code sig :
    exitEmitted (proc task) = false ->
    task_step n task (on_exit (with_proc task (close_handle (proc task))) code sig).1.

(** And to the heap: objects stay where they are, new ones are fresh. *)
Definition heap_step (n : option nat) (h h' : list Task) : Prop :=
  forall r : nat,
    match h !! r with
    | Some task => exists task', h' !! r = Some task' /\ task_step n task task'
    | None => h' !! r = None \/ exists task', h' !! r = Some task' /\ fresh task'
    end.

(** A task whose exit was handled, with the outcome that was reported. *)
Definition settled (code : option Z) (sig : option string) (task : Task) : Prop :=
  state task = exited /\ exitCode task = code /\ signal task = sig /\
  waiters task = [] /\ exitEmitted (proc task) = true.

(** The [id] of a task object, where [id] names the argument of a tool. *)
Definition task_id (task : Task) : string := id task.

(** The registry holds no key twice, and every key leads to a task
    object that has the key as its id. *)
Definition registry_ok (w : World) : Prop :=
  NoDup (tasks w).*1 /\
  forall key r,
    Map_get key (tasks w) = Some r ->
    exists task, heap w !! r = Some task /\ task_id task = key.

(** The state of the task object behind a reference. *)
Definition state_at (w : World) (r : nat) : option TaskState := state <$> heap w !! r.

(** The entries that [task_prune] keeps and the number it removes, read
    off the registry. *)
Definition prune_kept (w : World) (includeRunning : option bool) (m : TaskMap) : TaskMap :=
  filter (fun e => prune_test w includeRunning e.2 = false) m.

Definition prune_count (w : World) (includeRunning : option bool) (m : TaskMap) : Z :=
  Z.of_nat (length (filter (fun e => prune_test w includeRunning e.2 = true) m)).

(** The action is none of those listed. *)
Ltac no_such_action H :=
  repeat (apply elem_of_cons in H as [H|H]; [discriminate H|]);
  by apply not_elem_of_nil in H.

(** ** A worked scenario

    One task is started with the smallest budget, writes ["hello"], and
    two [task_wait] calls (numbered 1 and 2, the second with a timeout)
    and one [task_stop] call (numbered 3) are suspended on it. *)

Definition demo_oracle : Oracle :=
  {| randomUUID := "7c9e6679"; spawn := Spawned (Some 4242); Date_now := 1700000000000;
     kill := Delivered true |}.

Definition demo_start : Event :=
  Call (Req_start "sh" ["-c"; "echo hello; sleep 60"]%string None None (Some "demo"%string)
          (Some 1024)) demo_oracle.

Definition demo_events : list Event :=
  [demo_start;
   ProcData 0%nat stdout (Buffer_from "hello") 1700000000005;
   Call (Req_wait "7c9e6679" None) demo_oracle;
   Call (Req_wait "7c9e6679" (Some 50)) demo_oracle;
   Call (Req_stop "7c9e6679" None) demo_oracle].

Definition demo_world : World := (run init demo_events).1.

Definition demo_task : Task :=
  {| id := "7c9e6679"; name := Some "demo"%string; command := "sh";
     args := ["-c"; "echo hello; sleep 60"]%string; cwd := None; env := None;
     createdAt := 1700000000000;
     proc := {| proc_pid := 4242; exitEmitted := false |};
     pid := 4242; state := running; exitCode := None; signal := None;
     maxLogBytes := 1024; logBytes := 21;
     logs := [{| t := 1700000000005; stream := stdout; text := "hello" |}];
     waiters := [ResolveDone 1; ResolveDone 2; ResolveStopTerm 3] |}.

(** The scenario after the process has exited with code 0. *)
Definition demo_exited_world : World := (step demo_world (ProcExit 0%nat (Some 0) None)).1.

Definition demo_exited_task : Task :=
  with_waiters
    (with_exitCode
       (with_state (with_proc demo_task (close_handle (proc demo_task))) exited)
       (Some 0))
    [].

(** The scenario of the logs: the task is started and its process writes
    five chunks, on both streams. *)
Definition lines_events : list Event :=
  [demo_start;
   ProcData 0%nat stdout (Buffer_from "one") 1700000000001;
   ProcData 0%nat stderr (Buffer_from "two") 1700000000002;
   ProcData 0%nat stdout (Buffer_from "three") 1700000000003;
   ProcData 0%nat stdout (Buffer_from "four") 1700000000004;
   ProcData 0%nat stderr (Buffer_from "five") 1700000000005].

Definition lines_world : World := (run init lines_events).1.

Definition lines_task : Task :=
  {| id := "7c9e6679"; name := Some "demo"%string; command := "sh";
     args := ["-c"; "echo hello; sleep 60"]%string; cwd := None; env := None;
     createdAt := 1700000000000;
     proc := {| proc_pid := 4242; exitEmitted := false |};
     pid := 4242; state := running; exitCode := None; signal := None;
     maxLogBytes := 1024; logBytes := 99;
     logs := [{| t := 1700000000001; stream := stdout; text := "one" |};
              {| t := 1700000000002; stream := stderr; text := "two" |};
              {| t := 1700000000003; stream := stdout; text := "three" |};
              {| t := 1700000000004; stream := stdout; text := "four" |};
              {| t := 1700000000005; stream := stderr; text := "five" |}];
     waiters := [] |}.

(** ** Vocabulary of the further statements *)

(** Two task objects with the same launch parameters. *)
Definition same_launch (task task' : Task) : Prop :=
  id task' = id task /\ name task' = name task /\ command task' = command task /\
  args task' = args task /\ cwd task' = cwd task /\ env task' = env task /\
  createdAt task' = createdAt task /\ pid task' = pid task /\
  maxLogBytes task' = maxLogBytes task.

(** The state of a task agrees with what its process has reported: a
    running task has no outcome yet, an exited one holds no waiter. *)
Definition lifecycle_ok (task : Task) : Prop :=
  match state task with
  | running =>
      exitEmitted (proc task) = false /\ exitCode task = None /\ signal task = None
  | exited => exitEmitted (proc task) = true /\ waiters task = []
  end.

(** The buffer is within its budget, or empty. *)
Definition within_budget (task : Task) : Prop :=
  logBytes task <= maxLogBytes task \/ logs task = [].

(** A string of ASCII characters only. *)
Definition ascii_only (s : string) : Prop :=
  Forall (fun b => byte_val b <= 127) (Buffer_from s).

(** Every suspended call and every queued waiter belongs to a call that
    has started. *)
Definition started (w : World) : Prop :=
  (forall c p, pending w !! c = Some p -> (c < nextCall w)%nat) /\
  (forall r task wt,
     heap w !! r = Some task -> wt ∈ waiters task -> (waiter_call wt < nextCall w)%nat).

(** The waiters of the call [c] are queued on no task but [r]. *)
Definition only_on (w : World) (c r : nat) : Prop :=
  forall r0 task0 wt,
    heap w !! r0 = Some task0 -> wt ∈ waiters task0 -> waiter_call wt = c -> r0 = r.

(** What the event [ev] does to the task object at [r]: nothing; an
    append to its log, when the event is output or an error of its
    process; a waiter pushed while it is running, by a [task_stop] or a
    [task_wait] that the event starts on it, or for the second race of
    the [task_stop] whose first timer the event is; or its exit. *)
Definition task_moves (w : World) (ev : Event) (r : nat) (task task' : Task) : Prop :=
  task' = task \/
  (exists stream now chunk,
     task' = pushLog task stream now chunk /\
     (ev = ProcData r stream chunk now \/
      exists err, ev = ProcError r err now /\ stream = stderr /\
                  chunk = Buffer_from ("Process error: " +:+ err +:+ newline)%string)) \/
  (exists wt,
     task' = with_waiters task (waiters task ++ [wt]) /\ state task = running /\
     ((new_call w ev = Some (waiter_call wt) /\
       exists id timeoutMs o,
         getTask w id = Ok (r, task) /\
         (ev = Call (Req_stop id timeoutMs) o /\ wt = ResolveStopTerm (nextCall w) \/
          ev = Call (Req_wait id timeoutMs) o /\ wt = ResolveDone (nextCall w))) \/
      exists c, ev = TimerFired c StopTermTimer /\
                pending w !! c = Some (AwaitStopTerm r) /\ wt = ResolveStopKill c)) \/
  (exists code sig,
     ev = ProcExit r code sig /\ exitEmitted (proc task) = false /\
     task' = (on_exit (with_proc task (close_handle (proc task))) code sig).1).

(** The timer that a suspended call races against, if any. *)
Definition own_timer (p : Pending) : option Timer :=
  match p with
  | AwaitStopTerm _ => Some StopTermTimer
  | AwaitStopKill _ => Some StopKillTimer
  | AwaitDoneOrTimeout _ _ => Some WaitTimer
  | AwaitWrite | AwaitDone => None
  end.

(** The events that end the wait of the call [c], suspended at [p] on
    the task [r]: the exit of the task, and the timer of the race. *)
Definition wakes (p : Pending) (c r : nat) (ev : Event) : Prop :=
  match ev with
  | ProcExit r0 _ _ => r0 = r
  | TimerFired c0 timer => c0 = c /\ own_timer p = Some timer
  | _ => False
  end.

(** The events during which a [task_wait] goes on waiting: any but the
    exit of its task and, when it has one, its timer. *)
Definition wait_goes_on (timeoutMs : option Z) (c r : nat) (ev : Event) : Prop :=
  (forall code sig, ev <> ProcExit r code sig) /\
  (ev = TimerFired c WaitTimer -> timeoutMs = None).

(** The events during which the first race of a [task_stop] goes on. *)
Definition first_race_goes_on (c r : nat) (ev : Event) : Prop :=
  (forall code sig, ev <> ProcExit r code sig) /\ ev <> TimerFired c StopTermTimer.

(** The events during which its second race goes on. *)
Definition second_race_goes_on (c r : nat) (ev : Event) : Prop :=
  (forall code sig, ev <> ProcExit r code sig) /\ ev <> TimerFired c StopKillTimer.

(** Where the call number [c] stands, with the results it has got so
    far: not given out yet; suspended, with no result yet; or over, with
    exactly one result. *)
Definition call_state (w : World) (c : nat) (results : list (Result ToolResponse)) : Prop :=
  ((nextCall w <= c)%nat /\ pending w !! c = None /\ results = []) \/
  ((c < nextCall w)%nat /\ is_Some (pending w !! c) /\ results = []) \/
  ((c < nextCall w)%nat /\ pending w !! c = None /\ exists res, results = [res]).

(** The call [c], suspended at [p], waits on the task [r]: its waiters
    are queued on that task only, which is the task that [p] names if it
    names one; the task is running, no exit was reported for its
    process, and one of its waiters resumes the call. *)
Definition waits_on (w : World) (c : nat) (p : Pending) (r : nat) : Prop :=
  only_on w c r /\
  (forall r0,
     p = AwaitStopTerm r0 \/ p = AwaitStopKill r0 \/ (exists id, p = AwaitDoneOrTimeout id r0) ->
     r0 = r) /\
  exists task wt,
    heap w !! r = Some task /\ state task = running /\ exitEmitted (proc task) = false /\
    wt ∈ waiters task /\ awaits w c r wt.

(** Every suspended call waits for the callback of its write or on a
    running task. *)
Definition suspended_ok (w : World) : Prop :=
  forall c p, pending w !! c = Some p -> p = AwaitWrite \/ exists r, waits_on w c p r.

(** Where a [task_stop] call [c] on the task [r] stands, with the
    results it has got so far: suspended in one of the races listed, with
    no result yet, or over with one result, a summary. *)
Definition stop_state (races : list Pending) (w : World) (c r : nat)
    (results : list (Result ToolResponse)) : Prop :=
  (c < nextCall w)%nat /\ is_Some (heap w !! r) /\
  ((exists p, p ∈ races /\ pending w !! c = Some p /\ results = []) \/
   (pending w !! c = None /\ exists s, results = [Ok (okJson (JSummary s))])).

(** ** Examples *)

Example toString_ascii :
  toString_utf8 (Buffer_from "hello") = "hello"%string.
Proof. reflexivity. Qed.

Example toString_ill_formed :
  byteLength_utf8 (toString_utf8 [xff]) = 3 /\
  toString_utf8 [xe2; x82] = replacement /\
  toString_utf8 [xe2; x41] = (replacement +:+ "A")%string /\
  toString_utf8 [xe2; x82; xac; xc3; xa9] = str_of_bytes [xe2; x82; xac; xc3; xa9].
Proof. repeat split; reflexivity. Qed.

Example toISOString_examples :
  toISOString 0 = "1970-01-01T00:00:00.000Z"%string /\
  toISOString 1700000000123 = "2023-11-14T22:13:20.123Z"%string /\
  toISOString 951782400000 = "2000-02-29T00:00:00.000Z"%string /\
  toISOString (-1) = "1969-12-31T23:59:59.999Z"%string /\
  toISOString 1709251199999 = "2024-02-29T23:59:59.999Z"%string /\
  toISOString 1735689600000 = "2025-01-01T00:00:00.000Z"%string.
Proof. repeat split; vm_compute; reflexivity. Qed.

(** A chunk that is not UTF-8 is logged as U+FFFD and weighs 3 + 16. *)
Example pushLog_ill_formed :
  logBytes (pushLog demo_task stderr 7 [xff]) = 21 + 19 /\
  logs (pushLog demo_task stderr 7 [xff])
    = logs demo_task ++ [{| t := 7; stream := stderr; text := replacement |}].
Proof. split; reflexivity. Qed.

(** Two chunks of 600 bytes on top of ["hello"], under a budget of 1024:
    the two oldest items go, the accounting follows. *)
Example pushLog_evicts_oldest :
  let chunk := repeat x61 600 in
  let after := pushLogs demo_task [(stdout, 8, chunk); (stderr, 9, chunk)] in
  logs after = [new_item stderr 9 chunk] /\ logBytes after = 616.
Proof. split; vm_compute; reflexivity. Qed.

(** One chunk larger than the whole budget empties the buffer. *)
Example pushLog_oversized :
  let after := pushLog demo_task stdout 8 (repeat x61 2000) in
  logs after = [] /\ logBytes after = 0.
Proof. split; vm_compute; reflexivity. Qed.

(** On five items, [tail = 2] gives the last two, [offset = 3] the items
    3 and 4, both together the last two again, and neither all five. *)
Example select_logs_five :
  let item n := {| t := n; stream := stdout; text := "x" |} in
  let items := [item 0; item 1; item 2; item 3; item 4] in
  select_logs items None (Some 2) = [item 3; item 4] /\
  select_logs items (Some 3) None = [item 3; item 4] /\
  select_logs items (Some 1) (Some 2) = [item 3; item 4] /\
  select_logs items None None = items /\
  select_logs items None (Some 9) = items /\
  select_logs items (Some 9) None = [].
Proof. repeat split; reflexivity. Qed.

(** The exit in the scenario: the three suspended calls return the same
    summary, in the order in which their waiters were queued. *)
Example demo_exit :
  step demo_world (ProcExit 0%nat (Some 0) None)
    = (demo_exited_world,
       [Return 1%nat (Ok (okJson (JSummary (summary demo_exited_task))));
        Return 2%nat (Ok (okJson (JSummary (summary demo_exited_task))));
        Return 3%nat (Ok (okJson (JSummary (summary demo_exited_task))))]) /\
  heap demo_exited_world !! 0%nat = Some demo_exited_task /\
  pending demo_exited_world = ∅.
Proof. repeat split; vm_compute; reflexivity. Qed.

(** A stop whose process ignores SIGTERM: SIGKILL after the first timer,
    and the summary when the exit is reported. *)
Example demo_stop_escalates :
  (run init
     [demo_start;
      Call (Req_stop "7c9e6679" (Some 100)) demo_oracle;
      TimerFired 1%nat StopTermTimer;
      ProcExit 0%nat None (Some "SIGKILL"%string);
      TimerFired 1%nat StopKillTimer]).2
  = [Return 0%nat (Ok (okJson (JStarted "7c9e6679" 4242 running)));
     Kill 0%nat "SIGTERM"; SetTimeout 1%nat StopTermTimer 100;
     Kill 0%nat "SIGKILL"; SetTimeout 1%nat StopKillTimer 1000;
     Return 1%nat
       (Ok (okJson (JSummary
          {| Summary.id := "7c9e6679"; Summary.name := Some "demo"%string;
             Summary.command := "sh";
             Summary.args := ["-c"; "echo hello; sleep 60"]%string;
             Summary.cwd := None; Summary.pid := 4242; Summary.state := exited;
             Summary.exitCode := None; Summary.signal := Some "SIGKILL"%string;
             Summary.createdAt := 1700000000000; Summary.logBytes := 0;
             Summary.maxLogBytes := 1024 |})))].
Proof. vm_compute. reflexivity. Qed.

(** A prune in the scenario after the exit removes the one task. *)
Example demo_prune :
  (task_prune demo_world None).2 = Ok (okJson (JPrune 0 1)) /\
  (task_prune demo_exited_world None).2 = Ok (okJson (JPrune 1 0)) /\
  (task_prune demo_world (Some true)).2 = Ok (okJson (JPrune 1 0)).
Proof. repeat split; vm_compute; reflexivity. Qed.

(** ** The log buffer: accounting and budget *)

Lemma retained_bytes_app (xs ys : list LogItem) :
  retained_bytes (xs ++ ys) = retained_bytes xs + retained_bytes ys.
Proof.
  induction xs as [|x xs IH]; simpl; [lia|].
  unfold retained_bytes in *. simpl. rewrite IH. lia.
Qed.

(** The loop drops a prefix, subtracts what the prefix weighed, and stops
    under the budget or on the empty buffer. *)
Lemma evict_spec (budget bytes : Z) (items : list LogItem) :
  exists evicted,
    items = evicted ++ (evict budget bytes items).2 /\
    (evict budget bytes items).1 = bytes - retained_bytes evicted /\
    ((evict budget bytes items).1 <= budget \/ (evict budget bytes items).2 = []).
Proof.
  revert bytes. induction items as [|old rest IH]; intros bytes; simpl.
  - exists []. simpl. repeat split; [lia | by right].
  - destruct (budget <? bytes) eqn:Hover.
    + destruct (IH (bytes - (byteLength_utf8 (text old) + 16))) as (ev & Hsplit & Hbytes & Hstop).
      exists (old :: ev). repeat split.
      * simpl. by rewrite <- Hsplit.
      * rewrite Hbytes. unfold retained_bytes, item_bytes. simpl. lia.
      * exact Hstop.
    + exists []. simpl. repeat split; [lia | left; lia].
Qed.

Lemma pushLog_fields (task : Task) (stream : Stream) (now : Z) (chunk : Buffer) :
  let item := new_item stream now chunk in
  let res := evict (maxLogBytes task) (logBytes task + item_bytes item) (logs task ++ [item]) in
  logBytes (pushLog task stream now chunk) = res.1 /\
  logs (pushLog task stream now chunk) = res.2 /\
  maxLogBytes (pushLog task stream now chunk) = maxLogBytes task /\
  state (pushLog task stream now chunk) = state task /\
  exitCode (pushLog task stream now chunk) = exitCode task /\
  signal (pushLog task stream now chunk) = signal task /\
  waiters (pushLog task stream now chunk) = waiters task /\
  proc (pushLog task stream now chunk) = proc task.
Proof.
  unfold pushLog, new_item, item_bytes. simpl.
  destruct (evict _ _ _) as [bytes kept]. simpl. repeat split.
Qed.

Lemma pushLog_identity (task : Task) (stream : Stream) (now : Z) (chunk : Buffer) :
  id (pushLog task stream now chunk) = id task /\
  pid (pushLog task stream now chunk) = pid task.
Proof. unfold pushLog. simpl. by destruct (evict _ _ _). Qed.

Lemma pushLog_evicts (task : Task) (stream : Stream) (now : Z) (chunk : Buffer) :
  exists evicted,
    logs task ++ [new_item stream now chunk]
      = evicted ++ logs (pushLog task stream now chunk) /\
    logBytes (pushLog task stream now chunk)
      = logBytes task + item_bytes (new_item stream now chunk) - retained_bytes evicted /\
    (logBytes (pushLog task stream now chunk) <= maxLogBytes task \/
     logs (pushLog task stream now chunk) = []).
Proof.
  destruct (pushLog_fields task stream now chunk) as (Hb & Hl & _).
  rewrite Hb, Hl. apply evict_spec.
Qed.

Lemma pushLog_exact (task : Task) (stream : Stream) (now : Z) (chunk : Buffer) :
  logBytes task = retained_bytes (logs task) ->
  logBytes (pushLog task stream now chunk)
    = retained_bytes (logs (pushLog task stream now chunk)).
Proof.
  intros Hacc.
  destruct (pushLog_evicts task stream now chunk) as (ev & Hsplit & Hbytes & _).
  apply (f_equal retained_bytes) in Hsplit.
  rewrite !retained_bytes_app in Hsplit.
  unfold retained_bytes at 2 in Hsplit. simpl in Hsplit. lia.
Qed.

Lemma pushLog_suffix (task : Task) (stream : Stream) (now : Z) (chunk : Buffer) :
  logs (pushLog task stream now chunk) `suffix_of` logs task ++ [new_item stream now chunk].
Proof.
  destruct (pushLog_evicts task stream now chunk) as (ev & Hsplit & _).
  exists ev. exact Hsplit.
Qed.

Lemma pushLogs_suffix (appends : list Append) (task : Task) :
  logs (pushLogs task appends) `suffix_of` logs task ++ map append_item appends.
Proof.
  revert task. induction appends as [|a rest IH]; intros task; simpl.
  - by rewrite app_nil_r.
  - etrans; [apply IH|].
    rewrite (cons_middle (append_item a)), app_assoc.
    apply suffix_app, pushLog_suffix.
Qed.

(** C2. When [pushLog] returns, the buffer is within the budget or empty,
    and what it retains is a suffix of what was there plus the new item;
    over any series of appends the retained items are the most recent
    ones of all that was appended. *)
Theorem pushLog_within_budget (task : Task) (appends : list Append)
    (stream : Stream) (now : Z) (chunk : Buffer) :
  let before := pushLogs task appends in
  let after := pushLog before stream now chunk in
  (logBytes after <= maxLogBytes after \/ logs after = []) /\
  logs after `suffix_of` logs before ++ [new_item stream now chunk] /\
  logs after `suffix_of`
    logs task ++ map append_item appends ++ [new_item stream now chunk].
Proof.
  intros before after. subst after. split; [|split].
  - destruct (pushLog_evicts before stream now chunk) as (ev & _ & _ & Hstop).
    destruct (pushLog_fields before stream now chunk) as (_ & _ & Hmax & _).
    by rewrite Hmax.
  - apply pushLog_suffix.
  - etrans; [apply pushLog_suffix|].
    rewrite app_assoc. apply suffix_app, pushLogs_suffix.
Qed.

(** ** One turn of the event loop, seen from the heap and the registry *)

Lemma heap_step_refl (n : option nat) (h : list Task) : heap_step n h h.
Proof.
  intros r. destruct (h !! r) as [task|] eqn:Hr; [|by left].
  exists task. split; [done | constructor].
Qed.

Lemma heap_step_insert (n : option nat) (h : list Task) (r0 : nat) (task0 task0' : Task) :
  h !! r0 = Some task0 -> task_step n task0 task0' -> heap_step n h (<[r0 := task0']> h).
Proof.
  intros Hr0 Hstep r. destruct (decide (r = r0)) as [->|Hne].
  - rewrite Hr0. exists task0'. split; [|done].
    apply list_lookup_insert_eq. by eapply lookup_lt_Some.
  - rewrite list_lookup_insert_ne by done.
    destruct (h !! r) as [task|]; [|by left].
    exists task. split; [done | constructor].
Qed.

Lemma heap_step_alloc (n : option nat) (h : list Task) (task : Task) :
  fresh task -> heap_step n h (h ++ [task]).
Proof.
  intros Hfresh r. destruct (h !! r) as [old|] eqn:Hr.
  - exists old. split; [|constructor]. by apply lookup_app_l_Some.
  - apply lookup_ge_None in Hr.
    destruct (decide (r = length h)) as [->|Hne].
    + right. exists task. split; [|done].
      rewrite lookup_app_r by lia. by rewrite Nat.sub_diag.
    + left. apply lookup_ge_None. rewrite length_app. simpl. lia.
Qed.

Lemma getTask_Ok (w : World) (id : string) (r : nat) (task : Task) :
  getTask w id = Ok (r, task) ->
  Map_get id (tasks w) = Some r /\ heap w !! r = Some task.
Proof.
  unfold getTask. destruct (Map_get id (tasks w)) as [r'|]; [|done].
  destruct (heap w !! r') as [task'|] eqn:Hr; [|done].
  intros [= <- <-]. done.
Qed.

Lemma resume_with_summary_frame (w : World) (c r : nat) :
  heap (resume_with_summary w c r).1 = heap w /\
  tasks (resume_with_summary w c r).1 = tasks w /\
  nextCall (resume_with_summary w c r).1 = nextCall w.
Proof. unfold resume_with_summary. by destruct (heap w !! r). Qed.

Lemma invoke_frame (wt : Waiter) (r : nat) (w : World) :
  heap (invoke wt r w).1 = heap w /\
  tasks (invoke wt r w).1 = tasks w /\
  nextCall (invoke wt r w).1 = nextCall w.
Proof.
  destruct wt as [c|c|c]; simpl;
    destruct (pending w !! c) as [[]|]; simpl; try done;
    apply resume_with_summary_frame.
Qed.

Lemma invoke_all_frame (drained : list Waiter) (r : nat) (w : World) :
  heap (invoke_all drained r w).1 = heap w /\
  tasks (invoke_all drained r w).1 = tasks w /\
  nextCall (invoke_all drained r w).1 = nextCall w.
Proof.
  revert w. induction drained as [|wt rest IH]; intros w; simpl; [done|].
  destruct (invoke_frame wt r w) as (Hh & Ht & Hn).
  destruct (invoke wt r w) as [w1 a1]. simpl in *.
  destruct (IH w1) as (Hh' & Ht' & Hn').
  destruct (invoke_all rest r w1) as [w2 a2]. simpl in *.
  by rewrite Hh', Ht', Hn'.
Qed.

Lemma step_heap (w : World) (ev : Event) :
  heap_step (new_call w ev) (heap w) (heap (step w ev).1).
Proof.
  destruct ev as [req o|r stream chunk now|r code sig|r err now|c timer|c e|]; simpl;
    [| | | | | |apply heap_step_refl].
  - destruct req; simpl; try apply heap_step_refl.
    + unfold task_start. destruct (spawn o) as [|[p|]]; simpl; try apply heap_step_refl.
      destruct (p =? 0); simpl; [apply heap_step_refl|].
      apply heap_step_alloc. by repeat split.
    + unfold task_write. destruct (getTask _ _) as [[r task]|]; simpl; [|apply heap_step_refl].
      destruct (state task); apply heap_step_refl.
    + unfold task_stop. destruct (getTask _ _) as [[r task]|] eqn:Hget; simpl;
        [|apply heap_step_refl].
      apply getTask_Ok in Hget as [_ Hr]. simpl in Hr.
      destruct (state task) eqn:Hst; simpl; [|apply heap_step_refl].
      eapply heap_step_insert; [done | constructor; [by left|done]].
    + unfold task_wait. destruct (getTask _ _) as [[r task]|] eqn:Hget; simpl;
        [|apply heap_step_refl].
      apply getTask_Ok in Hget as [_ Hr]. simpl in Hr.
      destruct (state task) eqn:Hst; simpl; [|apply heap_step_refl].
      destruct timeoutMs; simpl;
        (eapply heap_step_insert; [done | constructor; [by left|done]]).
    + unfold task_prune. destruct (prune_loop _ _ _ _ _). apply heap_step_refl.
  - unfold emit_data. destruct (heap w !! r) as [task|] eqn:Hr; [|apply heap_step_refl].
    eapply heap_step_insert; [done | constructor].
  - unfold emit_exit. destruct (heap w !! r) as [task|] eqn:Hr; [|apply heap_step_refl].
    destruct (exitEmitted (proc task)) eqn:Hem; [apply heap_step_refl|].
    unfold on_exit. simpl.
    match goal with |- context [invoke_all ?ws ?r ?w0] =>
      destruct (invoke_all_frame ws r w0) as (Hh & _) end.
    rewrite Hh. simpl.
    eapply heap_step_insert; [done|]. by apply (task_exit _ task code sig).
  - unfold emit_error, emit_data.
    destruct (heap w !! r) as [task|] eqn:Hr; [|apply heap_step_refl].
    eapply heap_step_insert; [done | constructor].
  - unfold on_timeout. destruct timer; destruct (pending w !! c) as [[| r | r | | id r]|];
      simpl; try apply heap_step_refl.
    + destruct (heap w !! r) as [task|] eqn:Hr; [|apply heap_step_refl].
      destruct (state task) eqn:Hst; simpl; [|apply heap_step_refl].
      eapply heap_step_insert; [done | constructor; [right; by eexists|done]].
    + rewrite (proj1 (resume_with_summary_frame w c r)). apply heap_step_refl.
    + destruct (heap w !! r); apply heap_step_refl.
  - unfold on_write_done. destruct (pending w !! c) as [[]|]; try destruct e;
      apply heap_step_refl.
Qed.

Lemma step_tasks (w : World) (ev : Event) :
  match ev with
  | Call (Req_start _ _ _ _ _ _) _ | Call (Req_prune _) _ => True
  | _ => tasks (step w ev).1 = tasks w
  end.
Proof.
  destruct ev as [req o|r stream chunk now|r code sig|r err now|c timer|c e|]; simpl;
    [| | | | | |done].
  - destruct req; simpl; try done.
    + unfold task_write. destruct (getTask _ _) as [[r task]|]; simpl; [|done].
      by destruct (state task).
    + unfold task_stop. destruct (getTask _ _) as [[r task]|]; simpl; [|done].
      by destruct (state task).
    + unfold task_wait. destruct (getTask _ _) as [[r task]|]; simpl; [|done].
      destruct (state task); [|done]. by destruct timeoutMs.
  - unfold emit_data. by destruct (heap w !! r).
  - unfold emit_exit. destruct (heap w !! r) as [task|]; [|done].
    destruct (exitEmitted (proc task)); [done|]. unfold on_exit. simpl.
    match goal with |- context [invoke_all ?ws ?r ?w0] =>
      destruct (invoke_all_frame ws r w0) as (_ & Ht & _) end.
    by rewrite Ht.
  - unfold emit_error, emit_data. by destruct (heap w !! r).
  - unfold on_timeout. destruct timer; destruct (pending w !! c) as [[| r | r | | id r]|];
      simpl; try done.
    + destruct (heap w !! r) as [task|]; [|done]. by destruct (state task).
    + by rewrite (proj1 (proj2 (resume_with_summary_frame w c r))).
    + by destruct (heap w !! r).
  - unfold on_write_done. by destruct (pending w !! c) as [[]|]; try destruct e.
Qed.

Lemma nextCall_step (w : World) (ev : Event) :
  nextCall (step w ev).1
    = match ev with Call _ _ => S (nextCall w) | _ => nextCall w end.
Proof.
  destruct ev as [req o|r stream chunk now|r code sig|r err now|c timer|c e|]; simpl;
    [| | | | | |done].
  - destruct req; simpl; try done.
    + unfold task_start. destruct (spawn o) as [|[p|]]; simpl; try done.
      by destruct (p =? 0).
    + unfold task_write. destruct (getTask _ _) as [[r task]|]; simpl; [|done].
      by destruct (state task).
    + unfold task_stop. destruct (getTask _ _) as [[r task]|]; simpl; [|done].
      by destruct (state task).
    + unfold task_wait. destruct (getTask _ _) as [[r task]|]; simpl; [|done].
      destruct (state task); [|done]. by destruct timeoutMs.
    + unfold task_prune. by destruct (prune_loop _ _ _ _ _).
  - unfold emit_data. by destruct (heap w !! r).
  - unfold emit_exit. destruct (heap w !! r) as [task|]; [|done].
    destruct (exitEmitted (proc task)); [done|]. unfold on_exit. simpl.
    match goal with |- context [invoke_all ?ws ?r ?w0] =>
      destruct (invoke_all_frame ws r w0) as (_ & _ & Hn) end.
    by rewrite Hn.
  - unfold emit_error, emit_data. by destruct (heap w !! r).
  - unfold on_timeout. destruct timer; destruct (pending w !! c) as [[| r | r | | id r]|];
      simpl; try done.
    + destruct (heap w !! r) as [task|]; [|done]. by destruct (state task).
    + by rewrite (proj2 (proj2 (resume_with_summary_frame w c r))).
    + by destruct (heap w !! r).
  - unfold on_write_done. by destruct (pending w !! c) as [[]|]; try destruct e.
Qed.

Lemma nextCall_mono (w : World) (ev : Event) :
  (nextCall w <= nextCall (step w ev).1)%nat.
Proof. rewrite nextCall_step. destruct ev; lia. Qed.

(** ** Invariants of the event loop *)

Lemma run_invariant (P : World -> Prop) :
  (forall w ev, P w -> P (step w ev).1) ->
  forall evs w, P w -> P (run w evs).1.
Proof.
  intros Hstep evs. induction evs as [|ev rest IH]; intros w Hw; simpl; [done|].
  specialize (Hstep w ev Hw). destruct (step w ev) as [w1 a1]. simpl in Hstep.
  specialize (IH w1 Hstep). by destruct (run w1 rest).
Qed.

Lemma task_step_exact (n : option nat) (task task' : Task) :
  task_step n task task' -> logBytes_exact task -> logBytes_exact task'.
Proof.
  intros [] Hacc; try done. by apply pushLog_exact.
Qed.

Lemma fresh_exact (task : Task) : fresh task -> logBytes_exact task.
Proof. intros (_ & _ & _ & Hb & Hl & _). unfold logBytes_exact. by rewrite Hb, Hl. Qed.

Lemma heap_exact (evs : list Event) (r : nat) (task : Task) :
  heap (run init evs).1 !! r = Some task -> logBytes_exact task.
Proof.
  revert r task.
  apply (run_invariant
           (fun w => forall r task, heap w !! r = Some task -> logBytes_exact task));
    [|by intros r task; simpl; rewrite lookup_nil].
  intros w ev IH r task' Hr'.
  pose proof (step_heap w ev r) as Hstep.
  destruct (heap w !! r) as [task|] eqn:Hr.
  - destruct Hstep as (task'' & Hr'' & Hts). rewrite Hr' in Hr''. injection Hr'' as <-.
    eapply task_step_exact; [done | by eapply IH].
  - destruct Hstep as [Hnone|(task'' & Hr'' & Hfresh)]; [congruence|].
    rewrite Hr' in Hr''. injection Hr'' as <-. by apply fresh_exact.
Qed.

Lemma task_step_identity (n : option nat) (task task' : Task) :
  task_step n task task' -> id task' = id task /\ pid task' = pid task.
Proof. intros []; try done. apply pushLog_identity. Qed.

(** A task object keeps its id and its pid, whatever happens. *)
Lemma identity_forever (evs : list Event) (w : World) (r : nat) (task : Task) :
  heap w !! r = Some task ->
  exists later,
    heap (run w evs).1 !! r = Some later /\ id later = id task /\ pid later = pid task.
Proof.
  intros Hr.
  assert (Hnow : exists later,
            heap w !! r = Some later /\ id later = id task /\ pid later = pid task)
    by by exists task.
  clear Hr. revert w Hnow. apply (run_invariant (fun w => exists later,
    heap w !! r = Some later /\ id later = id task /\ pid later = pid task)).
  intros w ev (later & Hr & Hid & Hpid).
  pose proof (step_heap w ev r) as Hstep. rewrite Hr in Hstep.
  destruct Hstep as (later' & Hr' & Hts).
  apply task_step_identity in Hts as [Hid' Hpid'].
  exists later'. split; [done|]. split; congruence.
Qed.

(** C1. Whatever the server has gone through, the [logBytes] of every task
    object is the sum, over the retained items, of the UTF-8 length of the
    text plus 16; a further [pushLog] keeps it so, and takes off exactly
    what the items it evicts from the front had added. *)
Theorem logBytes_always_exact (evs : list Event) (r : nat) (task : Task) :
  heap (run init evs).1 !! r = Some task ->
  logBytes task = retained_bytes (logs task) /\
  forall stream now chunk,
    logBytes (pushLog task stream now chunk)
      = retained_bytes (logs (pushLog task stream now chunk)) /\
    exists evicted,
      logs task ++ [new_item stream now chunk]
        = evicted ++ logs (pushLog task stream now chunk) /\
      logBytes (pushLog task stream now chunk)
        = logBytes task + item_bytes (new_item stream now chunk) - retained_bytes evicted.
Proof.
  intros Hr. pose proof (heap_exact evs r task Hr) as Hacc.
  split; [exact Hacc|]. intros stream now chunk.
  split; [by apply pushLog_exact|].
  destruct (pushLog_evicts task stream now chunk) as (ev & Hsplit & Hbytes & _).
  by exists ev.
Qed.

Lemma logBytes_always_exact_witness :
  heap demo_world !! 0%nat = Some demo_task /\
  logBytes demo_task = retained_bytes (logs demo_task) /\
  forall stream now chunk,
    logBytes (pushLog demo_task stream now chunk)
      = retained_bytes (logs (pushLog demo_task stream now chunk)) /\
    exists evicted,
      logs demo_task ++ [new_item stream now chunk]
        = evicted ++ logs (pushLog demo_task stream now chunk) /\
      logBytes (pushLog demo_task stream now chunk)
        = logBytes demo_task + item_bytes (new_item stream now chunk)
          - retained_bytes evicted.
Proof.
  split; [reflexivity|].
  apply (logBytes_always_exact demo_events 0%nat demo_task). reflexivity.
Defined.

(** ** The registry *)

Lemma Map_delete_here (kept rest : TaskMap) (id : string) (r : nat) :
  id ∉ kept.*1 -> Map_delete id (kept ++ (id, r) :: rest) = kept ++ rest.
Proof.
  induction kept as [|[k v] kept IH]; intros Hnotin; simpl.
  - by rewrite decide_True.
  - rewrite fmap_cons in Hnotin. apply not_elem_of_cons in Hnotin as [Hne Hnotin].
    simpl in Hne. rewrite decide_False by done. by rewrite IH.
Qed.

(** With no key twice, the loop keeps what fails the test, in order, and
    counts what passes it. *)
Lemma prune_loop_spec (w : World) (includeRunning : option bool)
    (entries kept : TaskMap) (removed : Z) :
  NoDup (kept ++ entries).*1 ->
  prune_loop w includeRunning entries (kept ++ entries) removed
    = (kept ++ prune_kept w includeRunning entries,
       removed + prune_count w includeRunning entries).
Proof.
  revert kept removed. induction entries as [|[id r] rest IH]; intros kept removed Hnd.
  - simpl. unfold prune_count. simpl. f_equal. lia.
  - simpl. unfold prune_kept, prune_count.
    destruct (prune_test w includeRunning r) eqn:Htest.
    + rewrite Map_delete_here.
      2:{ rewrite fmap_app in Hnd. apply NoDup_app in Hnd as (_ & Hdisj & _).
          intros Hin. apply (Hdisj id Hin). rewrite fmap_cons. left. }
      rewrite IH.
      2:{ rewrite fmap_app, fmap_cons in Hnd. rewrite fmap_app.
          apply NoDup_app in Hnd as (Hk & Hdisj & Hr).
          apply NoDup_cons in Hr as [_ Hr]. apply NoDup_app. repeat split; [done| |done].
          intros x Hx Hx'. apply (Hdisj x Hx). by right. }
      rewrite filter_cons_False by (simpl; congruence).
      rewrite filter_cons_True by done.
      unfold prune_kept, prune_count. simpl. f_equal. lia.
    + rewrite (cons_middle (id, r) kept rest), app_assoc in Hnd |- *.
      rewrite IH by done.
      rewrite filter_cons_True by done.
      rewrite filter_cons_False by (simpl; congruence).
      unfold prune_kept, prune_count. by rewrite <- app_assoc.
Qed.

Lemma prune_split (w : World) (includeRunning : option bool) (m : TaskMap) :
  prune_count w includeRunning m + Map_size (prune_kept w includeRunning m) = Map_size m.
Proof.
  unfold prune_count, prune_kept, Map_size.
  induction m as [|e m IH]; [done|].
  destruct (prune_test w includeRunning e.2) eqn:Htest.
  - rewrite filter_cons_True by done. rewrite filter_cons_False by congruence.
    simpl length. lia.
  - rewrite filter_cons_False by congruence. rewrite filter_cons_True by done.
    simpl length. lia.
Qed.

Lemma Map_set_keys (k : string) (v : nat) (m : TaskMap) :
  (Map_set k v m).*1 = if decide (k ∈ m.*1) then m.*1 else m.*1 ++ [k].
Proof.
  induction m as [|[k' v'] m IH]; [done|].
  cbn [Map_set]. destruct (decide (k' = k)) as [->|Hne]; rewrite !fmap_cons; cbn [fst].
  - rewrite decide_True; [done|]. left.
  - rewrite IH. destruct (decide (k ∈ m.*1)) as [Hin|Hnotin].
    + rewrite decide_True; [done|]. by right.
    + rewrite decide_False; [done|]. apply not_elem_of_cons. split; [congruence|done].
Qed.

Lemma Map_set_NoDup (k : string) (v : nat) (m : TaskMap) :
  NoDup m.*1 -> NoDup (Map_set k v m).*1.
Proof.
  intros Hnd. rewrite Map_set_keys. destruct (decide (k ∈ m.*1)); [done|].
  apply NoDup_app. repeat split; [done| |apply NoDup_singleton].
  intros x Hx Hx'. apply list_elem_of_singleton in Hx'. by subst.
Qed.

Lemma prune_kept_NoDup (w : World) (includeRunning : option bool) (m : TaskMap) :
  NoDup m.*1 -> NoDup (prune_kept w includeRunning m).*1.
Proof.
  unfold prune_kept. induction m as [|e m IH]; intros Hnd; [done|].
  rewrite fmap_cons in Hnd. apply NoDup_cons in Hnd as [Hnotin Hnd].
  destruct (decide (prune_test w includeRunning e.2 = false)) as [Hkeep|Hdrop].
  - rewrite filter_cons_True by done. rewrite fmap_cons. apply NoDup_cons.
    split; [|by apply IH]. intros Hin. apply Hnotin.
    apply list_elem_of_fmap in Hin as (e' & -> & Hin).
    apply list_elem_of_filter in Hin as [_ Hin]. by apply list_elem_of_fmap_2.
  - rewrite filter_cons_False by done. by apply IH.
Qed.

Lemma task_prune_spec (w : World) (includeRunning : option bool) :
  NoDup (tasks w).*1 ->
  task_prune w includeRunning
    = (with_tasks w (prune_kept w includeRunning (tasks w)),
       Ok (okJson (JPrune (prune_count w includeRunning (tasks w))
                          (Map_size (prune_kept w includeRunning (tasks w)))))).
Proof.
  intros Hnd. unfold task_prune.
  pose proof (prune_loop_spec w includeRunning (tasks w) [] 0 Hnd) as Hloop.
  simpl in Hloop. by rewrite Hloop.
Qed.

Lemma Map_get_None (id : string) (m : TaskMap) :
  id ∉ m.*1 -> Map_get id m = None.
Proof.
  induction m as [|[k v] m IH]; intros Hnotin; [done|].
  rewrite fmap_cons in Hnotin. apply not_elem_of_cons in Hnotin as [Hne Hnotin].
  cbn [Map_get]. rewrite decide_False by (simpl in Hne; congruence). by apply IH.
Qed.

Lemma Map_get_filter (P : string * nat -> Prop) `{!forall e, Decision (P e)}
    (id : string) (m : TaskMap) :
  NoDup m.*1 ->
  Map_get id (filter P m)
    = match Map_get id m with
      | Some r => if decide (P (id, r)) then Some r else None
      | None => None
      end.
Proof.
  induction m as [|[k v] m IH]; intros Hnd; [done|].
  rewrite fmap_cons in Hnd. apply NoDup_cons in Hnd as [Hnotin Hnd]. simpl in Hnotin.
  cbn [Map_get]. destruct (decide (k = id)) as [->|Hne].
  - destruct (decide (P (id, v))) as [HP|HP].
    + rewrite filter_cons_True by done. cbn [Map_get]. by rewrite decide_True.
    + rewrite filter_cons_False by done. rewrite IH by done.
      by rewrite (Map_get_None id m Hnotin).
  - destruct (decide (P (k, v))) as [HP|HP].
    + rewrite filter_cons_True by done. cbn [Map_get]. rewrite decide_False by done.
      by apply IH.
    + rewrite filter_cons_False by done. by apply IH.
Qed.

Lemma prune_test_exited (w : World) (includeRunning : option bool) (r : nat) :
  default false includeRunning = false ->
  prune_test w includeRunning r = true <-> state_at w r = Some exited.
Proof.
  intros Hinc. unfold prune_test, state_at.
  destruct (state <$> heap w !! r) as [[]|]; rewrite ?Hinc; naive_solver.
Qed.

Lemma Map_get_set (key k : string) (v : nat) (m : TaskMap) :
  Map_get key (Map_set k v m) = if decide (k = key) then Some v else Map_get key m.
Proof.
  induction m as [|[k' v'] m IH]; cbn [Map_set Map_get]; [done|].
  destruct (decide (k' = k)) as [->|Hne]; cbn [Map_get].
  - by destruct (decide (k = key)).
  - destruct (decide (k' = key)) as [->|Hne'].
    + by rewrite decide_False.
    + exact IH.
Qed.

Lemma Map_get_kept (w : World) (includeRunning : option bool) (key : string) (r : nat)
    (m : TaskMap) :
  NoDup m.*1 ->
  Map_get key (prune_kept w includeRunning m) = Some r -> Map_get key m = Some r.
Proof.
  intros Hnd. unfold prune_kept. rewrite Map_get_filter by done.
  destruct (Map_get key m) as [r'|]; [|done]. by case_decide.
Qed.

Lemma registry_ok_always (evs : list Event) : registry_ok (run init evs).1.
Proof.
  apply (run_invariant registry_ok).
  2:{ split; [apply NoDup_nil_2|done]. }
  intros w ev [Hnd Hreg].
  assert (Hsame : tasks (step w ev).1 = tasks w -> registry_ok (step w ev).1).
  { intros Htasks. split; [by rewrite Htasks|]. intros key r Hget.
    rewrite Htasks in Hget. destruct (Hreg key r Hget) as (task & Hr & Hid).
    pose proof (step_heap w ev r) as Hstep. rewrite Hr in Hstep.
    destruct Hstep as (task' & Hr' & Hts). exists task'. split; [done|].
    apply task_step_identity in Hts as [Hid' _]. unfold task_id in *. congruence. }
  pose proof (step_tasks w ev) as Hframe.
  destruct ev as [req o| | | | | |]; try by apply Hsame.
  destruct req as [cmd ags dir en nm mx|rid| |rid off tl ts|rid data nl|rid sg|rid ms|rid ms|inc];
    try by apply Hsame.
  - simpl. unfold task_start.
    destruct (spawn o) as [|[p|]]; simpl; try by split.
    destruct (p =? 0); simpl; [by split|].
    split; [by apply Map_set_NoDup|]. intros key r. cbn [tasks with_tasks heap with_heap].
    rewrite Map_get_set.
    destruct (decide (randomUUID o = key)) as [<-|Hne].
    + intros [= <-]. eexists. split; [by apply list_lookup_middle|done].
    + intros Hget. destruct (Hreg key r Hget) as (task & Hr & Hid).
      exists task. split; [|done]. by apply lookup_app_l_Some.
  - simpl. rewrite task_prune_spec by done. simpl.
    split; [by apply prune_kept_NoDup|]. intros key r Hget.
    apply Map_get_kept in Hget; [|done]. by apply Hreg.
Qed.

(** ** Draining the waiters *)

Lemma returned_app (c : nat) (a b : list Action) :
  returned c (a ++ b) = returned c a ++ returned c b.
Proof. apply omap_app. Qed.

Lemma resume_with_summary_spec (w : World) (c r : nat) (task : Task) :
  heap w !! r = Some task ->
  resume_with_summary w c r
    = (finish w c, [Return c (Ok (okJson (JSummary (summary task))))]).
Proof. unfold resume_with_summary. by intros ->. Qed.

Lemma returned_resume_other (w : World) (c c0 r : nat) :
  c0 <> c -> returned c (resume_with_summary w c0 r).2 = [].
Proof.
  intros Hne. unfold resume_with_summary. destruct (heap w !! r); simpl; [|done].
  unfold returned. simpl. by rewrite decide_False.
Qed.

Lemma pending_resume_other (w : World) (c c0 r : nat) :
  c0 <> c -> pending (resume_with_summary w c0 r).1 !! c = pending w !! c.
Proof.
  intros Hne. unfold resume_with_summary. destruct (heap w !! r); simpl; [|done].
  by rewrite lookup_delete_ne.
Qed.

(** A waiter of another call leaves the call [c] as it is. *)
Lemma invoke_other (wt : Waiter) (r c : nat) (w : World) :
  waiter_call wt <> c ->
  pending (invoke wt r w).1 !! c = pending w !! c /\ returned c (invoke wt r w).2 = [].
Proof.
  intros Hne. destruct wt as [c0|c0|c0]; simpl in *;
    destruct (pending w !! c0) as [[]|]; simpl; try done;
    by rewrite pending_resume_other, returned_resume_other.
Qed.

(** A call that is over stays over, and gets nothing more. *)
Lemma invoke_none (wt : Waiter) (r c : nat) (w : World) :
  pending w !! c = None ->
  pending (invoke wt r w).1 !! c = None /\ returned c (invoke wt r w).2 = [].
Proof.
  intros Hnone. destruct (decide (waiter_call wt = c)) as [Heq|Hne].
  - destruct wt as [c0|c0|c0]; simpl in *; subst c0; by rewrite Hnone.
  - destruct (invoke_other wt r c w Hne) as [-> ->]. done.
Qed.

Lemma invoke_all_none (drained : list Waiter) (r c : nat) (w : World) :
  pending w !! c = None -> returned c (invoke_all drained r w).2 = [].
Proof.
  revert w. induction drained as [|wt rest IH]; intros w Hnone; simpl; [done|].
  destruct (invoke_none wt r c w Hnone) as [Hp Hr].
  destruct (invoke wt r w) as [w1 a1]. simpl in *.
  specialize (IH w1 Hp). destruct (invoke_all rest r w1) as [w2 a2]. simpl in *.
  by rewrite returned_app, Hr, IH.
Qed.

(** A waiter of the call [c]: it resumes the call, which returns the
    summary and is over, or it belongs to a race that is no longer
    awaited and does nothing. *)
Lemma invoke_same (wt0 wt : Waiter) (r c : nat) (w : World) (final : Task) :
  heap w !! r = Some final ->
  waiter_call wt0 = c ->
  awaits w c r wt ->
  (pending (invoke wt0 r w).1 !! c = None /\
   returned c (invoke wt0 r w).2 = [Ok (okJson (JSummary (summary final)))]) \/
  (wt0 <> wt /\ invoke wt0 r w = (w, [])).
Proof.
  intros Hfinal Hc0 Haw.
  assert (Hdone : pending (finish w c) !! c = None /\
                  returned c [Return c (Ok (okJson (JSummary (summary final))))]
                    = [Ok (okJson (JSummary (summary final)))]).
  { split; [apply lookup_delete_eq|]. unfold returned. simpl. by rewrite decide_True. }
  destruct wt0 as [c0|c0|c0], wt as [c'|c'|c']; simpl in *; subst c0;
    try destruct Haw as [-> [Hp|[id Hp]]]; try destruct Haw as [-> Hp];
    rewrite Hp; try (by right);
    left; by rewrite (resume_with_summary_spec _ _ _ _ Hfinal).
Qed.

Lemma awaits_pending (w w' : World) (c r : nat) (wt : Waiter) :
  pending w' !! c = pending w !! c -> awaits w c r wt -> awaits w' c r wt.
Proof. intros Heq. destruct wt; simpl; by rewrite Heq. Qed.

Lemma awaits_call (w : World) (c r : nat) (wt : Waiter) :
  awaits w c r wt -> waiter_call wt = c.
Proof. destruct wt; simpl; tauto. Qed.

(** Draining a list that holds a waiter of the suspended call [c] returns
    to [c] once, the summary of the task as the handler left it. *)
Lemma invoke_all_resolves (drained : list Waiter) (r c : nat) (wt : Waiter)
    (w : World) (final : Task) :
  heap w !! r = Some final ->
  wt ∈ drained ->
  awaits w c r wt ->
  returned c (invoke_all drained r w).2 = [Ok (okJson (JSummary (summary final)))].
Proof.
  revert w. induction drained as [|wt0 rest IH]; intros w Hfinal Hin Haw; simpl.
  - by apply not_elem_of_nil in Hin.
  - destruct (decide (waiter_call wt0 = c)) as [Hc0|Hc0].
    + destruct (invoke_same wt0 wt r c w final Hfinal Hc0 Haw) as [[Hp Hr]|[Hne Hnop]].
      * destruct (invoke wt0 r w) as [w1 a1]. simpl in *.
        pose proof (invoke_all_none rest r c w1 Hp) as Hrest.
        destruct (invoke_all rest r w1) as [w2 a2]. simpl in *.
        by rewrite returned_app, Hr, Hrest.
      * rewrite Hnop. apply elem_of_cons in Hin as [->|Hin]; [done|].
        specialize (IH w Hfinal Hin Haw).
        by destruct (invoke_all rest r w) as [w2 a2].
    + destruct (invoke_other wt0 r c w Hc0) as [Hp Hr].
      pose proof (proj1 (invoke_frame wt0 r w)) as Hh.
      destruct (invoke wt0 r w) as [w1 a1]. simpl in *.
      apply elem_of_cons in Hin as [->|Hin];
        [by rewrite (awaits_call _ _ _ _ Haw) in Hc0|].
      assert (Hfinal1 : heap w1 !! r = Some final) by by rewrite Hh.
      specialize (IH w1 Hfinal1 Hin (awaits_pending w w1 c r wt Hp Haw)).
      destruct (invoke_all rest r w1) as [w2 a2]. simpl in *.
      by rewrite returned_app, Hr, IH.
Qed.

Lemma invoke_unfold (wt : Waiter) (r0 : nat) (w : World) :
  invoke wt r0 w
    = match pending w !! waiter_call wt with
      | Some p =>
          match resumes p wt r0 with
          | Some r => resume_with_summary w (waiter_call wt) r
          | None => (w, [])
          end
      | None => (w, [])
      end.
Proof. destruct wt as [c|c|c]; simpl; by destruct (pending w !! c) as [[]|]. Qed.

Lemma invoke_cases (wt : Waiter) (r0 : nat) (w : World) :
  invoke wt r0 w = (w, []) \/
  exists p r task,
    pending w !! waiter_call wt = Some p /\ resumes p wt r0 = Some r /\
    heap w !! r = Some task /\
    invoke wt r0 w
      = (finish w (waiter_call wt),
         [Return (waiter_call wt) (Ok (okJson (JSummary (summary task))))]).
Proof.
  rewrite invoke_unfold.
  destruct (pending w !! waiter_call wt) as [p|] eqn:Hp; [|by left].
  destruct (resumes p wt r0) as [r|] eqn:Hres; [|by left].
  unfold resume_with_summary. destruct (heap w !! r) as [task|] eqn:Hr; [|by left].
  right. by exists p, r, task.
Qed.

(** Draining waiters either passes the call [c] by, or one of them
    resumes it: it returns once, the summary of its task, and is over. *)
Lemma invoke_all_call (drained : list Waiter) (r0 c : nat) (w : World) :
  (pending (invoke_all drained r0 w).1 !! c = pending w !! c /\
   returned c (invoke_all drained r0 w).2 = []) \/
  (exists wt p r task,
     wt ∈ drained /\ waiter_call wt = c /\
     pending w !! c = Some p /\ resumes p wt r0 = Some r /\
     heap w !! r = Some task /\
     pending (invoke_all drained r0 w).1 !! c = None /\
     returned c (invoke_all drained r0 w).2 = [Ok (okJson (JSummary (summary task)))]).
Proof.
  revert w. induction drained as [|wt0 rest IH]; intros w; [by left|].
  cbn [invoke_all].
  destruct (decide (waiter_call wt0 = c)) as [Hc|Hc].
  - destruct (invoke_cases wt0 r0 w) as [Hnop|(p & r & task & Hp & Hres & Hr & Hinv)].
    + rewrite Hnop.
      destruct (IH w) as [Hq|(wt & p' & r' & task & Hin & Hrest)];
        destruct (invoke_all rest r0 w) as [w2 a2]; [by left|].
      right. exists wt, p', r', task. split; [by right|done].
    + rewrite Hinv, Hc. rewrite Hc in Hp.
      pose proof (invoke_all_none rest r0 c (finish w c) (lookup_delete_eq _ _)) as Hrest.
      assert (Hover : pending (invoke_all rest r0 (finish w c)).1 !! c = None).
      { destruct (IH (finish w c)) as [[Hsame _]|(? & ? & ? & ? & _ & _ & _ & _ & _ & Hn & _)];
          [|done]. rewrite Hsame. apply lookup_delete_eq. }
      destruct (invoke_all rest r0 (finish w c)) as [w2 a2]. simpl in Hrest, Hover.
      right. exists wt0, p, r, task. repeat split; try done; [left|].
      cbn [snd]. rewrite returned_app, Hrest. unfold returned. simpl.
      by rewrite decide_True.
  - destruct (invoke_other wt0 r0 c w Hc) as [Hp Hr].
    pose proof (proj1 (invoke_frame wt0 r0 w)) as Hh.
    destruct (invoke wt0 r0 w) as [w1 a1]. simpl in Hp, Hr, Hh.
    destruct (IH w1) as [[Hsame Hnone]|(wt & p & r & task & Hin & Hwc & Hp1 & Hres & Hr1 & Hn & Hret)].
    + destruct (invoke_all rest r0 w1) as [w2 a2]. simpl in *. left.
      split; [congruence|]. by rewrite returned_app, Hr, Hnone.
    + destruct (invoke_all rest r0 w1) as [w2 a2]. simpl in *. right.
      exists wt, p, r, task. repeat split; try done; [by right|congruence|congruence|].
      by rewrite returned_app, Hr, Hret.
Qed.

Lemma invoke_all_returns (drained : list Waiter) (r0 : nat) (w : World) (a : Action) :
  a ∈ (invoke_all drained r0 w).2 -> exists c res, a = Return c res.
Proof.
  revert w. induction drained as [|wt rest IH]; intros w; simpl.
  - intros Hin. by apply not_elem_of_nil in Hin.
  - destruct (invoke_cases wt r0 w) as [->|(p & r & task & _ & _ & _ & ->)].
    + specialize (IH w). destruct (invoke_all rest r0 w) as [w2 a2]. exact IH.
    + specialize (IH (finish w (waiter_call wt))).
      destruct (invoke_all rest r0 (finish w (waiter_call wt))) as [w2 a2]. simpl in *.
      intros Hin. apply elem_of_cons in Hin as [->|Hin]; [by eexists _, _|by apply IH].
Qed.

(** ** The exit of a process *)

Lemma task_step_settled (n : option nat) (code : option Z) (sig : option string)
    (task task' : Task) :
  task_step n task task' -> settled code sig task -> settled code sig task'.
Proof.
  intros Hstep (Hst & Hcode & Hsig & Hw & Hem).
  destruct Hstep as [tk|tk st nw ch|tk wt Hwt Hrun|tk cd sg Hopen]; try congruence.
  - done.
  - destruct (pushLog_fields tk st nw ch)
      as (_ & _ & _ & Hst' & Hcode' & Hsig' & Hw' & Hp').
    unfold settled. by rewrite Hst', Hcode', Hsig', Hw', Hp'.
Qed.

Lemma settled_forever (code : option Z) (sig : option string) (r : nat)
    (evs : list Event) (w : World) :
  (exists task, heap w !! r = Some task /\ settled code sig task) ->
  exists later, heap (run w evs).1 !! r = Some later /\ settled code sig later.
Proof.
  revert w. apply (run_invariant
    (fun w => exists task, heap w !! r = Some task /\ settled code sig task)).
  intros w ev (task & Hr & Hset).
  pose proof (step_heap w ev r) as Hstep. rewrite Hr in Hstep.
  destruct Hstep as (task' & Hr' & Hts).
  exists task'. split; [done|]. by eapply task_step_settled.
Qed.

(** C3. The first exit reported for a process is one transition of its
    task: the state becomes [exited], the code and the signal are those
    reported, the waiter list is emptied and the waiters that were in it
    are invoked, each once and in order, on that final task; every call
    suspended on one of them gets exactly one result, the summary of the
    final task, so two pending waits get the same one. From then on the
    state, the code and the signal stay as they are, the waiter list
    stays empty, and no other exit is handled for the task. *)
Theorem exit_handler_transition (w : World) (r : nat) (task : Task)
    (code : option Z) (sig : option string) :
  heap w !! r = Some task ->
  exitEmitted (proc task) = false ->
  exists w' acts final,
    step w (ProcExit r code sig) = (w', acts) /\
    heap w' !! r = Some final /\
    state final = exited /\ exitCode final = code /\ signal final = sig /\
    waiters final = [] /\
    (w', acts) = invoke_all (waiters task) r (set_task w r final) /\
    (forall c wt, wt ∈ waiters task -> awaits w c r wt ->
       returned c acts = [Ok (okJson (JSummary (summary final)))]) /\
    (forall c1 c2 wt1 wt2,
       wt1 ∈ waiters task -> awaits w c1 r wt1 ->
       wt2 ∈ waiters task -> awaits w c2 r wt2 ->
       returned c1 acts = returned c2 acts) /\
    (forall evs, exists later,
       heap (run w' evs).1 !! r = Some later /\
       state later = exited /\ exitCode later = code /\ signal later = sig /\
       waiters later = [] /\
       forall code' sig',
         step (run w' evs).1 (ProcExit r code' sig') = ((run w' evs).1, [])).
Proof.
  intros Hr Hopen. simpl. unfold emit_exit. rewrite Hr, Hopen.
  unfold on_exit. simpl.
  set (final := with_waiters _ []).
  pose proof (invoke_all_frame (waiters task) r (set_task w r final)) as (Hh & _).
  assert (Hfinal0 : heap (set_task w r final) !! r = Some final).
  { simpl. apply list_lookup_insert_eq. by eapply lookup_lt_Some. }
  assert (Hres : forall c wt, wt ∈ waiters task -> awaits w c r wt ->
            returned c (invoke_all (waiters task) r (set_task w r final)).2
              = [Ok (okJson (JSummary (summary final)))]).
  { intros c wt Hin Haw.
    apply (invoke_all_resolves _ r c wt _ final Hfinal0 Hin).
    by apply (awaits_pending w). }
  destruct (invoke_all (waiters task) r (set_task w r final)) as [w' acts] eqn:Hall.
  simpl in Hh, Hres.
  assert (Hfinal : heap w' !! r = Some final) by by rewrite Hh.
  exists w', acts, final. repeat split; try done.
  - intros c1 c2 wt1 wt2 Hin1 Haw1 Hin2 Haw2.
    by rewrite (Hres c1 wt1), (Hres c2 wt2).
  - intros evs.
    destruct (settled_forever code sig r evs w') as (later & Hl & Hset).
    { exists final. split; [done|]. by repeat split. }
    destruct Hset as (Hst & Hcode & Hsig & Hw & Hem).
    exists later. repeat split; try done.
    intros code' sig'. simpl. unfold emit_exit. by rewrite Hl, Hem.
Qed.

Lemma exit_handler_transition_witness :
  heap demo_world !! 0%nat = Some demo_task /\
  exitEmitted (proc demo_task) = false /\
  exists w' acts final,
    step demo_world (ProcExit 0%nat (Some 0) None) = (w', acts) /\
    heap w' !! 0%nat = Some final /\
    state final = exited /\ exitCode final = Some 0 /\ signal final = None /\
    waiters final = [] /\
    (w', acts) = invoke_all (waiters demo_task) 0%nat (set_task demo_world 0%nat final) /\
    (forall c wt, wt ∈ waiters demo_task -> awaits demo_world c 0%nat wt ->
       returned c acts = [Ok (okJson (JSummary (summary final)))]) /\
    (forall c1 c2 wt1 wt2,
       wt1 ∈ waiters demo_task -> awaits demo_world c1 0%nat wt1 ->
       wt2 ∈ waiters demo_task -> awaits demo_world c2 0%nat wt2 ->
       returned c1 acts = returned c2 acts) /\
    (forall evs, exists later,
       heap (run w' evs).1 !! 0%nat = Some later /\
       state later = exited /\ exitCode later = Some 0 /\ signal later = None /\
       waiters later = [] /\
       forall code' sig',
         step (run w' evs).1 (ProcExit 0%nat code' sig') = ((run w' evs).1, [])).
Proof.
  split; [reflexivity|]. split; [reflexivity|].
  apply (exit_handler_transition demo_world 0%nat demo_task (Some 0) None); reflexivity.
Defined.

(** ** How a suspended call moves *)

Lemma returned_orphan (c : nat) (o : Oracle) : returned c (orphan_error o) = [].
Proof. unfold orphan_error. by destruct (spawn o) as [|[]]. Qed.

Lemma returned_cons_other (c c0 : nat) (res : Result ToolResponse) (acts : list Action) :
  c0 <> c -> returned c (Return c0 res :: acts) = returned c acts.
Proof. intros Hne. unfold returned. simpl. by rewrite decide_False. Qed.

Lemma returned_cons_own (c : nat) (res : Result ToolResponse) (acts : list Action) :
  returned c (Return c res :: acts) = res :: returned c acts.
Proof. unfold returned. simpl. by rewrite decide_True. Qed.

Lemma handle_other (w : World) (c0 c : nat) (req : Request) (o : Oracle) :
  c <> c0 ->
  pending (handle w c0 req o).1 !! c = pending w !! c /\
  returned c (handle w c0 req o).2 = [].
Proof.
  intros Hne. assert (Hne' : c0 <> c) by congruence.
  assert (Hret : forall res, returned c [Return c0 res] = []).
  { intros res. unfold returned. simpl. by rewrite decide_False. }
  destruct req as [cmd ags dir en nm mx|rid| |rid off tl ts|rid data nl|rid sg|rid ms|rid ms|inc];
    simpl.
  - destruct (task_start _ _ _ _ _ _ _ _) as [w' res] eqn:Hstart. simpl.
    split; [|by rewrite returned_cons_other, returned_orphan].
    unfold task_start in Hstart.
    destruct (spawn o) as [|[p|]]; try (by injection Hstart as <- _).
    destruct (p =? 0); by injection Hstart as <- _.
  - done.
  - done.
  - done.
  - unfold task_write. destruct (getTask _ _) as [[r task]|]; simpl; [|done].
    destruct (state task); simpl; [|done]. by rewrite lookup_insert_ne.
  - split; [done|]. unfold task_signal. destruct (getTask _ _) as [[r task]|]; simpl; [|done].
    destruct (state task); simpl; [|done].
    destruct (kill o); [done|]. unfold returned. simpl. by rewrite decide_False.
  - unfold task_stop. destruct (getTask _ _) as [[r task]|]; simpl; [|done].
    destruct (state task); simpl; [|done]. by rewrite lookup_insert_ne.
  - unfold task_wait. destruct (getTask _ _) as [[r task]|]; simpl; [|done].
    destruct (state task); simpl; [|done].
    destruct ms; simpl; by rewrite lookup_insert_ne.
  - unfold task_prune. destruct (prune_loop _ _ _ _ _). simpl. by split.
Qed.

Lemma on_timeout_other (w : World) (c0 c : nat) (timer : Timer) :
  c <> c0 ->
  pending (on_timeout w c0 timer).1 !! c = pending w !! c /\
  returned c (on_timeout w c0 timer).2 = [].
Proof.
  intros Hne. assert (Hne' : c0 <> c) by congruence.
  assert (Hret : forall res, returned c [Return c0 res] = []).
  { intros res. unfold returned. simpl. by rewrite decide_False. }
  unfold on_timeout. destruct timer; destruct (pending w !! c0) as [[| r | r | | id r]|];
    simpl; try done.
  - destruct (heap w !! r) as [task|]; [|done].
    destruct (state task); simpl; [by rewrite lookup_insert_ne|by rewrite lookup_delete_ne].
  - by rewrite pending_resume_other, returned_resume_other.
  - destruct (heap w !! r); simpl; [|done]. by rewrite lookup_delete_ne.
Qed.

Lemma returned_shutdown (w : World) (c : nat) : returned c (shutdown w) = [].
Proof.
  unfold shutdown. induction (tasks w) as [|e m IH]; [done|].
  simpl. rewrite returned_app, IH.
  by destruct (state <$> heap w !! e.2) as [[]|].
Qed.

(** What an event can do to a suspended call: pass it by, be one of its
    own timers or its write callback, or be the exit that resumes it. *)
Lemma step_call (w : World) (ev : Event) (c : nat) (p : Pending) :
  pending w !! c = Some p ->
  (c < nextCall w)%nat ->
  quiet w ev c \/
  (exists timer, ev = TimerFired c timer) \/
  (exists e, ev = WriteDone c e) \/
  (exists r0 code sig task0 wt r task,
     ev = ProcExit r0 code sig /\ heap w !! r0 = Some task0 /\
     wt ∈ waiters task0 /\ waiter_call wt = c /\ resumes p wt r0 = Some r /\
     heap (step w ev).1 !! r = Some task /\
     pending (step w ev).1 !! c = None /\
     returned c (step w ev).2 = [Ok (okJson (JSummary (summary task)))]).
Proof.
  intros Hp Hlt. unfold quiet.
  destruct ev as [req o|r0 stream chunk now|r0 code sig|r0 err now|c0 timer|c0 e|].
  - left. apply (handle_other (with_nextCall w (S (nextCall w))) (nextCall w) c req o). lia.
  - left. simpl. unfold emit_data. by destruct (heap w !! r0).
  - simpl. unfold emit_exit. destruct (heap w !! r0) as [task0|] eqn:Hr0; [|by left].
    destruct (exitEmitted (proc task0)); [by left|].
    unfold on_exit. simpl.
    match goal with |- context [invoke_all ?ws r0 ?w0] =>
      pose proof (proj1 (invoke_all_frame ws r0 w0)) as Hh;
      destruct (invoke_all_call ws r0 c w0)
        as [Hq|(wt & p' & r & task & Hin & Hwc & Hp' & Hres & Hr & Hn & Hret)]
    end.
    + by left.
    + right. right. right. simpl in Hp'. rewrite Hp in Hp'. injection Hp' as <-.
      exists r0, code, sig, task0, wt, r, task. repeat split; try done.
      by rewrite Hh.
  - left. simpl. unfold emit_error, emit_data. by destruct (heap w !! r0).
  - destruct (decide (c0 = c)) as [->|Hne]; [right; left; by eexists|].
    left. apply on_timeout_other. congruence.
  - destruct (decide (c0 = c)) as [->|Hne]; [right; right; left; by eexists|].
    left. simpl. unfold on_write_done.
    destruct (pending w !! c0) as [[]|]; try destruct e; simpl; try done.
    rewrite lookup_delete_ne by done. split; [done|].
    unfold returned. simpl. by rewrite decide_False.
  - left. simpl. split; [done|apply returned_shutdown].
Qed.

(** A call that is over, or has not started and is not the one that
    starts now, gets nothing. *)
Lemma step_over (w : World) (ev : Event) (c : nat) :
  pending w !! c = None ->
  new_call w ev <> Some c ->
  quiet w ev c.
Proof.
  intros Hp Hnew. unfold quiet.
  destruct ev as [req o|r0 stream chunk now|r0 code sig|r0 err now|c0 timer|c0 e|].
  - apply (handle_other (with_nextCall w (S (nextCall w))) (nextCall w) c req o).
    simpl in Hnew. congruence.
  - simpl. unfold emit_data. by destruct (heap w !! r0).
  - simpl. unfold emit_exit. destruct (heap w !! r0) as [task0|] eqn:Hr0; [|done].
    destruct (exitEmitted (proc task0)); [done|].
    unfold on_exit. simpl.
    match goal with |- context [invoke_all ?ws r0 ?w0] =>
      destruct (invoke_all_call ws r0 c w0)
        as [Hq|(wt & p' & r & task & Hin & Hwc & Hp' & _)]
    end; [done|]. simpl in Hp'. congruence.
  - simpl. unfold emit_error, emit_data. by destruct (heap w !! r0).
  - destruct (decide (c0 = c)) as [->|Hne]; [|apply on_timeout_other; congruence].
    simpl. unfold on_timeout. rewrite Hp. by destruct timer.
  - simpl. unfold on_write_done. destruct (decide (c0 = c)) as [->|Hne]; [by rewrite Hp|].
    destruct (pending w !! c0) as [[]|]; try destruct e; simpl; try done.
    rewrite lookup_delete_ne by done. split; [done|].
    unfold returned. simpl. by rewrite decide_False.
  - simpl. split; [done|apply returned_shutdown].
Qed.

Lemma over_run (evs : list Event) (w : World) (c : nat) :
  pending w !! c = None -> (c < nextCall w)%nat -> returned c (run w evs).2 = [].
Proof.
  revert w. induction evs as [|ev rest IH]; intros w Hp Hlt; simpl; [done|].
  destruct (step_over w ev c Hp) as [Hp' Hret].
  { destruct ev; simpl; try done. intros [= ?]. lia. }
  pose proof (nextCall_mono w ev) as Hmono.
  destruct (step w ev) as [w1 a1]. simpl in *.
  rewrite Hp in Hp'. specialize (IH w1 Hp' ltac:(lia)).
  destruct (run w1 rest) as [w2 a2]. simpl in *.
  by rewrite returned_app, Hret, IH.
Qed.

(** ** Stopping a task *)

Lemma stop_first_race_holds (c r : nat) : stop_first_race c r.
Proof.
  intros w task Hp Hr. split; [|split].
  - simpl. rewrite Hp. by apply resume_with_summary_spec.
  - intros Hrun. simpl. unfold on_timeout. rewrite Hp, Hr, Hrun.
    eexists. split; [done|]. simpl. split; [done|]. split.
    + apply lookup_insert_eq.
    + apply list_lookup_insert_eq. by eapply lookup_lt_Some.
  - intros Hex. simpl. unfold on_timeout. by rewrite Hp, Hr, Hex.
Qed.

Lemma stop_second_race_holds (c r : nat) : stop_second_race c r.
Proof.
  intros w task Hp Hr. split.
  - simpl. rewrite Hp. by apply resume_with_summary_spec.
  - simpl. unfold on_timeout. rewrite Hp. by apply resume_with_summary_spec.
Qed.

(** One turn of the event loop, for a call in a race of [task_stop]: it
    stays in a race and gets nothing, or it returns the summary of its
    task as it then is, and is over. *)
Lemma stop_call_step (w : World) (ev : Event) (c r : nat) :
  stop_pending w c r ->
  (c < nextCall w)%nat ->
  (stop_pending (step w ev).1 c r /\ returned c (step w ev).2 = []) \/
  (pending (step w ev).1 !! c = None /\
   exists task, heap (step w ev).1 !! r = Some task /\
     returned c (step w ev).2 = [Ok (okJson (JSummary (summary task)))]).
Proof.
  intros Hstop Hlt.
  assert (Hret : forall res, returned c [Return c res] = [res]).
  { intros res. unfold returned. simpl. by rewrite decide_True. }
  assert (exists p, pending w !! c = Some p /\
            (p = AwaitStopTerm r \/ p = AwaitStopKill r)) as (p & Hp & Hphase).
  { destruct Hstop as [Hp|Hp]; eexists; (split; [exact Hp|]); tauto. }
  destruct (step_call w ev c p Hp Hlt)
    as [[Hq Hnone]|[[timer ->]|[[e ->]|
         (r0 & code & sig & task0 & wt & r' & task & -> & Hr0 & Hin & Hwc & Hres & Hr & Hn & Hret')]]].
  - left. split; [|done]. unfold stop_pending. by rewrite Hq.
  - simpl. unfold on_timeout. rewrite Hp.
    destruct Hphase as [-> | ->], timer; simpl; try (left; by split).
    + destruct (heap w !! r) as [task|] eqn:Hr; [|left; by split].
      destruct (state task); simpl.
      * left. split; [|done]. right. apply lookup_insert_eq.
      * right. split; [apply lookup_delete_eq|]. exists task. by rewrite Hret.
    + unfold resume_with_summary.
      destruct (heap w !! r) as [task|] eqn:Hr; [|left; by split]. simpl.
      right. split; [apply lookup_delete_eq|]. exists task. by rewrite Hret.
  - simpl. unfold on_write_done. rewrite Hp.
    destruct Hphase as [-> | ->]; left; by split.
  - right. split; [done|]. exists task. split; [|done].
    destruct Hphase as [-> | ->], wt; simpl in Hres; by simplify_eq.
Qed.

Lemma stop_call_run (evs : list Event) (w : World) (c r : nat) :
  stop_pending w c r ->
  (c < nextCall w)%nat ->
  returned c (run w evs).2 = [] \/
  exists s, returned c (run w evs).2 = [Ok (okJson (JSummary s))].
Proof.
  revert w. induction evs as [|ev rest IH]; intros w Hstop Hlt; simpl; [by left|].
  pose proof (nextCall_mono w ev) as Hmono.
  destruct (stop_call_step w ev c r Hstop Hlt) as [[Hstop' Hret]|[Hover (task & _ & Hret)]].
  - destruct (step w ev) as [w1 a1]. simpl in *.
    specialize (IH w1 Hstop' ltac:(lia)).
    destruct (run w1 rest) as [w2 a2]. simpl in *.
    rewrite returned_app, Hret. exact IH.
  - destruct (step w ev) as [w1 a1]. simpl in *.
    pose proof (over_run rest w1 c Hover ltac:(lia)) as Hrest.
    destruct (run w1 rest) as [w2 a2]. simpl in *.
    right. exists (summary task). by rewrite returned_app, Hret, Hrest.
Qed.

Lemma sigkill_only_when_running_holds : sigkill_only_when_running.
Proof.
  intros w ev r Hin.
  destruct ev as [req o|r0 stream chunk now|r0 code sig|r0 err now|c0 timer|c0 e|]; simpl in Hin.
  - destruct req as [cmd ags dir en nm mx|rid| |rid off tl ts|rid data nl|rid sg|rid ms|rid ms|inc];
      simpl in Hin.
    + destruct (task_start _ _ _ _ _ _ _ _). unfold orphan_error in Hin.
      destruct (spawn o) as [|[]]; simpl in Hin; no_such_action Hin.
    + no_such_action Hin.
    + no_such_action Hin.
    + no_such_action Hin.
    + unfold task_write in Hin. destruct (getTask _ _) as [[r' task]|]; simpl in Hin;
        [|no_such_action Hin]. destruct (state task); simpl in Hin; no_such_action Hin.
    + unfold task_signal in Hin. destruct (getTask _ _) as [[r' task]|]; simpl in Hin;
        [|no_such_action Hin]. destruct (state task); simpl in Hin; [|no_such_action Hin].
      destruct (kill o); [no_such_action Hin|].
      apply elem_of_cons in Hin as [[= -> ->]|Hin]; [|no_such_action Hin].
      left. by eexists _, _.
    + unfold task_stop in Hin. destruct (getTask _ _) as [[r' task]|]; simpl in Hin;
        [|no_such_action Hin]. destruct (state task); simpl in Hin; no_such_action Hin.
    + unfold task_wait in Hin. destruct (getTask _ _) as [[r' task]|]; simpl in Hin;
        [|no_such_action Hin]. destruct (state task); simpl in Hin; [|no_such_action Hin].
      destruct ms; simpl in Hin; no_such_action Hin.
    + destruct (task_prune _ _). simpl in Hin. no_such_action Hin.
  - no_such_action Hin.
  - unfold emit_exit in Hin. destruct (heap w !! r0) as [task0|]; [|no_such_action Hin].
    destruct (exitEmitted (proc task0)); [no_such_action Hin|].
    unfold on_exit in Hin. simpl in Hin.
    by apply invoke_all_returns in Hin as (c & res & [=]).
  - no_such_action Hin.
  - unfold on_timeout in Hin.
    destruct timer; destruct (pending w !! c0) as [[| r' | r' | | id r']|] eqn:Hp;
      simpl in Hin; try no_such_action Hin.
    + destruct (heap w !! r') as [task|] eqn:Hr; [|no_such_action Hin].
      destruct (state task) eqn:Hst; simpl in Hin; [|no_such_action Hin].
      apply elem_of_cons in Hin as [[= ->]|Hin]; [|no_such_action Hin].
      right. by exists c0, task.
    + unfold resume_with_summary in Hin.
      destruct (heap w !! r'); simpl in Hin; no_such_action Hin.
    + destruct (heap w !! r'); simpl in Hin; no_such_action Hin.
  - unfold on_write_done in Hin.
    destruct (pending w !! c0) as [[]|]; try destruct e; simpl in Hin; no_such_action Hin.
  - unfold shutdown in Hin. apply list_elem_of_In, in_flat_map in Hin as (e & _ & Hin).
    destruct (state <$> heap w !! e.2) as [[]|]; simpl in Hin; try done.
    by destruct Hin as [[=]|[]].
Qed.

(** X24. [task_stop] on a registered task, after any history of the
    server, turn by turn; the delays are the arguments of [setTimeout].
    If the task has exited, the call returns its summary at once
    and sends nothing. If it is running, the call sends SIGTERM, sets a
    timer with [timeoutMs] (5000 when absent) and waits for the exit or
    the timer; SIGKILL is sent only when that timer fires with the task
    still running, and then the call waits for the exit or a timer of
    1000 ms. Whatever happens next, the call gets at most one result,
    which is a summary and never an error; each way out of a race returns
    the summary of the task as it then is. Neither the call nor a timer
    nor the exit of a process changes the registry. *)
Theorem stop_protocol (evs : list Event) (id : string) (timeoutMs : option Z)
    (o : Oracle) (r : nat) (task : Task) :
  let w := (run init evs).1 in
  let c := nextCall w in
  getTask w id = Ok (r, task) ->
  (state task = exited ->
     step w (Call (Req_stop id timeoutMs) o)
       = (with_nextCall w (S c), [Return c (Ok (okJson (JSummary (summary task))))])) /\
  (state task = running ->
     exists w',
       step w (Call (Req_stop id timeoutMs) o)
         = (w', [Kill r "SIGTERM"; SetTimeout c StopTermTimer (default 5000 timeoutMs)]) /\
       tasks w' = tasks w /\
       pending w' !! c = Some (AwaitStopTerm r) /\
       heap w' !! r = Some (with_waiters task (waiters task ++ [ResolveStopTerm c])) /\
       forall evs',
         returned c (run w' evs').2 = [] \/
         exists s, returned c (run w' evs').2 = [Ok (okJson (JSummary s))]) /\
  stop_first_race c r /\
  stop_second_race c r /\
  sigkill_only_when_running /\
  (forall (w0 : World) o0,
     tasks (step w0 (Call (Req_stop id timeoutMs) o0)).1 = tasks w0) /\
  (forall (w0 : World) c0 timer, tasks (step w0 (TimerFired c0 timer)).1 = tasks w0) /\
  (forall (w0 : World) r0 code sig, tasks (step w0 (ProcExit r0 code sig)).1 = tasks w0).
Proof.
  intros w c Hget. clearbody w. subst c.
  pose proof (getTask_Ok _ _ _ _ Hget) as [_ Hr].
  assert (Hget' : getTask (with_nextCall w (S (nextCall w))) id = Ok (r, task)) by done.
  split; [|split]; [| |split; [|split; [|split; [|split; [|split]]]]].
  - intros Hex. simpl. unfold task_stop. by rewrite Hget', Hex.
  - intros Hrun. simpl. unfold task_stop. rewrite Hget', Hrun.
    eexists. split; [done|]. simpl. split; [done|].
    assert (Hp : <[nextCall w := AwaitStopTerm r]> (pending w) !! nextCall w
              = Some (AwaitStopTerm r)) by apply lookup_insert_eq.
    split; [exact Hp|]. split.
    + apply list_lookup_insert_eq. by eapply lookup_lt_Some.
    + intros evs'. apply (stop_call_run evs' _ (nextCall w) r); [by left|simpl; lia].
  - apply stop_first_race_holds.
  - apply stop_second_race_holds.
  - apply sigkill_only_when_running_holds.
  - intros w0 o0. apply (step_tasks w0 (Call (Req_stop id timeoutMs) o0)).
  - intros w0 c0 timer. apply (step_tasks w0 (TimerFired c0 timer)).
  - intros w0 r0 code sig. apply (step_tasks w0 (ProcExit r0 code sig)).
Qed.

Lemma stop_protocol_witness :
  getTask (run init demo_events).1 "7c9e6679" = Ok (0%nat, demo_task) /\
  (state demo_task = exited ->
     step (run init demo_events).1 (Call (Req_stop "7c9e6679" (Some 100)) demo_oracle)
       = (with_nextCall (run init demo_events).1 (S (nextCall (run init demo_events).1)),
          [Return (nextCall (run init demo_events).1)
             (Ok (okJson (JSummary (summary demo_task))))])) /\
  (state demo_task = running ->
     exists w',
       step (run init demo_events).1 (Call (Req_stop "7c9e6679" (Some 100)) demo_oracle)
         = (w', [Kill 0%nat "SIGTERM";
                 SetTimeout (nextCall (run init demo_events).1) StopTermTimer
                   (default 5000 (Some 100))]) /\
       tasks w' = tasks (run init demo_events).1 /\
       pending w' !! nextCall (run init demo_events).1 = Some (AwaitStopTerm 0%nat) /\
       heap w' !! 0%nat
         = Some (with_waiters demo_task
                   (waiters demo_task
                      ++ [ResolveStopTerm (nextCall (run init demo_events).1)])) /\
       forall evs',
         returned (nextCall (run init demo_events).1) (run w' evs').2 = [] \/
         exists s,
           returned (nextCall (run init demo_events).1) (run w' evs').2
             = [Ok (okJson (JSummary s))]) /\
  stop_first_race (nextCall (run init demo_events).1) 0%nat /\
  stop_second_race (nextCall (run init demo_events).1) 0%nat /\
  sigkill_only_when_running /\
  (forall (w0 : World) o0,
     tasks (step w0 (Call (Req_stop "7c9e6679" (Some 100)) o0)).1 = tasks w0) /\
  (forall (w0 : World) c0 timer, tasks (step w0 (TimerFired c0 timer)).1 = tasks w0) /\
  (forall (w0 : World) r0 code sig, tasks (step w0 (ProcExit r0 code sig)).1 = tasks w0).
Proof.
  split; [reflexivity|].
  apply (stop_protocol demo_events "7c9e6679" (Some 100) demo_oracle 0%nat demo_task).
  reflexivity.
Defined.

(** ** Waiting for a task *)

Lemma wait_times_out_holds (c : nat) (id : string) (r : nat) : wait_times_out c id r.
Proof. intros w task Hp Hr. simpl. unfold on_timeout. by rewrite Hp, Hr. Qed.

Lemma done_started_always (evs : list Event) : done_started (run init evs).1.
Proof.
  apply (run_invariant done_started).
  - intros w ev IH r0 task' c Hr' Hin.
    pose proof (nextCall_mono w ev) as Hmono.
    pose proof (step_heap w ev r0) as Hstep.
    destruct (heap w !! r0) as [task|] eqn:Hr0.
    + destruct Hstep as (task'' & Hr'' & Hts). rewrite Hr' in Hr''. injection Hr'' as <-.
      destruct Hts as [tk|tk st nw ch|tk wt Hwt Hrun|tk cd sg Hopen].
      * specialize (IH r0 tk c Hr0 Hin). lia.
      * rewrite (proj1 (proj2 (proj2 (proj2 (proj2 (proj2 (proj2
                   (pushLog_fields tk st nw ch)))))))) in Hin.
        specialize (IH r0 tk c Hr0 Hin). lia.
      * simpl in Hin. apply elem_of_app in Hin as [Hin|Hin].
        -- specialize (IH r0 tk c Hr0 Hin). lia.
        -- apply list_elem_of_singleton in Hin as <-.
           destruct Hwt as [Hnew|[c' [=]]]. simpl in Hnew.
           pose proof (nextCall_step w ev) as Hn.
           destruct ev; simpl in Hnew; try done. injection Hnew as Hc.
           simpl in Hn |- *. lia.
      * simpl in Hin. by apply not_elem_of_nil in Hin.
    + destruct Hstep as [Hnone|(task'' & Hr'' & Hfresh)]; [congruence|].
      rewrite Hr' in Hr''. injection Hr'' as <-.
      destruct Hfresh as (_ & _ & _ & _ & _ & Hw & _). rewrite Hw in Hin.
      by apply not_elem_of_nil in Hin.
  - intros r0 task0 c Hr0. simpl in Hr0. by rewrite lookup_nil in Hr0.
Qed.

(** One turn of the event loop, for a [task_wait] that races against its
    timer, when the event is neither the exit of its task nor its timer:
    the call keeps waiting and gets nothing. *)
Lemma wait_call_step (w : World) (ev : Event) (c : nat) (id : string) (r : nat) :
  pending w !! c = Some (AwaitDoneOrTimeout id r) ->
  (c < nextCall w)%nat ->
  done_only_on w c r ->
  keeps_waiting c r ev ->
  pending (step w ev).1 !! c = Some (AwaitDoneOrTimeout id r) /\
  returned c (step w ev).2 = [] /\
  done_only_on (step w ev).1 c r.
Proof.
  intros Hp Hlt Honly [Htimer Hexit].
  assert (Hquiet : quiet w ev c).
  { destruct (step_call w ev c _ Hp Hlt)
      as [Hq|[[timer ->]|[[e ->]|
           (r0 & code & sig & task0 & wt & r' & task & -> & Hr0 & Hin & Hwc & Hres & _)]]].
    - done.
    - unfold quiet. simpl. unfold on_timeout. rewrite Hp. by destruct timer.
    - unfold quiet. simpl. unfold on_write_done. by rewrite Hp.
    - destruct wt as [c'|c'|c']; simpl in Hres, Hwc; try done. subst c'.
      rewrite (Honly r0 task0 Hr0 Hin) in Hexit. by destruct (Hexit code sig). }
  destruct Hquiet as [Hq Hret]. rewrite Hq. split; [done|]. split; [done|].
  intros r0 task' Hr' Hin.
  pose proof (step_heap w ev r0) as Hstep.
  destruct (heap w !! r0) as [task|] eqn:Hr0.
  - destruct Hstep as (task'' & Hr'' & Hts). rewrite Hr' in Hr''. injection Hr'' as <-.
    destruct Hts as [tk|tk st nw ch|tk wt Hwt Hrun|tk cd sg Hopen].
    + by apply (Honly r0 tk).
    + rewrite (proj1 (proj2 (proj2 (proj2 (proj2 (proj2 (proj2
                 (pushLog_fields tk st nw ch)))))))) in Hin.
      by apply (Honly r0 tk).
    + simpl in Hin. apply elem_of_app in Hin as [Hin|Hin]; [by apply (Honly r0 tk)|].
      apply list_elem_of_singleton in Hin as <-.
      destruct Hwt as [Hnew|[c' [=]]]. simpl in Hnew.
      destruct ev; simpl in Hnew; try done. injection Hnew as Hc. lia.
    + simpl in Hin. by apply not_elem_of_nil in Hin.
  - destruct Hstep as [Hnone|(task'' & Hr'' & Hfresh)]; [congruence|].
    rewrite Hr' in Hr''. injection Hr'' as <-.
    destruct Hfresh as (_ & _ & _ & _ & _ & Hw & _). rewrite Hw in Hin.
    by apply not_elem_of_nil in Hin.
Qed.

Lemma wait_call_run (evs : list Event) (w : World) (c : nat) (id : string) (r : nat) :
  pending w !! c = Some (AwaitDoneOrTimeout id r) ->
  (c < nextCall w)%nat ->
  done_only_on w c r ->
  Forall (keeps_waiting c r) evs ->
  pending (run w evs).1 !! c = Some (AwaitDoneOrTimeout id r) /\
  returned c (run w evs).2 = [].
Proof.
  revert w. induction evs as [|ev rest IH]; intros w Hp Hlt Honly Hall; simpl; [done|].
  apply Forall_cons in Hall as [Hev Hall].
  destruct (wait_call_step w ev c id r Hp Hlt Honly Hev) as (Hp' & Hret & Honly').
  pose proof (nextCall_mono w ev) as Hmono.
  destruct (step w ev) as [w1 a1]. simpl in *.
  destruct (IH w1 Hp' ltac:(lia) Honly' Hall) as [Hp'' Hret'].
  destruct (run w1 rest) as [w2 a2]. simpl in *.
  split; [done|]. by rewrite returned_app, Hret, Hret'.
Qed.

(** C6. [task_wait] on a registered task, after any history of the
    server. If the task has exited, the call returns its summary at once
    and no task object changes, so no waiter is queued. If the task is
    running and [timeoutMs] is given, the call queues its waiter and sets
    the timer; as long as the task does not exit the call gets nothing,
    and when the timer then fires the call returns [timeout: true] with
    the id of the task, which is the id it was given, and the state and
    the pid of the task at that moment, not a summary. *)
Theorem wait_protocol (evs : list Event) (id : string) (timeoutMs : option Z)
    (o : Oracle) (r : nat) (task : Task) :
  let w := (run init evs).1 in
  let c := nextCall w in
  getTask w id = Ok (r, task) ->
  (state task = exited ->
     step w (Call (Req_wait id timeoutMs) o)
       = (with_nextCall w (S c), [Return c (Ok (okJson (JSummary (summary task))))])) /\
  (state task = running ->
     forall ms, timeoutMs = Some ms ->
       exists w',
         step w (Call (Req_wait id timeoutMs) o) = (w', [SetTimeout c WaitTimer ms]) /\
         heap w' !! r = Some (with_waiters task (waiters task ++ [ResolveDone c])) /\
         forall evs',
           Forall (keeps_waiting c r) evs' ->
           returned c (run w' evs').2 = [] /\
           exists task',
             heap (run w' evs').1 !! r = Some task' /\
             task_id task' = id /\
             step (run w' evs').1 (TimerFired c WaitTimer)
               = (finish (run w' evs').1 c,
                  [Return c (Ok (okJson (JTimeout id (state task') (pid task'))))])) /\
  wait_times_out c id r.
Proof.
  intros w c Hget. pose proof (done_started_always evs) as Hstarted. fold w in Hstarted.
  pose proof (proj2 (registry_ok_always evs)) as Hreg. fold w in Hreg.
  clearbody w. subst c.
  pose proof (getTask_Ok _ _ _ _ Hget) as [Hkey Hr].
  assert (Hid : task_id task = id).
  { destruct (Hreg id r Hkey) as (task0 & Hr0 & Hid0). congruence. }
  assert (Hget' : getTask (with_nextCall w (S (nextCall w))) id = Ok (r, task)) by done.
  split; [|split].
  - intros Hex. simpl. unfold task_wait. by rewrite Hget', Hex.
  - intros Hrun ms ->. simpl. unfold task_wait. rewrite Hget', Hrun.
    eexists. split; [done|].
    set (w' := suspend _ (nextCall w) _).
    assert (Hr' : heap w' !! r
              = Some (with_waiters task (waiters task ++ [ResolveDone (nextCall w)]))).
    { simpl. apply list_lookup_insert_eq. by eapply lookup_lt_Some. }
    split; [exact Hr'|]. intros evs' Hall.
    assert (Hp : pending w' !! nextCall w = Some (AwaitDoneOrTimeout id r))
      by apply lookup_insert_eq.
    assert (Honly : done_only_on w' (nextCall w) r).
    { intros r0 task0 Hr0 Hin. destruct (decide (r0 = r)) as [|Hne]; [done|].
      simpl in Hr0. rewrite list_lookup_insert_ne in Hr0 by done.
      pose proof (Hstarted r0 task0 (nextCall w) Hr0 Hin) as Hlt. lia. }
    destruct (wait_call_run evs' w' (nextCall w) id r Hp ltac:(simpl; lia) Honly Hall)
      as [Hp' Hret].
    split; [exact Hret|].
    destruct (identity_forever evs' w' r _ Hr') as (task' & Hr'' & Hid' & _).
    exists task'. split; [exact Hr''|]. split; [exact (eq_trans Hid' Hid)|].
    exact (wait_times_out_holds (nextCall w) id r _ task' Hp' Hr'').
  - apply wait_times_out_holds.
Qed.

Lemma wait_protocol_witness :
  getTask (run init demo_events).1 "7c9e6679" = Ok (0%nat, demo_task) /\
  (state demo_task = exited ->
     step (run init demo_events).1 (Call (Req_wait "7c9e6679" (Some 250)) demo_oracle)
       = (with_nextCall (run init demo_events).1 (S (nextCall (run init demo_events).1)),
          [Return (nextCall (run init demo_events).1)
             (Ok (okJson (JSummary (summary demo_task))))])) /\
  (state demo_task = running ->
     forall ms, Some 250 = Some ms ->
       exists w',
         step (run init demo_events).1 (Call (Req_wait "7c9e6679" (Some 250)) demo_oracle)
           = (w', [SetTimeout (nextCall (run init demo_events).1) WaitTimer ms]) /\
         heap w' !! 0%nat
           = Some (with_waiters demo_task
                     (waiters demo_task ++ [ResolveDone (nextCall (run init demo_events).1)])) /\
         forall evs',
           Forall (keeps_waiting (nextCall (run init demo_events).1) 0%nat) evs' ->
           returned (nextCall (run init demo_events).1) (run w' evs').2 = [] /\
           exists task',
             heap (run w' evs').1 !! 0%nat = Some task' /\
             task_id task' = "7c9e6679"%string /\
             step (run w' evs').1 (TimerFired (nextCall (run init demo_events).1) WaitTimer)
               = (finish (run w' evs').1 (nextCall (run init demo_events).1),
                  [Return (nextCall (run init demo_events).1)
                     (Ok (okJson (JTimeout "7c9e6679" (state task') (pid task'))))])) /\
  wait_times_out (nextCall (run init demo_events).1) "7c9e6679" 0%nat.
Proof.
  split; [reflexivity|].
  apply (wait_protocol demo_events "7c9e6679" (Some 250) demo_oracle 0%nat demo_task).
  reflexivity.
Defined.

(** ** Reading the logs *)

Lemma select_logs_spec (items : list LogItem) (offset tail : option Z) :
  (forall n, tail = Some n -> 0 <= n) ->
  (forall k, offset = Some k -> 0 <= k) ->
  select_logs items offset tail = spec_select items offset tail.
Proof.
  intros Htail Hoff. unfold select_logs, spec_select, slice, last_items.
  destruct tail as [n|].
  - specialize (Htail n eq_refl).
    destruct (Z.max 0 (Z.of_nat (length items) - n) <? 0) eqn:Hneg; [lia|].
    f_equal. lia.
  - destruct offset as [k|]; [|done].
    specialize (Hoff k eq_refl).
    destruct (k <? 0) eqn:Hneg; [lia|].
    destruct (decide (k <= Z.of_nat (length items))) as [Hle|Hgt].
    + f_equal. lia.
    + rewrite !drop_ge; [done|lia|lia].
Qed.

(** C5. For non-negative [tail] and [offset], [task_logs] selects what the
    rule says: the last [tail] items, at most all of them, whatever
    [offset] is; else the items from index [offset] to the end; else all
    items. What it returns is those items and no others: the text is
    the rendering of the selected items in the formatting mode asked
    for, and the result carries the number of retained items and the
    number of selected ones, with the id that was given and the state,
    pid, exit code and signal of the task. *)
Theorem logs_selection (w : World) (id : string) (offset tail : option Z)
    (includeTimestamps : option bool) (r : nat) (task : Task) :
  getTask w id = Ok (r, task) ->
  (forall n, tail = Some n -> 0 <= n) ->
  (forall k, offset = Some k -> 0 <= k) ->
  select_logs (logs task) offset tail = spec_select (logs task) offset tail /\
  (forall n, tail = Some n ->
     Z.of_nat (length (select_logs (logs task) offset tail))
       = Z.min n (Z.of_nat (length (logs task)))) /\
  task_logs w id offset tail includeTimestamps
    = Ok (okJson (JLogs
        {| Logs.id := id; Logs.state := state task; Logs.pid := pid task;
           Logs.exitCode := exitCode task; Logs.signal := signal task;
           Logs.logItemCount := Z.of_nat (length (logs task));
           Logs.returnedCount := Z.of_nat (length (spec_select (logs task) offset tail));
           Logs.text := render includeTimestamps (spec_select (logs task) offset tail) |})) /\
  exists res,
    task_logs w id offset tail includeTimestamps = Ok (okJson (JLogs res)) /\
    Logs.logItemCount res = Z.of_nat (length (logs task)) /\
    Logs.returnedCount res = Z.of_nat (length (spec_select (logs task) offset tail)).
Proof.
  intros Hget Htail Hoff.
  pose proof (select_logs_spec (logs task) offset tail Htail Hoff) as Hsel.
  assert (Hres : task_logs w id offset tail includeTimestamps
            = Ok (okJson (JLogs
                {| Logs.id := id; Logs.state := state task; Logs.pid := pid task;
                   Logs.exitCode := exitCode task; Logs.signal := signal task;
                   Logs.logItemCount := Z.of_nat (length (logs task));
                   Logs.returnedCount
                     := Z.of_nat (length (spec_select (logs task) offset tail));
                   Logs.text
                     := render includeTimestamps (spec_select (logs task) offset tail) |}))).
  { unfold task_logs. rewrite Hget, Hsel. unfold render.
    by destruct (default true includeTimestamps). }
  split; [exact Hsel|]. split; [|split; [exact Hres|]].
  - intros n ->. rewrite Hsel. specialize (Htail n eq_refl).
    unfold spec_select, last_items. rewrite length_drop. lia.
  - eexists. split; [exact Hres|]. by split.
Qed.

Lemma logs_selection_witness :
  getTask lines_world "7c9e6679" = Ok (0%nat, lines_task) /\
  (forall n, Some 2 = Some n -> 0 <= n) /\
  (forall k, Some 1 = Some k -> 0 <= k) /\
  select_logs (logs lines_task) (Some 1) (Some 2)
    = spec_select (logs lines_task) (Some 1) (Some 2) /\
  (forall n, Some 2 = Some n ->
     Z.of_nat (length (select_logs (logs lines_task) (Some 1) (Some 2)))
       = Z.min n (Z.of_nat (length (logs lines_task)))) /\
  task_logs lines_world "7c9e6679" (Some 1) (Some 2) (Some false)
    = Ok (okJson (JLogs
        {| Logs.id := "7c9e6679"; Logs.state := state lines_task;
           Logs.pid := pid lines_task;
           Logs.exitCode := exitCode lines_task; Logs.signal := signal lines_task;
           Logs.logItemCount := Z.of_nat (length (logs lines_task));
           Logs.returnedCount
             := Z.of_nat (length (spec_select (logs lines_task) (Some 1) (Some 2)));
           Logs.text
             := render (Some false) (spec_select (logs lines_task) (Some 1) (Some 2)) |})) /\
  exists res,
    task_logs lines_world "7c9e6679" (Some 1) (Some 2) (Some false)
      = Ok (okJson (JLogs res)) /\
    Logs.logItemCount res = Z.of_nat (length (logs lines_task)) /\
    Logs.returnedCount res
      = Z.of_nat (length (spec_select (logs lines_task) (Some 1) (Some 2))).
Proof.
  assert (H2 : forall n : Z, Some 2 = Some n -> 0 <= n) by (intros n [= <-]; lia).
  assert (H1 : forall k : Z, Some 1 = Some k -> 0 <= k) by (intros k [= <-]; lia).
  split; [reflexivity|]. split; [exact H2|]. split; [exact H1|].
  exact (logs_selection lines_world "7c9e6679" (Some 1) (Some 2) (Some false) 0%nat
           lines_task eq_refl H2 H1).
Defined.

(** The three modes on the five items of the scenario: [tail] 2 gives
    the last two also when [offset] is given, [offset] 3 alone the items
    3 and 4 as well, neither all five; the text is that of the selected
    items only, with the time of each unless it is turned off. *)
Example logs_modes :
  task_logs lines_world "7c9e6679" (Some 1) (Some 2) None
    = Ok (okJson (JLogs
        {| Logs.id := "7c9e6679"; Logs.state := running; Logs.pid := 4242;
           Logs.exitCode := None; Logs.signal := None;
           Logs.logItemCount := 5; Logs.returnedCount := 2;
           Logs.text :=
             "2023-11-14T22:13:20.004Z [stdout] four2023-11-14T22:13:20.005Z [stderr] five" |})) /\
  task_logs lines_world "7c9e6679" (Some 3) None (Some false)
    = Ok (okJson (JLogs
        {| Logs.id := "7c9e6679"; Logs.state := running; Logs.pid := 4242;
           Logs.exitCode := None; Logs.signal := None;
           Logs.logItemCount := 5; Logs.returnedCount := 2;
           Logs.text := "[stdout] four[stderr] five" |})) /\
  task_logs lines_world "7c9e6679" (Some 4) None (Some false)
    = Ok (okJson (JLogs
        {| Logs.id := "7c9e6679"; Logs.state := running; Logs.pid := 4242;
           Logs.exitCode := None; Logs.signal := None;
           Logs.logItemCount := 5; Logs.returnedCount := 1;
           Logs.text := "[stderr] five" |})) /\
  task_logs lines_world "7c9e6679" None None (Some false)
    = Ok (okJson (JLogs
        {| Logs.id := "7c9e6679"; Logs.state := running; Logs.pid := 4242;
           Logs.exitCode := None; Logs.signal := None;
           Logs.logItemCount := 5; Logs.returnedCount := 5;
           Logs.text := "[stdout] one[stderr] two[stdout] three[stdout] four[stderr] five" |})).
Proof. repeat split; vm_compute; reflexivity. Qed.

(** ** Failures *)




Lemma getTask_missing (w : World) (id : string) :
  Map_get id (tasks w) = None -> getTask w id = Throw (not_found id).
Proof. unfold getTask. by intros ->. Qed.

(** C8. Under an id that is not in the registry, [task_status] and every
    other tool that takes an id fail with the not-found error and do
    nothing else. [task_write] on a registered task that has exited
    fails with the not-running error, and nothing is written to stdin. *)
Theorem unknown_id_and_exited_write (w : World) (c : nat) (id : string) :
  (Map_get id (tasks w) = None ->
   task_status w id = Throw (not_found id) /\
   (forall offset tail ts, task_logs w id offset tail ts = Throw (not_found id)) /\
   (forall data nl, task_write w c id data nl = (w, [Return c (Throw (not_found id))])) /\
   (forall o sig, task_signal w o c id sig = [Return c (Throw (not_found id))]) /\
   (forall ms, task_stop w c id ms = (w, [Return c (Throw (not_found id))])) /\
   (forall ms, task_wait w c id ms = (w, [Return c (Throw (not_found id))]))) /\
  (forall r task data nl,
     getTask w id = Ok (r, task) ->
     state task = exited ->
     task_write w c id data nl = (w, [Return c (Throw "Task is not running"%string)])).
Proof.
  split.
  - intros Hmiss. apply getTask_missing in Hmiss.
    unfold task_status, task_logs, task_write, task_signal, task_stop, task_wait.
    rewrite Hmiss. repeat split.
  - intros r task data nl Hget Hex. unfold task_write. by rewrite Hget, Hex.
Qed.

Lemma unknown_id_and_exited_write_witness :
  (Map_get "nobody" (tasks demo_world) = None /\
   task_status demo_world "nobody" = Throw (not_found "nobody")) /\
  (getTask demo_exited_world "7c9e6679" = Ok (0%nat, demo_exited_task) /\
   state demo_exited_task = exited /\
   task_write demo_exited_world 9 "7c9e6679" "ls" (Some true)
     = (demo_exited_world, [Return 9%nat (Throw "Task is not running"%string)])).
Proof.
  split.
  - split; [reflexivity|].
    apply (proj1 (unknown_id_and_exited_write demo_world 0%nat "nobody")). reflexivity.
  - split; [reflexivity|]. split; [reflexivity|].
    apply (proj2 (unknown_id_and_exited_write demo_exited_world 9%nat "7c9e6679")
             0%nat demo_exited_task "ls"%string (Some true)); reflexivity.
Defined.

(** C9. [task_signal] on a registered task: if the task is not running the
    call returns the text ["not running"], which is not an error, and
    sends nothing. If it is running and the string names a signal, the
    call sends that signal to the process and returns what [kill]
    returned, with the id, the pid and the name of the signal. If it is
    running and the string names no signal, [kill] throws: the call fails
    with that error and nothing is sent. *)
Theorem signal_result (w : World) (o : Oracle) (c : nat) (id sig : string)
    (r : nat) (task : Task) :
  getTask w id = Ok (r, task) ->
  (state task <> running ->
     task_signal w o c id sig = [Return c (Ok (okText "not running"))]) /\
  (state task = running ->
     forall ok,
       kill o = Delivered ok ->
       task_signal w o c id sig
         = [Kill r sig; Return c (Ok (okJson (JSignal ok id (pid task) sig)))]) /\
  (state task = running ->
     kill o = UnknownSignal ->
     task_signal w o c id sig = [Return c (Throw (unknown_signal sig))]).
Proof.
  intros Hget. unfold task_signal. rewrite Hget.
  split; [|split]; intros Hst; destruct (state task); try done.
  - by intros ok ->.
  - by intros ->.
Qed.

Lemma signal_result_witness :
  getTask demo_world "7c9e6679" = Ok (0%nat, demo_task) /\
  (state demo_task <> running ->
     task_signal demo_world demo_oracle 4 "7c9e6679" "SIGINT"
       = [Return 4%nat (Ok (okText "not running"))]) /\
  (state demo_task = running ->
     forall ok,
       kill demo_oracle = Delivered ok ->
       task_signal demo_world demo_oracle 4 "7c9e6679" "SIGINT"
         = [Kill 0%nat "SIGINT";
            Return 4%nat (Ok (okJson (JSignal ok "7c9e6679" (pid demo_task) "SIGINT")))]) /\
  (state demo_task = running ->
     kill demo_oracle = UnknownSignal ->
     task_signal demo_world demo_oracle 4 "7c9e6679" "SIGINT"
       = [Return 4%nat (Throw (unknown_signal "SIGINT"))]).
Proof.
  split; [reflexivity|].
  apply (signal_result demo_world demo_oracle 4%nat "7c9e6679" "SIGINT" 0%nat demo_task).
  reflexivity.
Defined.

(** Not every string is forwarded: on the running task of the scenario,
    a [task_signal] with a string that names no signal sends nothing and
    returns no [{ok, id, pid, signal}], but fails. *)
Lemma signal_unknown_name_fails :
  getTask demo_world "7c9e6679" = Ok (0%nat, demo_task) /\
  state demo_task = running /\
  task_signal demo_world
      {| randomUUID := "0b5e"; spawn := Spawned None; Date_now := 5; kill := UnknownSignal |}
      4 "7c9e6679" "SIGBOGUS"
    = [Return 4%nat (Throw "Unknown signal: SIGBOGUS"%string)] /\
  (forall ok,
     task_signal demo_world
         {| randomUUID := "0b5e"; spawn := Spawned None; Date_now := 5;
            kill := UnknownSignal |}
         4 "7c9e6679" "SIGBOGUS"
       <> [Kill 0%nat "SIGBOGUS";
           Return 4%nat (Ok (okJson (JSignal ok "7c9e6679" (pid demo_task) "SIGBOGUS")))]).
Proof. repeat split; try reflexivity. intros ok. vm_compute. discriminate. Qed.

(** ** Pruning *)

(** C10. Whatever the registry holds, [task_prune] returns counts that add
    up to the number of tasks registered before the call, [remaining]
    being the size of the registry after it; it changes no task object
    and its only action is to return, so it sends no signal. Unless
    [includeRunning] is true, the registry afterwards is the one before
    without the exited tasks, [removed] counts those, and a task that is
    running is still registered under its id. *)
Theorem prune_counts (evs : list Event) (includeRunning : option bool) (o : Oracle) :
  let w := (run init evs).1 in
  exists removed remaining w',
    task_prune w includeRunning = (w', Ok (okJson (JPrune removed remaining))) /\
    removed + remaining = Map_size (tasks w) /\
    remaining = Map_size (tasks w') /\
    heap w' = heap w /\
    (step w (Call (Req_prune includeRunning) o)).2
      = [Return (nextCall w) (Ok (okJson (JPrune removed remaining)))] /\
    (default false includeRunning = false ->
       tasks w' = filter (fun e => state_at w e.2 <> Some exited) (tasks w) /\
       removed
         = Z.of_nat (length (filter (fun e => state_at w e.2 = Some exited) (tasks w))) /\
       forall id r,
         Map_get id (tasks w) = Some r ->
         Map_get id (tasks w')
           = if decide (state_at w r = Some exited) then None else Some r).
Proof.
  intros w. pose proof (proj1 (registry_ok_always evs)) as Hnd. fold w in Hnd.
  pose proof (task_prune_spec w includeRunning Hnd) as Hspec.
  eexists _, _, _. split; [exact Hspec|].
  split; [apply prune_split|]. split; [done|]. split; [done|]. split.
  - simpl. change (run init evs).1 with w.
    assert (Hsame : task_prune (with_nextCall w (S (nextCall w))) includeRunning
              = (with_tasks (with_nextCall w (S (nextCall w)))
                   (prune_kept w includeRunning (tasks w)),
                 Ok (okJson (JPrune (prune_count w includeRunning (tasks w))
                       (Map_size (prune_kept w includeRunning (tasks w))))))).
    { by rewrite task_prune_spec. }
    by rewrite Hsame.
  - intros Hinc. simpl.
    assert (Hkept : prune_kept w includeRunning (tasks w)
              = filter (fun e => state_at w e.2 <> Some exited) (tasks w)).
    { apply list_filter_iff. intros e.
      rewrite <- (prune_test_exited w includeRunning e.2 Hinc).
      destruct (prune_test w includeRunning e.2); naive_solver. }
    split; [exact Hkept|]. split.
    + unfold prune_count. do 2 f_equal. apply list_filter_iff. intros e.
      by apply prune_test_exited.
    + intros id r Hreg. rewrite Hkept, Map_get_filter by done. rewrite Hreg. simpl.
      destruct (decide (state_at w r = Some exited)) as [Hex|Hrun].
      * rewrite decide_False; [done|]. by intros Hne.
      * by rewrite decide_True.
Qed.

Lemma prune_counts_witness :
  let w := (run init demo_events).1 in
  exists removed remaining w',
    task_prune w None = (w', Ok (okJson (JPrune removed remaining))) /\
    removed + remaining = Map_size (tasks w) /\
    remaining = Map_size (tasks w') /\
    heap w' = heap w /\
    (step w (Call (Req_prune None) demo_oracle)).2
      = [Return (nextCall w) (Ok (okJson (JPrune removed remaining)))] /\
    (default false None = false ->
       tasks w' = filter (fun e => state_at w e.2 <> Some exited) (tasks w) /\
       removed
         = Z.of_nat (length (filter (fun e => state_at w e.2 = Some exited) (tasks w))) /\
       forall id r,
         Map_get id (tasks w) = Some r ->
         Map_get id (tasks w')
           = if decide (state_at w r = Some exited) then None else Some r).
Proof. exact (prune_counts demo_events None demo_oracle). Defined.

(** * Further properties of the code *)

(** ** Task objects over time *)

Lemma pushLog_launch (task : Task) (stream : Stream) (now : Z) (chunk : Buffer) :
  same_launch task (pushLog task stream now chunk).
Proof. unfold same_launch, pushLog. simpl. destruct (evict _ _ _). by repeat split. Qed.

Lemma task_step_launch (n : option nat) (task task' : Task) :
  task_step n task task' -> same_launch task task'.
Proof.
  intros [tk|tk st nw ch|tk wt Hwt Hrun|tk cd sg Hopen]; try by repeat split.
  apply pushLog_launch.
Qed.

Lemma same_launch_trans (t1 t2 t3 : Task) :
  same_launch t1 t2 -> same_launch t2 t3 -> same_launch t1 t3.
Proof.
  unfold same_launch. intros (?&?&?&?&?&?&?&?&?) (?&?&?&?&?&?&?&?&?).
  repeat split; congruence.
Qed.

(** X1. No event changes the launch parameters of a task object: its id,
    name, command, arguments, working directory, environment, creation
    time, pid and log budget stay what [task_start] made them. *)
Theorem launch_parameters_never_change (evs : list Event) (w : World) (r : nat)
    (task : Task) :
  heap w !! r = Some task ->
  exists later, heap (run w evs).1 !! r = Some later /\ same_launch task later.
Proof.
  intros Hr.
  assert (Hnow : exists later, heap w !! r = Some later /\ same_launch task later).
  { exists task. split; [done|]. by repeat split. }
  clear Hr. revert w Hnow.
  apply (run_invariant (fun w => exists later,
           heap w !! r = Some later /\ same_launch task later)).
  intros w ev (later & Hr & Hsame).
  pose proof (step_heap w ev r) as Hstep. rewrite Hr in Hstep.
  destruct Hstep as (later' & Hr' & Hts). exists later'. split; [done|].
  eapply same_launch_trans; [done|]. by eapply task_step_launch.
Qed.

Lemma launch_parameters_never_change_witness :
  heap demo_world !! 0%nat = Some demo_task /\
  exists later,
    heap (run demo_world [ProcExit 0%nat (Some 0) None; Call (Req_prune None) demo_oracle]).1
      !! 0%nat = Some later /\
    same_launch demo_task later.
Proof.
  split; [reflexivity|].
  apply (launch_parameters_never_change
           [ProcExit 0%nat (Some 0) None; Call (Req_prune None) demo_oracle]
           demo_world 0%nat demo_task).
  reflexivity.
Defined.

Lemma task_step_lifecycle (n : option nat) (task task' : Task) :
  task_step n task task' -> lifecycle_ok task -> lifecycle_ok task'.
Proof.
  intros [tk|tk st nw ch|tk wt Hwt Hrun|tk cd sg Hopen] Hok; try done.
  - destruct (pushLog_fields tk st nw ch) as (_ & _ & _ & Hst & Hcode & Hsig & Hw & Hp).
    unfold lifecycle_ok in *. by rewrite Hst, Hcode, Hsig, Hw, Hp.
  - unfold lifecycle_ok in *. simpl. by rewrite Hrun in Hok |- *.
Qed.

Lemma lifecycle_step (w : World) (ev : Event) :
  (forall r task, heap w !! r = Some task -> lifecycle_ok task) ->
  forall r task, heap (step w ev).1 !! r = Some task -> lifecycle_ok task.
Proof.
  intros IH r task' Hr'.
  pose proof (step_heap w ev r) as Hstep.
  destruct (heap w !! r) as [task|] eqn:Hr.
  - destruct Hstep as (task'' & Hr'' & Hts). rewrite Hr' in Hr''. injection Hr'' as <-.
    eapply task_step_lifecycle; [done | by eapply IH].
  - destruct Hstep as [Hnone|(task'' & Hr'' & Hfresh)]; [congruence|].
    rewrite Hr' in Hr''. injection Hr'' as <-.
    destruct Hfresh as (Hst & Hcode & Hsig & _ & _ & _ & Hem).
    unfold lifecycle_ok. by rewrite Hst.
Qed.

Lemma lifecycle_always (evs : list Event) (r : nat) (task : Task) :
  heap (run init evs).1 !! r = Some task -> lifecycle_ok task.
Proof.
  revert r task.
  apply (run_invariant
           (fun w => forall r task, heap w !! r = Some task -> lifecycle_ok task));
    [apply lifecycle_step|].
  intros r task. simpl. by rewrite lookup_nil.
Qed.

(** X2. After any history, every task object is in one of two shapes.
    While its state is [running], no exit has been reported for its
    process and its exit code and signal are still null. Once its state
    is [exited], the exit has been reported and no waiter is queued on
    it. *)
Theorem lifecycle_consistent (evs : list Event) (r : nat) (task : Task) :
  heap (run init evs).1 !! r = Some task ->
  match state task with
  | running =>
      exitEmitted (proc task) = false /\ exitCode task = None /\ signal task = None
  | exited => exitEmitted (proc task) = true /\ waiters task = []
  end.
Proof.
  intros Hr. change (lifecycle_ok task). revert r task Hr.
  apply (run_invariant
           (fun w => forall r task, heap w !! r = Some task -> lifecycle_ok task)).
  - intros w ev IH r task Hr. pose proof (step_heap w ev r) as Hstep.
    destruct (heap w !! r) as [before|] eqn:Hbefore.
    + destruct Hstep as (task' & Hr' & Hts). rewrite Hr in Hr'. injection Hr' as <-.
      eapply task_step_lifecycle; [done | by eapply IH].
    + destruct Hstep as [Hnone|(task' & Hr' & Hfresh)]; [congruence|].
      rewrite Hr in Hr'. injection Hr' as <-.
      destruct Hfresh as (Hst & Hcode & Hsig & _ & _ & _ & Hem).
      unfold lifecycle_ok. by rewrite Hst.
  - intros r task. simpl. by rewrite lookup_nil.
Qed.

Lemma lifecycle_consistent_witness :
  heap (run init demo_events).1 !! 0%nat = Some demo_task /\
  match state demo_task with
  | running =>
      exitEmitted (proc demo_task) = false /\ exitCode demo_task = None /\
      signal demo_task = None
  | exited => exitEmitted (proc demo_task) = true /\ waiters demo_task = []
  end.
Proof.
  split; [reflexivity|].
  apply (lifecycle_consistent demo_events 0%nat demo_task). reflexivity.
Defined.

(** ** The log buffer, further *)

Lemma item_bytes_pos (i : LogItem) : 16 <= item_bytes i.
Proof. unfold item_bytes, byteLength_utf8. lia. Qed.

Lemma retained_bytes_nonneg (items : list LogItem) : 0 <= retained_bytes items.
Proof.
  induction items as [|i items IH]; [done|].
  change (0 <= item_bytes i + retained_bytes items).
  pose proof (item_bytes_pos i). lia.
Qed.

Lemma task_step_within (n : option nat) (task task' : Task) :
  task_step n task task' -> within_budget task -> within_budget task'.
Proof.
  intros [tk|tk st nw ch|tk wt Hwt Hrun|tk cd sg Hopen] Hok; try done.
  destruct (pushLog_evicts tk st nw ch) as (ev & _ & _ & Hstop).
  destruct (pushLog_fields tk st nw ch) as (_ & _ & Hmax & _).
  unfold within_budget. by rewrite Hmax.
Qed.

Lemma within_budget_always (evs : list Event) (r : nat) (task : Task) :
  heap (run init evs).1 !! r = Some task -> within_budget task.
Proof.
  revert r task.
  apply (run_invariant
           (fun w => forall r task, heap w !! r = Some task -> within_budget task));
    [|by intros r task; simpl; rewrite lookup_nil].
  intros w ev IH r task' Hr'.
  pose proof (step_heap w ev r) as Hstep.
  destruct (heap w !! r) as [task|] eqn:Hr.
  - destruct Hstep as (task'' & Hr'' & Hts). rewrite Hr' in Hr''. injection Hr'' as <-.
    eapply task_step_within; [done | by eapply IH].
  - destruct Hstep as [Hnone|(task'' & Hr'' & Hfresh)]; [congruence|].
    rewrite Hr' in Hr''. injection Hr'' as <-.
    destruct Hfresh as (_ & _ & _ & _ & Hl & _). by right.
Qed.

(** X3. After any history the accounted size of a task's log is not
    negative and, when the budget is not negative either, is at most the
    budget: between two events the buffer is never over it. *)
Theorem logBytes_never_over_budget (evs : list Event) (r : nat) (task : Task) :
  heap (run init evs).1 !! r = Some task ->
  0 <= logBytes task /\
  (0 <= maxLogBytes task -> logBytes task <= maxLogBytes task).
Proof.
  intros Hr. pose proof (heap_exact evs r task Hr) as Hacc. unfold logBytes_exact in Hacc.
  split; [rewrite Hacc; apply retained_bytes_nonneg|].
  intros Hmax. destruct (within_budget_always evs r task Hr) as [Hle|Hempty]; [done|].
  rewrite Hacc, Hempty. exact Hmax.
Qed.

Lemma logBytes_never_over_budget_witness :
  heap (run init demo_events).1 !! 0%nat = Some demo_task /\
  0 <= logBytes demo_task /\
  (0 <= maxLogBytes demo_task -> logBytes demo_task <= maxLogBytes demo_task).
Proof.
  split; [reflexivity|].
  apply (logBytes_never_over_budget demo_events 0%nat demo_task). reflexivity.
Defined.

(** Each round of the loop runs because the buffer is over the budget:
    the last item evicted was still needed out, and nothing goes when the
    buffer fits. *)
Lemma evict_minimal (budget bytes : Z) (items : list LogItem) :
  exists evicted,
    items = evicted ++ (evict budget bytes items).2 /\
    (forall front last,
       evicted = front ++ [last] ->
       budget < (evict budget bytes items).1 + item_bytes last) /\
    (bytes <= budget -> evicted = []).
Proof.
  revert bytes. induction items as [|old rest IH]; intros bytes; simpl.
  - exists []. split; [done|]. split; [|done].
    intros front last Heq. by destruct front.
  - destruct (budget <? bytes) eqn:Hover.
    + destruct (IH (bytes - (byteLength_utf8 (text old) + 16))) as (ev & Hsplit & Hmin & Hfit).
      destruct (evict_spec budget (bytes - (byteLength_utf8 (text old) + 16)) rest)
        as (ev' & Hsplit' & Hbytes' & _).
      exists (old :: ev). split; [simpl; by rewrite <- Hsplit|]. split; [|lia].
      intros front last Heq. destruct front as [|f front]; simpl in Heq.
      * injection Heq as -> ->. simpl in Hsplit.
        assert (ev' = []) as ->.
        { rewrite <- Hsplit in Hsplit'. apply (f_equal length) in Hsplit'.
          rewrite length_app in Hsplit'. destruct ev'; [done|]. simpl in Hsplit'. lia. }
        rewrite Hbytes'. unfold retained_bytes, item_bytes. simpl. lia.
      * injection Heq as _ ->. by apply (Hmin front last).
    + exists []. split; [done|]. split; [|done].
    intros front last Heq. by destruct front.
Qed.

(** X4. [pushLog] evicts no more than it must: had the last item it
    evicted stayed, the buffer would be over the budget; and when the old
    content and the new item fit the budget together, nothing is evicted
    and the item is simply appended. *)
Theorem pushLog_evicts_only_what_it_must (task : Task) (stream : Stream) (now : Z)
    (chunk : Buffer) :
  exists evicted,
    logs task ++ [new_item stream now chunk]
      = evicted ++ logs (pushLog task stream now chunk) /\
    (forall front last,
       evicted = front ++ [last] ->
       maxLogBytes task < logBytes (pushLog task stream now chunk) + item_bytes last) /\
    (logBytes task + item_bytes (new_item stream now chunk) <= maxLogBytes task ->
       logs (pushLog task stream now chunk) = logs task ++ [new_item stream now chunk] /\
       logBytes (pushLog task stream now chunk)
         = logBytes task + item_bytes (new_item stream now chunk)).
Proof.
  destruct (pushLog_fields task stream now chunk) as (Hb & Hl & _).
  destruct (evict_minimal (maxLogBytes task)
              (logBytes task + item_bytes (new_item stream now chunk))
              (logs task ++ [new_item stream now chunk])) as (ev & Hsplit & Hmin & Hfit).
  exists ev. rewrite Hb, Hl. split; [exact Hsplit|]. split; [exact Hmin|].
  intros Hle. specialize (Hfit Hle). subst ev. simpl in Hsplit. split; [done|].
  destruct (evict_spec (maxLogBytes task)
              (logBytes task + item_bytes (new_item stream now chunk))
              (logs task ++ [new_item stream now chunk])) as (ev' & Hsplit' & Hbytes' & _).
  assert (ev' = []) as ->.
  { rewrite <- Hsplit in Hsplit'. apply (f_equal length) in Hsplit'.
    rewrite !length_app in Hsplit'. destruct ev'; [done|]. simpl in Hsplit'. lia. }
  rewrite Hbytes'. unfold retained_bytes. simpl. lia.
Qed.

Lemma evict_all (budget : Z) (front : list LogItem) (big : LogItem) :
  budget < item_bytes big ->
  evict budget (retained_bytes (front ++ [big])) (front ++ [big]) = (0, []).
Proof.
  intros Hbig. induction front as [|i front IH]; simpl.
  - unfold retained_bytes, item_bytes in *. simpl.
    destruct (budget <? _) eqn:Hover; [|lia].
    f_equal. lia.
  - change (retained_bytes (i :: front ++ [big]))
      with (item_bytes i + retained_bytes (front ++ [big])).
    pose proof (item_bytes_pos i). pose proof (retained_bytes_nonneg front).
    rewrite retained_bytes_app in *.
    assert (Hlast : retained_bytes [big] = item_bytes big)
      by (unfold retained_bytes; simpl; lia).
    destruct (budget <? _) eqn:Hover; [|lia].
    rewrite <- IH. f_equal. unfold item_bytes. lia.
Qed.

(** X5. A chunk whose own weight is over the budget empties the buffer:
    with the accounting exact, [pushLog] evicts every older item and then
    the new one, and leaves [logBytes] at 0. *)
Theorem pushLog_oversized_chunk_is_dropped (task : Task) (stream : Stream) (now : Z)
    (chunk : Buffer) :
  logBytes task = retained_bytes (logs task) ->
  maxLogBytes task < item_bytes (new_item stream now chunk) ->
  logs (pushLog task stream now chunk) = [] /\
  logBytes (pushLog task stream now chunk) = 0.
Proof.
  intros Hacc Hbig.
  destruct (pushLog_fields task stream now chunk) as (Hb & Hl & _).
  rewrite Hb, Hl, Hacc.
  assert (Hsum : retained_bytes (logs task) + item_bytes (new_item stream now chunk)
            = retained_bytes (logs task ++ [new_item stream now chunk])).
  { rewrite retained_bytes_app. unfold retained_bytes at 3. simpl. lia. }
  rewrite Hsum, (evict_all _ _ _ Hbig). done.
Qed.

Lemma pushLog_oversized_chunk_is_dropped_witness :
  logBytes demo_task = retained_bytes (logs demo_task) /\
  maxLogBytes demo_task < item_bytes (new_item stdout 8 (repeat x61 2000)) /\
  logs (pushLog demo_task stdout 8 (repeat x61 2000)) = [] /\
  logBytes (pushLog demo_task stdout 8 (repeat x61 2000)) = 0.
Proof.
  assert (Hacc : logBytes demo_task = retained_bytes (logs demo_task)) by reflexivity.
  assert (Hbig : maxLogBytes demo_task < item_bytes (new_item stdout 8 (repeat x61 2000)))
    by (vm_compute; reflexivity).
  split; [exact Hacc|]. split; [exact Hbig|].
  exact (pushLog_oversized_chunk_is_dropped demo_task stdout 8 (repeat x61 2000) Hacc Hbig).
Defined.

(** ** Reading the logs, further *)

Lemma string_app_cons (x : ascii) (a b : string) :
  (String x a +:+ b)%string = String x (a +:+ b)%string.
Proof. reflexivity. Qed.

Lemma string_app_assoc (a b c : string) :
  ((a +:+ b) +:+ c)%string = (a +:+ (b +:+ c))%string.
Proof. induction a as [|x a IH]; [done|]. by rewrite !string_app_cons, IH. Qed.

Lemma join_map_app {A} (f : A -> string) (xs ys : list A) :
  join_map f (xs ++ ys) = (join_map f xs +:+ join_map f ys)%string.
Proof.
  induction xs as [|x xs IH]; [done|].
  unfold join_map in *. simpl. by rewrite IH, string_app_assoc.
Qed.

Lemma select_logs_drop (items : list LogItem) (offset tail : option Z) :
  exists k : nat, select_logs items offset tail = drop k items.
Proof.
  unfold select_logs, slice. destruct tail as [n|]; [by eexists|].
  destruct offset as [k|]; [by eexists|]. by exists 0%nat.
Qed.

(** X6. Whatever integers [offset] and [tail] are, [task_logs] answers
    with a window at the end of the log: the retained items are some
    skipped items followed by the selected ones, the returned text is the
    rendering of the selected items, [returnedCount] is [logItemCount]
    less the number skipped, and the text of the whole log, rendered the
    same way, is the rendering of the skipped items followed by the
    returned text. *)
Theorem logs_window_is_a_suffix (w : World) (id : string) (offset tail : option Z)
    (includeTimestamps : option bool) (r : nat) (task : Task) :
  getTask w id = Ok (r, task) ->
  exists res whole skipped,
    task_logs w id offset tail includeTimestamps = Ok (okJson (JLogs res)) /\
    task_logs w id None None includeTimestamps = Ok (okJson (JLogs whole)) /\
    logs task = skipped ++ select_logs (logs task) offset tail /\
    Logs.text res = render includeTimestamps (select_logs (logs task) offset tail) /\
    Logs.text whole = render includeTimestamps (logs task) /\
    Logs.returnedCount res = Logs.logItemCount res - Z.of_nat (length skipped) /\
    0 <= Logs.returnedCount res <= Logs.logItemCount res /\
    Logs.returnedCount whole = Logs.logItemCount res /\
    Logs.text whole = (render includeTimestamps skipped +:+ Logs.text res)%string /\
    exists before, Logs.text whole = (before +:+ Logs.text res)%string.
Proof.
  intros Hget. unfold task_logs. rewrite Hget.
  destruct (select_logs_drop (logs task) offset tail) as [k Hk].
  eexists _, _, (take k (logs task)). split; [done|]. split; [done|].
  rewrite Hk. split; [by rewrite take_drop|]. cbn.
  rewrite length_drop, length_take.
  assert (Htext : forall items,
            (if default true includeTimestamps
             then formatLogs items
             else join_map (fun i => "[" +:+ stream_name (stream i) +:+ "] " +:+ text i)%string
                    items)
            = render includeTimestamps items) by done.
  rewrite !Htext.
  assert (Hcat : render includeTimestamps (logs task)
            = (render includeTimestamps (take k (logs task))
               +:+ render includeTimestamps (drop k (logs task)))%string).
  { unfold render, formatLogs. destruct (default true includeTimestamps);
      by rewrite <- join_map_app, take_drop. }
  split; [done|]. split; [done|]. split; [lia|]. split; [lia|]. split; [done|].
  split; [exact Hcat|]. eexists. exact Hcat.
Qed.

Lemma logs_window_is_a_suffix_witness :
  getTask lines_world "7c9e6679" = Ok (0%nat, lines_task) /\
  exists res whole skipped,
    task_logs lines_world "7c9e6679" (Some 3) None (Some false) = Ok (okJson (JLogs res)) /\
    task_logs lines_world "7c9e6679" None None (Some false) = Ok (okJson (JLogs whole)) /\
    logs lines_task = skipped ++ select_logs (logs lines_task) (Some 3) None /\
    Logs.text res = render (Some false) (select_logs (logs lines_task) (Some 3) None) /\
    Logs.text whole = render (Some false) (logs lines_task) /\
    Logs.returnedCount res = Logs.logItemCount res - Z.of_nat (length skipped) /\
    0 <= Logs.returnedCount res <= Logs.logItemCount res /\
    Logs.returnedCount whole = Logs.logItemCount res /\
    Logs.text whole = (render (Some false) skipped +:+ Logs.text res)%string /\
    exists before, Logs.text whole = (before +:+ Logs.text res)%string.
Proof.
  split; [reflexivity|].
  apply (logs_window_is_a_suffix lines_world "7c9e6679" (Some 3) None (Some false)
           0%nat lines_task).
  reflexivity.
Defined.

(** ** Listing and starting tasks *)

Lemma Map_get_elem (k : string) (r : nat) (m : TaskMap) :
  Map_get k m = Some r -> (k, r) ∈ m.
Proof.
  induction m as [|[k' v] m IH]; [done|]. cbn [Map_get].
  destruct (decide (k' = k)) as [->|Hne].
  - intros [= ->]. left.
  - intros Hget. right. by apply IH.
Qed.

Lemma Map_get_NoDup (k : string) (r : nat) (m : TaskMap) :
  NoDup m.*1 -> (k, r) ∈ m -> Map_get k m = Some r.
Proof.
  induction m as [|[k' v] m IH]; intros Hnd Hin; [by apply not_elem_of_nil in Hin|].
  rewrite fmap_cons in Hnd. apply NoDup_cons in Hnd as [Hnotin Hnd]. simpl in Hnotin.
  cbn [Map_get]. apply elem_of_cons in Hin as [[= <- <-]|Hin].
  - by rewrite decide_True.
  - rewrite decide_False; [by apply IH|].
    intros ->. apply Hnotin. by apply (list_elem_of_fmap_2 fst _ (k, r)).
Qed.

Lemma Map_set_fresh (k : string) (v : nat) (m : TaskMap) :
  k ∉ m.*1 -> Map_set k v m = m ++ [(k, v)].
Proof.
  induction m as [|[k' v'] m IH]; intros Hnotin; [done|].
  rewrite fmap_cons in Hnotin. apply not_elem_of_cons in Hnotin as [Hne Hnotin].
  simpl in Hne. cbn [Map_set]. rewrite decide_False by congruence.
  simpl. by rewrite IH.
Qed.

Lemma list_summaries (h : list Task) (m : TaskMap) :
  (forall k r, (k, r) ∈ m -> exists task, h !! r = Some task /\ task_id task = k) ->
  Summary.id <$> omap (fun e => summary <$> h !! e.2) m = m.*1.
Proof.
  induction m as [|[k r] m IH]; intros Hreg; [done|].
  destruct (Hreg k r) as (task & Hr & Hid); [left|].
  cbn [omap list_omap]. simpl. rewrite Hr. simpl.
  unfold task_id in Hid. rewrite Hid. f_equal. apply IH.
  intros k' r' Hin. apply Hreg. by right.
Qed.

(** X7. After any history, [task_list] returns one summary for every
    entry of the registry, in the order of insertion and under the id it
    is registered with, no id twice; and a summary is in the list exactly
    when [task_status] returns it for its id. *)
Theorem task_list_matches_registry (evs : list Event) :
  exists l,
    task_list (run init evs).1 = Ok (okJson (JTasks l)) /\
    Summary.id <$> l = (tasks (run init evs).1).*1 /\
    NoDup (Summary.id <$> l) /\
    forall s,
      s ∈ l <-> task_status (run init evs).1 (Summary.id s) = Ok (okJson (JSummary s)).
Proof.
  destruct (registry_ok_always evs) as [Hnd Hreg].
  set (w := (run init evs).1) in *.
  assert (Hids : Summary.id <$> omap (fun e => summary <$> heap w !! e.2) (tasks w)
            = (tasks w).*1).
  { apply list_summaries. intros k r Hin. apply Hreg. by apply Map_get_NoDup. }
  eexists. split; [done|]. split; [exact Hids|]. split; [by rewrite Hids|].
  intros s. rewrite list_elem_of_omap. split.
  - intros ([k r] & Hin & Hs). simpl in Hs.
    destruct (heap w !! r) as [task|] eqn:Hr; [|done]. injection Hs as <-.
    pose proof (Map_get_NoDup k r (tasks w) Hnd Hin) as Hget.
    destruct (Hreg k r Hget) as (task0 & Hr0 & Hid0).
    assert (task0 = task) as -> by congruence.
    unfold task_id in Hid0. simpl. rewrite Hid0.
    unfold task_status, getTask. by rewrite Hget, Hr.
  - unfold task_status. destruct (getTask w (Summary.id s)) as [[r task]|] eqn:Hget; [|done].
    intros [= <-]. apply getTask_Ok in Hget as [Hkey Hr].
    exists (Summary.id (summary task), r). split; [by apply Map_get_elem|].
    simpl. by rewrite Hr.
Qed.

(** X8. A [task_start] whose process has a pid answers with the new id,
    the pid and the state [running], and registers under that id a task
    object that is as a new task is: [task_status] on the id then gives
    the launch parameters as passed, no exit code, no signal, an empty
    log, and the log budget that was asked for, or 1048576. *)
Theorem start_then_status (w : World) (o : Oracle) (cmd : string) (ags : list string)
    (dir : option string) (en : option (list (string * string))) (nm : option string)
    (mx : option Z) (p : Z) :
  spawn o = Spawned (Some p) ->
  p <> 0 ->
  exists w' task,
    task_start w o cmd ags dir en nm mx
      = (w', Ok (okJson (JStarted (randomUUID o) p running))) /\
    getTask w' (randomUUID o) = Ok (length (heap w), task) /\
    fresh task /\
    env task = en /\
    proc_pid (proc task) = p /\
    task_status w' (randomUUID o)
      = Ok (okJson (JSummary
          {| Summary.id := randomUUID o; Summary.name := nm; Summary.command := cmd;
             Summary.args := ags; Summary.cwd := dir; Summary.pid := p;
             Summary.state := running; Summary.exitCode := None; Summary.signal := None;
             Summary.createdAt := Date_now o; Summary.logBytes := 0;
             Summary.maxLogBytes := default 1048576 mx |})).
Proof.
  intros Hspawn Hpid. unfold task_start. rewrite Hspawn.
  destruct (p =? 0) eqn:Hzero; [lia|].
  eexists _, _. split; [done|].
  match goal with |- getTask ?w' _ = Ok (_, ?task) /\ _ =>
    assert (Hget : getTask w' (randomUUID o) = Ok (length (heap w), task))
  end.
  { unfold getTask. simpl. rewrite Map_get_set, decide_True by done.
    by rewrite list_lookup_middle. }
  split; [exact Hget|]. split; [by repeat split|]. split; [done|]. split; [done|].
  unfold task_status. rewrite Hget. by destruct mx.
Qed.

Lemma start_then_status_witness :
  spawn demo_oracle = Spawned (Some 4242) /\
  4242 <> 0 /\
  exists w' task,
    task_start init demo_oracle "make" ["-j4"]%string (Some "/srv"%string) None None None
      = (w', Ok (okJson (JStarted (randomUUID demo_oracle) 4242 running))) /\
    getTask w' (randomUUID demo_oracle) = Ok (length (heap init), task) /\
    fresh task /\
    env task = None /\
    proc_pid (proc task) = 4242 /\
    task_status w' (randomUUID demo_oracle)
      = Ok (okJson (JSummary
          {| Summary.id := randomUUID demo_oracle; Summary.name := None;
             Summary.command := "make"; Summary.args := ["-j4"]%string;
             Summary.cwd := Some "/srv"%string; Summary.pid := 4242;
             Summary.state := running; Summary.exitCode := None; Summary.signal := None;
             Summary.createdAt := Date_now demo_oracle; Summary.logBytes := 0;
             Summary.maxLogBytes := default 1048576 None |})).
Proof.
  assert (Hpid : 4242 <> 0) by lia.
  split; [reflexivity|]. split; [exact Hpid|].
  exact (start_then_status init demo_oracle "make" ["-j4"]%string (Some "/srv"%string)
           None None None 4242 eq_refl Hpid).
Defined.

(** X9. A [task_start] that succeeds touches no other task: every task
    that could be reached by another id is reached as before, every task
    object stays where it is, and when the new id was not in use the
    registry grows by one entry, added after all the others. *)
Theorem start_keeps_other_tasks (w : World) (o : Oracle) (cmd : string)
    (ags : list string) (dir : option string) (en : option (list (string * string)))
    (nm : option string) (mx : option Z) (p : Z) :
  spawn o = Spawned (Some p) ->
  p <> 0 ->
  (forall key r task,
     key <> randomUUID o ->
     getTask w key = Ok (r, task) ->
     getTask (task_start w o cmd ags dir en nm mx).1 key = Ok (r, task)) /\
  (forall r task,
     heap w !! r = Some task ->
     heap (task_start w o cmd ags dir en nm mx).1 !! r = Some task) /\
  (randomUUID o ∉ (tasks w).*1 ->
     tasks (task_start w o cmd ags dir en nm mx).1
       = tasks w ++ [(randomUUID o, length (heap w))] /\
     Map_size (tasks (task_start w o cmd ags dir en nm mx).1) = Map_size (tasks w) + 1).
Proof.
  intros Hspawn Hpid. unfold task_start. rewrite Hspawn.
  destruct (p =? 0) eqn:Hzero; [lia|]. cbn [fst]. split; [|split].
  - intros key r task Hne Hget. apply getTask_Ok in Hget as [Hkey Hr].
    unfold getTask. simpl. rewrite Map_get_set, decide_False by done.
    rewrite Hkey. by rewrite (lookup_app_l_Some _ _ _ _ Hr).
  - intros r task Hr. simpl. by apply lookup_app_l_Some.
  - intros Hfree. simpl. rewrite Map_set_fresh by done. split; [done|].
    unfold Map_size. rewrite length_app. simpl. lia.
Qed.

Lemma start_keeps_other_tasks_witness :
  let o := {| randomUUID := "a3f1"; spawn := Spawned (Some 77); Date_now := 9;
              kill := Delivered true |} in
  spawn o = Spawned (Some 77) /\
  77 <> 0 /\
  (forall key r task,
     key <> randomUUID o ->
     getTask demo_world key = Ok (r, task) ->
     getTask (task_start demo_world o "ls" [] None None None None).1 key = Ok (r, task)) /\
  (forall r task,
     heap demo_world !! r = Some task ->
     heap (task_start demo_world o "ls" [] None None None None).1 !! r = Some task) /\
  (randomUUID o ∉ (tasks demo_world).*1 ->
     tasks (task_start demo_world o "ls" [] None None None None).1
       = tasks demo_world ++ [(randomUUID o, length (heap demo_world))] /\
     Map_size (tasks (task_start demo_world o "ls" [] None None None None).1)
       = Map_size (tasks demo_world) + 1).
Proof.
  intros o. assert (Hpid : 77 <> 0) by lia.
  split; [reflexivity|]. split; [exact Hpid|].
  exact (start_keeps_other_tasks demo_world o "ls" [] None None None None 77 eq_refl Hpid).
Defined.

(** ** Pruning and shutting down, further *)

Lemma prune_including_running (w : World) (m : TaskMap) :
  prune_kept w (Some true) m = [] /\ prune_count w (Some true) m = Map_size m.
Proof.
  assert (Htest : forall r, prune_test w (Some true) r = true).
  { intros r. unfold prune_test. by destruct (state <$> heap w !! r) as [[]|]. }
  unfold prune_kept, prune_count, Map_size. induction m as [|e m [IHk IHc]]; [done|].
  rewrite filter_cons_False by (rewrite Htest; congruence).
  rewrite filter_cons_True by apply Htest.
  split; [exact IHk|]. simpl length. lia.
Qed.

(** X10. [task_prune] with [includeRunning] true, after any history:
    [removed] is the number of tasks that were registered and [remaining]
    is 0; the registry is empty afterwards, so every id is unknown and
    [task_list] is empty, while the task objects and the suspended calls
    are as they were and no signal is sent. *)
Theorem prune_including_running_empties_registry (evs : list Event) (o : Oracle) :
  exists w',
    step (run init evs).1 (Call (Req_prune (Some true)) o)
      = (w', [Return (nextCall (run init evs).1)
                (Ok (okJson (JPrune (Map_size (tasks (run init evs).1)) 0)))]) /\
    tasks w' = [] /\
    heap w' = heap (run init evs).1 /\
    pending w' = pending (run init evs).1 /\
    (forall id, task_status w' id = Throw (not_found id)) /\
    task_list w' = Ok (okJson (JTasks [])).
Proof.
  pose proof (proj1 (registry_ok_always evs)) as Hnd.
  set (w := (run init evs).1) in *. simpl.
  rewrite (task_prune_spec (with_nextCall w (S (nextCall w))) (Some true) Hnd). simpl.
  destruct (prune_including_running (with_nextCall w (S (nextCall w))) (tasks w))
    as [-> ->].
  eexists. split; [done|]. repeat split.
Qed.

Lemma prune_kept_again (w w' : World) (includeRunning : option bool) (m : TaskMap) :
  heap w' = heap w ->
  prune_kept w' includeRunning (prune_kept w includeRunning m)
    = prune_kept w includeRunning m /\
  prune_count w' includeRunning (prune_kept w includeRunning m) = 0.
Proof.
  intros Hheap.
  assert (Htest : forall r, prune_test w' includeRunning r = prune_test w includeRunning r).
  { intros r. unfold prune_test. by rewrite Hheap. }
  unfold prune_kept, prune_count. induction m as [|e m [IHk IHc]]; [done|].
  destruct (prune_test w includeRunning e.2) eqn:Hdrop.
  - rewrite (filter_cons_False _ e m) by congruence. by split.
  - rewrite (filter_cons_True _ e m) by done.
    rewrite filter_cons_True by (by rewrite Htest).
    rewrite filter_cons_False by (rewrite Htest; congruence).
    split; [by rewrite IHk|exact IHc].
Qed.

(** X11. A [task_prune] that follows another one with the same argument,
    with no event in between, removes nothing: it reports [removed] 0 and
    leaves the registry as the first one left it. *)
Theorem prune_twice_removes_nothing (evs : list Event) (includeRunning : option bool)
    (o1 o2 : Oracle) :
  let w1 := (step (run init evs).1 (Call (Req_prune includeRunning) o1)).1 in
  (step w1 (Call (Req_prune includeRunning) o2)).2
    = [Return (nextCall w1) (Ok (okJson (JPrune 0 (Map_size (tasks w1)))))] /\
  tasks (step w1 (Call (Req_prune includeRunning) o2)).1 = tasks w1.
Proof.
  pose proof (proj1 (registry_ok_always evs)) as Hnd.
  set (w := (run init evs).1) in *. simpl.
  rewrite (task_prune_spec (with_nextCall w (S (nextCall w))) includeRunning Hnd). simpl.
  set (w0 := with_nextCall w (S (nextCall w))).
  set (kept := prune_kept w0 includeRunning (tasks w)).
  set (w1 := with_tasks w0 kept).
  assert (Hnd1 : NoDup (tasks (with_nextCall w1 (S (S (nextCall w))))).*1)
    by (by apply prune_kept_NoDup).
  rewrite (task_prune_spec _ includeRunning Hnd1). simpl.
  destruct (prune_kept_again w0 (with_nextCall w1 (S (S (nextCall w)))) includeRunning
              (tasks w) eq_refl) as [Hk Hc].
  fold kept in Hk, Hc. rewrite Hk, Hc. by split.
Qed.

Lemma registry_refs_NoDup (w : World) : registry_ok w -> NoDup (tasks w).*2.
Proof.
  intros [Hnd Hreg]. apply NoDup_fmap_2_strong; [|by eapply NoDup_fmap_1].
  intros [k1 r1] [k2 r2] Hin1 Hin2 Heq. simpl in Heq. subst r2.
  destruct (Hreg k1 r1 (Map_get_NoDup _ _ _ Hnd Hin1)) as (t1 & Hr1 & Hid1).
  destruct (Hreg k2 r1 (Map_get_NoDup _ _ _ Hnd Hin2)) as (t2 & Hr2 & Hid2).
  f_equal. congruence.
Qed.

Lemma shutdown_elem (w : World) (a : Action) :
  a ∈ shutdown w <->
  exists e, e ∈ tasks w /\ state <$> heap w !! e.2 = Some running /\ a = Kill e.2 "SIGTERM".
Proof.
  unfold shutdown. rewrite list_elem_of_In, in_flat_map. split.
  - intros (e & Hin & Ha). exists e. apply list_elem_of_In in Hin. split; [done|].
    destruct (state <$> heap w !! e.2) as [[]|]; simpl in Ha; try done.
    destruct Ha as [<-|[]]. done.
  - intros (e & Hin & Hrun & ->). exists e. apply list_elem_of_In in Hin. split; [done|].
    rewrite Hrun. by left.
Qed.

Lemma shutdown_NoDup (h : list Task) (m : TaskMap) :
  NoDup m.*2 ->
  NoDup (flat_map (fun e => match state <$> h !! e.2 with
                            | Some running => [Kill e.2 "SIGTERM"]
                            | _ => []
                            end) m).
Proof.
  induction m as [|e m IH]; intros Hnd; [apply NoDup_nil_2|].
  rewrite fmap_cons in Hnd. apply NoDup_cons in Hnd as [Hnotin Hnd].
  simpl. specialize (IH Hnd).
  destruct (state <$> h !! e.2) as [[]|]; simpl; try done.
  apply NoDup_cons. split; [|done].
  intros Hin. apply list_elem_of_In, in_flat_map in Hin as (e' & Hin' & Ha).
  apply Hnotin. destruct (state <$> h !! e'.2) as [[]|]; simpl in Ha; try done.
  destruct Ha as [[= Heq]|[]]. rewrite <- Heq.
  apply list_elem_of_fmap_2. by apply list_elem_of_In.
Qed.

(** X12. The handler of SIGINT and SIGTERM, after any history: it sends
    SIGTERM, once, to the process of every task that is registered and
    running, and nothing else. A task that is no longer registered gets
    no signal, running or not. *)
Theorem shutdown_signals_registered_running (evs : list Event) :
  NoDup (shutdown (run init evs).1) /\
  forall a,
    a ∈ shutdown (run init evs).1 <->
    exists id r task,
      getTask (run init evs).1 id = Ok (r, task) /\ state task = running /\
      a = Kill r "SIGTERM".
Proof.
  pose proof (registry_ok_always evs) as Hok.
  set (w := (run init evs).1) in *. split.
  - apply shutdown_NoDup. by apply registry_refs_NoDup.
  - destruct Hok as [Hnd Hreg]. intros a. rewrite shutdown_elem. split.
    + intros ([k r] & Hin & Hrun & ->). simpl in *.
      destruct (heap w !! r) as [task|] eqn:Hr; [|done]. injection Hrun as Hrun.
      exists k, r, task. split; [|done].
      unfold getTask. by rewrite (Map_get_NoDup _ _ _ Hnd Hin), Hr.
    + intros (k & r & task & Hget & Hrun & ->).
      apply getTask_Ok in Hget as [Hkey Hr].
      exists (k, r). split; [by apply Map_get_elem|]. simpl. rewrite Hr. simpl.
      by rewrite Hrun.
Qed.

(** ** Errors of a process *)

Lemma Buffer_from_cons (x : ascii) (s : string) :
  Buffer_from (String x s) = byte_of_ascii x :: Buffer_from s.
Proof. reflexivity. Qed.

Lemma Buffer_from_app (a b : string) :
  Buffer_from (a +:+ b) = Buffer_from a ++ Buffer_from b.
Proof.
  induction a as [|x a IH]; [done|].
  by rewrite string_app_cons, !Buffer_from_cons, IH.
Qed.

Lemma Buffer_from_length (s : string) : length (Buffer_from s) = String.length s.
Proof.
  induction s as [|x s IH]; [done|]. rewrite Buffer_from_cons. simpl. by rewrite IH.
Qed.

Lemma toString_ascii_only (s : string) :
  ascii_only s -> toString_utf8 (Buffer_from s) = s.
Proof.
  unfold ascii_only, toString_utf8.
  induction s as [|x s IH]; intros Hall; [done|].
  rewrite Buffer_from_cons in Hall |- *. apply Forall_cons in Hall as [Hx Hall].
  cbn [utf8_run]. unfold utf8_step, utf8_lead. cbn [utf8_needed utf8_idle].
  destruct (byte_val (byte_of_ascii x) <=? 127) eqn:Hle; [|lia].
  unfold str_of_bytes, string_of_list_byte. cbn [map string_of_list_ascii].
  rewrite ascii_of_byte_of_ascii, string_app_cons. f_equal. by apply IH.
Qed.

Lemma evict_fits (budget bytes : Z) (items : list LogItem) :
  bytes <= budget -> evict budget bytes items = (bytes, items).
Proof.
  intros Hle. destruct items as [|old rest]; [done|]. simpl.
  by destruct (budget <? bytes) eqn:Hover; [lia|].
Qed.

(** X13. An ["error"] event of a process is only logged. With an error
    text in ASCII, the item that goes to the log of the task is a stderr
    item with the text ["Process error: "], the error and a newline; the
    state, the exit code, the signal and the waiters of the task stay as
    they are, and the event returns nothing to any call. *)
Theorem process_error_is_logged (w : World) (r : nat) (task : Task) (err : string)
    (now : Z) :
  heap w !! r = Some task ->
  ascii_only err ->
  exists task',
    step w (ProcError r err now) = (set_task w r task', []) /\
    state task' = state task /\ exitCode task' = exitCode task /\
    signal task' = signal task /\ waiters task' = waiters task /\
    logs task' `suffix_of`
      logs task ++ [{| t := now; stream := stderr;
                       text := ("Process error: " +:+ err +:+ newline)%string |}] /\
    (logBytes task + (Z.of_nat (String.length err) + 16 + 16) <= maxLogBytes task ->
     logs task'
       = logs task ++ [{| t := now; stream := stderr;
                          text := ("Process error: " +:+ err +:+ newline)%string |}]).
Proof.
  intros Hr Hascii. simpl. unfold emit_error, emit_data. rewrite Hr.
  set (msg := ("Process error: " +:+ err +:+ newline)%string).
  assert (Htext : toString_utf8 (Buffer_from msg) = msg).
  { apply toString_ascii_only. unfold ascii_only, msg.
    rewrite !Buffer_from_app. apply Forall_app. split.
    - repeat constructor; vm_compute; discriminate.
    - apply Forall_app. split; [exact Hascii|].
      repeat constructor; vm_compute; discriminate. }
  assert (Hlen : byteLength_utf8 msg = Z.of_nat (String.length err) + 16).
  { unfold byteLength_utf8, msg.
    rewrite <- Buffer_from_length, !Buffer_from_app, !length_app, !Buffer_from_length.
    simpl. lia. }
  destruct (pushLog_fields task stderr now (Buffer_from msg))
    as (Hb & Hl & _ & Hst & Hcode & Hsig & Hw & _).
  pose proof (pushLog_suffix task stderr now (Buffer_from msg)) as Hsuf.
  unfold new_item in *. rewrite Htext in *.
  eexists. split; [done|]. repeat split; try done.
  intros Hfit. rewrite Hl, evict_fits; [done|].
  unfold item_bytes. simpl. lia.
Qed.

Lemma process_error_is_logged_witness :
  heap demo_world !! 0%nat = Some demo_task /\
  ascii_only "spawn sh ENOENT" /\
  exists task',
    step demo_world (ProcError 0%nat "spawn sh ENOENT" 1700000000009)
      = (set_task demo_world 0%nat task', []) /\
    state task' = state demo_task /\ exitCode task' = exitCode demo_task /\
    signal task' = signal demo_task /\ waiters task' = waiters demo_task /\
    logs task' `suffix_of`
      logs demo_task
        ++ [{| t := 1700000000009; stream := stderr;
               text := ("Process error: " +:+ "spawn sh ENOENT" +:+ newline)%string |}] /\
    (logBytes demo_task + (Z.of_nat (String.length "spawn sh ENOENT") + 16 + 16)
       <= maxLogBytes demo_task ->
     logs task'
       = logs demo_task
           ++ [{| t := 1700000000009; stream := stderr;
                  text := ("Process error: " +:+ "spawn sh ENOENT" +:+ newline)%string |}]).
Proof.
  assert (Hascii : ascii_only "spawn sh ENOENT")
    by (repeat constructor; vm_compute; discriminate).
  split; [reflexivity|]. split; [exact Hascii|].
  exact (process_error_is_logged demo_world 0%nat demo_task "spawn sh ENOENT"
           1700000000009 eq_refl Hascii).
Defined.

(** ** One turn of the event loop, seen from one task *)

Lemma step_task (w : World) (ev : Event) (r : nat) (task : Task) :
  heap w !! r = Some task ->
  exists task', heap (step w ev).1 !! r = Some task' /\ task_moves w ev r task task'.
Proof.
  intros Hr.
  assert (Hsame : forall w', heap w' = heap w ->
            exists task', heap w' !! r = Some task' /\ task_moves w ev r task task').
  { intros w' ->. exists task. split; [done|by left]. }
  assert (Hset : forall r0 t' w0,
            heap w0 = heap w ->
            (r0 = r -> task_moves w ev r task t') ->
            exists task', heap (set_task w0 r0 t') !! r = Some task' /\
                          task_moves w ev r task task').
  { intros r0 t' w0 Hh Hm. simpl. rewrite Hh. destruct (decide (r0 = r)) as [->|Hne].
    - exists t'. split; [|by apply Hm].
      apply list_lookup_insert_eq. by eapply lookup_lt_Some.
    - rewrite list_lookup_insert_ne by done. exists task. split; [done|by left]. }
  destruct ev as [req o|r0 stream chunk now|r0 code sig|r0 err now|c timer|c e|]; simpl;
    [| | | | | |by apply Hsame].
  - destruct req as [cmd ags dir en nm mx|rid| |rid off tl ts|rid data nl|rid sg|rid ms|rid ms|inc];
      simpl; try by apply Hsame.
    + unfold task_start. destruct (spawn o) as [|[p|]]; simpl; try by apply Hsame.
      destruct (p =? 0); simpl; [by apply Hsame|].
      exists task. split; [by apply lookup_app_l_Some|by left].
    + unfold task_write. destruct (getTask _ _) as [[r0 task0]|]; simpl; [|by apply Hsame].
      destruct (state task0); by apply Hsame.
    + unfold task_stop. destruct (getTask _ _) as [[r0 task0]|] eqn:Hget; simpl;
        [|by apply Hsame].
      pose proof (getTask_Ok _ _ _ _ Hget) as [_ Hr0]. simpl in Hr0.
      destruct (state task0) eqn:Hst; simpl; [|by apply Hsame].
      apply (Hset r0 _ (with_nextCall w (S (nextCall w)))); [done|].
      intros ->. assert (task0 = task) as -> by congruence.
      right. right. left. eexists. split; [done|]. split; [done|]. left.
      split; [done|]. exists rid, ms, o. split; [exact Hget|]. by left.
    + unfold task_wait. destruct (getTask _ _) as [[r0 task0]|] eqn:Hget; simpl;
        [|by apply Hsame].
      pose proof (getTask_Ok _ _ _ _ Hget) as [_ Hr0]. simpl in Hr0.
      destruct (state task0) eqn:Hst; simpl; [|by apply Hsame].
      destruct ms as [ms|]; simpl;
        (apply (Hset r0 _ (with_nextCall w (S (nextCall w)))); [done|];
         intros ->; assert (task0 = task) as -> by congruence;
         right; right; left; eexists; split; [done|]; split; [done|]; left;
         split; [done|]; eexists rid, _, o; split; [exact Hget|]; by right).
    + unfold task_prune. destruct (prune_loop _ _ _ _ _). by apply Hsame.
  - unfold emit_data. destruct (heap w !! r0) as [task0|] eqn:Hr0; [|by apply Hsame].
    apply (Hset r0 _ w); [done|]. intros ->. assert (task0 = task) as -> by congruence.
    right. left. eexists _, _, _. split; [done|]. by left.
  - unfold emit_exit. destruct (heap w !! r0) as [task0|] eqn:Hr0; [|by apply Hsame].
    destruct (exitEmitted (proc task0)) eqn:Hem; [by apply Hsame|].
    unfold on_exit. simpl.
    match goal with |- context [invoke_all ?ws ?r1 ?w0] =>
      destruct (invoke_all_frame ws r1 w0) as (Hh & _) end.
    rewrite Hh.
    match goal with |- context [set_task w r0 ?t'] => apply (Hset r0 t' w); [done|] end.
    intros ->. assert (task0 = task) as -> by congruence.
    right. right. right. by exists code, sig.
  - unfold emit_error, emit_data.
    destruct (heap w !! r0) as [task0|] eqn:Hr0; [|by apply Hsame].
    apply (Hset r0 _ w); [done|]. intros ->. assert (task0 = task) as -> by congruence.
    right. left. eexists _, _, _. split; [done|]. right. by exists err.
  - unfold on_timeout.
    destruct timer; destruct (pending w !! c) as [[| r0 | r0 | | id0 r0]|] eqn:Hp;
      simpl; try by apply Hsame.
    + destruct (heap w !! r0) as [task0|] eqn:Hr0; [|by apply Hsame].
      destruct (state task0) eqn:Hst; simpl; [|by apply Hsame].
      apply (Hset r0 _ w); [done|]. intros ->. assert (task0 = task) as -> by congruence.
      right. right. left. eexists. split; [done|]. split; [done|]. right. by exists c.
    + apply Hsame. apply resume_with_summary_frame.
    + destruct (heap w !! r0); by apply Hsame.
  - unfold on_write_done. destruct (pending w !! c) as [[]|]; try destruct e;
      by apply Hsame.
Qed.

(** ** Calls and waiters that have started *)

Lemma run_cons (w : World) (ev : Event) (evs : list Event) :
  run w (ev :: evs)
    = ((run (step w ev).1 evs).1, (step w ev).2 ++ (run (step w ev).1 evs).2).
Proof. simpl. destruct (step w ev) as [w1 a1]. simpl. by destruct (run w1 evs). Qed.

Lemma run_app (evs1 evs2 : list Event) (w : World) :
  run w (evs1 ++ evs2)
    = ((run (run w evs1).1 evs2).1, (run w evs1).2 ++ (run (run w evs1).1 evs2).2).
Proof.
  revert w. induction evs1 as [|ev rest IH]; intros w.
  - simpl. by destruct (run w evs2).
  - rewrite <- app_comm_cons, !run_cons, IH. simpl. by rewrite app_assoc.
Qed.

Lemma started_step (w : World) (ev : Event) : started w -> started (step w ev).1.
Proof.
  intros [Hpend Hwait]. pose proof (nextCall_mono w ev) as Hmono. split.
  - intros c p Hp'. destruct (pending w !! c) as [p0|] eqn:Hp.
    + specialize (Hpend c p0 Hp). lia.
    + destruct (decide (new_call w ev = Some c)) as [Hnew|Hnew].
      * pose proof (nextCall_step w ev) as Hn.
        destruct ev; simpl in Hnew; try done. injection Hnew as <-. rewrite Hn. lia.
      * destruct (step_over w ev c Hp Hnew) as [Hq _]. congruence.
  - intros r task' wt Hr' Hin.
    pose proof (step_heap w ev r) as Hstep.
    destruct (heap w !! r) as [task|] eqn:Hr.
    + clear Hstep. destruct (step_task w ev r task Hr) as (task'' & Hr'' & Hmv).
      rewrite Hr' in Hr''. injection Hr'' as <-.
      destruct Hmv
        as [->|[(st & nw & ch & -> & _)|[(wt0 & -> & Hrun & Hwho)|(cd & sg & -> & Hopen & ->)]]].
      * specialize (Hwait r task wt Hr Hin). lia.
      * rewrite (proj1 (proj2 (proj2 (proj2 (proj2 (proj2 (proj2
                   (pushLog_fields task st nw ch)))))))) in Hin.
        specialize (Hwait r task wt Hr Hin). lia.
      * simpl in Hin. apply elem_of_app in Hin as [Hin|Hin].
        -- specialize (Hwait r task wt Hr Hin). lia.
        -- apply list_elem_of_singleton in Hin as ->.
           destruct Hwho as [[Hnew _]|(c & -> & Hp & ->)].
           ++ pose proof (nextCall_step w ev) as Hn.
              destruct ev; simpl in Hnew; try done. injection Hnew as Hc.
              rewrite Hn. lia.
           ++ cbn [waiter_call]. specialize (Hpend c _ Hp). lia.
      * simpl in Hin. by apply not_elem_of_nil in Hin.
    + destruct Hstep as [Hnone|(task'' & Hr'' & Hfresh)]; [congruence|].
      rewrite Hr' in Hr''. injection Hr'' as <-.
      destruct Hfresh as (_ & _ & _ & _ & _ & Hw & _). rewrite Hw in Hin.
      by apply not_elem_of_nil in Hin.
Qed.

Lemma started_always (evs : list Event) : started (run init evs).1.
Proof.
  apply (run_invariant started); [apply started_step|].
  split; [intros c p Hp; simpl in Hp; by rewrite lookup_empty in Hp|].
  intros r task wt Hr. simpl in Hr. by rewrite lookup_nil in Hr.
Qed.

(** ** One result for every call *)

Lemma returned_own (c : nat) (res : Result ToolResponse) : returned c [Return c res] = [res].
Proof. unfold returned. simpl. by rewrite decide_True. Qed.

(** A tool handler returns at once and suspends nothing, or suspends its
    call and returns nothing yet. *)
Lemma handle_own (w : World) (c : nat) (req : Request) (o : Oracle) :
  (returned c (handle w c req o).2 = [] /\ is_Some (pending (handle w c req o).1 !! c)) \/
  (exists res, returned c (handle w c req o).2 = [res] /\
               pending (handle w c req o).1 !! c = pending w !! c).
Proof.
  assert (Hsusp : forall w0 p, is_Some (pending (suspend w0 c p) !! c)).
  { intros w0 p. simpl. rewrite lookup_insert_eq. by eexists. }
  destruct req as [cmd ags dir en nm mx|rid| |rid off tl ts|rid data nl|rid sg|rid ms|rid ms|inc];
    simpl.
  - destruct (task_start _ _ _ _ _ _ _ _) as [w' res] eqn:Hstart. simpl.
    right. exists res. split; [by rewrite returned_cons_own, returned_orphan|].
    unfold task_start in Hstart.
    destruct (spawn o) as [|[p|]]; try (by injection Hstart as <- _).
    destruct (p =? 0); by injection Hstart as <- _.
  - right. eexists. split; [apply returned_own|done].
  - right. eexists. split; [apply returned_own|done].
  - right. eexists. split; [apply returned_own|done].
  - unfold task_write. destruct (getTask _ _) as [[r task]|]; simpl.
    + destruct (state task); simpl.
      * left. split; [done|apply Hsusp].
      * right. eexists. split; [apply returned_own|done].
    + right. eexists. split; [apply returned_own|done].
  - right. unfold task_signal. destruct (getTask _ _) as [[r task]|]; simpl.
    + destruct (state task); simpl; [destruct (kill o)|]; eexists; (split; [|done]).
      * apply returned_own.
      * unfold returned. simpl. by rewrite decide_True.
      * apply returned_own.
    + eexists. split; [apply returned_own|done].
  - unfold task_stop. destruct (getTask _ _) as [[r task]|]; simpl.
    + destruct (state task); simpl.
      * left. split; [done|apply Hsusp].
      * right. eexists. split; [apply returned_own|done].
    + right. eexists. split; [apply returned_own|done].
  - unfold task_wait. destruct (getTask _ _) as [[r task]|]; simpl.
    + destruct (state task); simpl.
      * left. destruct ms; simpl; (split; [done|apply Hsusp]).
      * right. eexists. split; [apply returned_own|done].
    + right. eexists. split; [apply returned_own|done].
  - unfold task_prune. destruct (prune_loop _ _ _ _ _). simpl.
    right. eexists. split; [apply returned_own|done].
Qed.

(** A timer of a suspended call leaves it suspended and returns nothing,
    or ends it with one result. *)
Lemma on_timeout_own (w : World) (c : nat) (timer : Timer) (p : Pending) :
  pending w !! c = Some p ->
  (returned c (on_timeout w c timer).2 = [] /\
   is_Some (pending (on_timeout w c timer).1 !! c)) \/
  (exists res, returned c (on_timeout w c timer).2 = [res] /\
               pending (on_timeout w c timer).1 !! c = None).
Proof.
  intros Hp.
  assert (Hstay : returned c (w, @nil Action).2 = [] /\ is_Some (pending (w, @nil Action).1 !! c)).
  { split; [done|]. simpl. rewrite Hp. by eexists. }
  assert (Hend : forall res,
            exists res0, returned c (finish w c, [Return c res]).2 = [res0] /\
                         pending (finish w c, [Return c res]).1 !! c = None).
  { intros res. exists res. split; [apply returned_own|apply lookup_delete_eq]. }
  unfold on_timeout. rewrite Hp.
  destruct timer, p as [| r | r | | id r]; try (by left).
  - destruct (heap w !! r) as [task|]; [|by left].
    destruct (state task); [|right; apply Hend].
    left. split; [done|]. simpl. rewrite lookup_insert_eq. by eexists.
  - unfold resume_with_summary. destruct (heap w !! r); [right; apply Hend|by left].
  - destruct (heap w !! r); [right; apply Hend|by left].
Qed.

Lemma on_write_done_own (w : World) (c : nat) (e : option string) (p : Pending) :
  pending w !! c = Some p ->
  (returned c (on_write_done w c e).2 = [] /\
   is_Some (pending (on_write_done w c e).1 !! c)) \/
  (exists res, returned c (on_write_done w c e).2 = [res] /\
               pending (on_write_done w c e).1 !! c = None).
Proof.
  intros Hp. unfold on_write_done. rewrite Hp.
  destruct p; try destruct e;
    try (left; split; [done|]; simpl; rewrite Hp; by eexists).
  right. eexists. split; [apply returned_own|apply lookup_delete_eq].
Qed.

Lemma call_state_step (w : World) (ev : Event) (c : nat)
    (results : list (Result ToolResponse)) :
  call_state w c results ->
  call_state (step w ev).1 c (results ++ returned c (step w ev).2).
Proof.
  pose proof (nextCall_step w ev) as Hn. pose proof (nextCall_mono w ev) as Hmono.
  intros [(Hle & Hp & ->)|[(Hlt & [p Hp] & ->)|(Hlt & Hp & res & ->)]].
  - destruct (decide (new_call w ev = Some c)) as [Hnew|Hnew].
    + destruct ev as [req o| | | | | |]; simpl in Hnew; try done. injection Hnew as <-.
      simpl in Hn |- *.
      destruct (handle_own (with_nextCall w (S (nextCall w))) (nextCall w) req o)
        as [[Hret Hsome]|(res & Hret & Hsame)].
      * right. left. rewrite Hret. split; [lia|]. by split.
      * right. right. rewrite Hret. split; [lia|]. split; [by rewrite Hsame|].
        by exists res.
    + destruct (step_over w ev c Hp Hnew) as [Hq Hret]. left.
      rewrite Hret, Hq. split; [|done]. rewrite Hn.
      destruct ev; simpl in Hnew; try lia.
      assert (nextCall w <> c) by congruence. lia.
  - destruct (step_call w ev c p Hp Hlt)
      as [[Hq Hret]|[[timer ->]|[[e ->]|
           (r0 & code & sig & task0 & wt & r & task & -> & _ & _ & _ & _ & _ & Hnone & Hret)]]].
    + right. left. rewrite Hret, Hq, Hp. split; [lia|]. split; [by eexists|done].
    + simpl in *. destruct (on_timeout_own w c timer p Hp) as [[Hret Hsome]|(res & Hret & Hnone)].
      * right. left. rewrite Hret. split; [lia|]. by split.
      * right. right. rewrite Hret. split; [lia|]. split; [done|]. by exists res.
    + simpl in *. destruct (on_write_done_own w c e p Hp) as [[Hret Hsome]|(res & Hret & Hnone)].
      * right. left. rewrite Hret. split; [lia|]. by split.
      * right. right. rewrite Hret. split; [lia|]. split; [done|]. by exists res.
    + right. right. rewrite Hret. split; [lia|]. split; [done|]. by eexists.
  - destruct (step_over w ev c Hp) as [Hq Hret].
    { destruct ev; simpl; try done. intros [= ?]. lia. }
    right. right. rewrite Hret, Hq, app_nil_r. split; [lia|]. split; [done|]. by exists res.
Qed.

Lemma call_state_run (evs : list Event) (w : World) (c : nat)
    (results : list (Result ToolResponse)) :
  call_state w c results ->
  call_state (run w evs).1 c (results ++ returned c (run w evs).2).
Proof.
  revert w results. induction evs as [|ev rest IH]; intros w results Hst.
  - simpl. by rewrite app_nil_r.
  - rewrite run_cons. simpl. rewrite returned_app, app_assoc.
    apply IH. by apply call_state_step.
Qed.

(** X14. Over any history, every call number is in one of three states:
    not given out yet, and nothing was returned to it; suspended, and
    nothing was returned to it yet; or over, and exactly one result was
    returned to it. No call gets two results, none ends without one, and
    a timer or a waiter that comes after the end of its call returns
    nothing. *)
Theorem each_call_answered_once (evs : list Event) (c : nat) :
  ((nextCall (run init evs).1 <= c)%nat /\ pending (run init evs).1 !! c = None /\
   returned c (run init evs).2 = []) \/
  ((c < nextCall (run init evs).1)%nat /\ is_Some (pending (run init evs).1 !! c) /\
   returned c (run init evs).2 = []) \/
  ((c < nextCall (run init evs).1)%nat /\ pending (run init evs).1 !! c = None /\
   exists res, returned c (run init evs).2 = [res]).
Proof.
  apply (call_state_run evs init c []). left. simpl. split; [lia|]. by split.
Qed.

(** ** Writing to stdin *)

Lemma write_call_step (w : World) (ev : Event) (c : nat) :
  pending w !! c = Some AwaitWrite ->
  (c < nextCall w)%nat ->
  (forall e, ev <> WriteDone c e) ->
  pending (step w ev).1 !! c = Some AwaitWrite /\ returned c (step w ev).2 = [].
Proof.
  intros Hp Hlt Hne.
  destruct (step_call w ev c _ Hp Hlt)
    as [[Hq Hret]|[[timer ->]|[[e ->]|
         (r0 & code & sig & task0 & wt & r' & task & -> & _ & _ & _ & Hres & _)]]].
  - by rewrite Hq.
  - simpl. unfold on_timeout. rewrite Hp. by destruct timer.
  - by destruct (Hne e).
  - by destruct wt.
Qed.




(** ** A suspended call until the exit of its task *)

Lemma pushLog_waiters (task : Task) (stream : Stream) (now : Z) (chunk : Buffer) :
  waiters (pushLog task stream now chunk) = waiters task /\
  state (pushLog task stream now chunk) = state task /\
  proc (pushLog task stream now chunk) = proc task.
Proof.
  destruct (pushLog_fields task stream now chunk) as (_ & _ & _ & Hst & _ & _ & Hw & Hp).
  by rewrite Hst, Hw, Hp.
Qed.

(** One turn of the event loop that does not end the wait of a call
    suspended on the task [r]: the call stays where it is and gets
    nothing. *)
Lemma suspended_step (w : World) (ev : Event) (c : nat) (p : Pending) (r : nat) :
  pending w !! c = Some p ->
  (c < nextCall w)%nat ->
  only_on w c r ->
  p <> AwaitWrite ->
  (forall r0, p = AwaitStopTerm r0 -> r0 = r) ->
  ~ wakes p c r ev ->
  pending (step w ev).1 !! c = Some p /\
  returned c (step w ev).2 = [] /\
  only_on (step w ev).1 c r.
Proof.
  intros Hp Hlt Honly Hnw Hterm Hnot.
  assert (Hquiet : quiet w ev c).
  { destruct (step_call w ev c p Hp Hlt)
      as [Hq|[[timer ->]|[[e ->]|
           (r0 & code & sig & task0 & wt & r' & task & -> & Hr0 & Hin & Hwc & _)]]].
    - done.
    - unfold quiet. simpl in Hnot |- *. unfold on_timeout. rewrite Hp.
      destruct timer, p; try done; exfalso; apply Hnot; by split.
    - unfold quiet. simpl. unfold on_write_done. rewrite Hp.
      destruct p; try done; by destruct Hnw.
    - exfalso. apply Hnot. simpl. by apply (Honly r0 task0 wt). }
  destruct Hquiet as [Hq Hret]. rewrite Hq. split; [done|]. split; [done|].
  intros r0 task' wt Hr' Hin Hwc.
  pose proof (step_heap w ev r0) as Hstep.
  destruct (heap w !! r0) as [task|] eqn:Hr0.
  - clear Hstep. destruct (step_task w ev r0 task Hr0) as (task'' & Hr'' & Hmv).
    rewrite Hr' in Hr''. injection Hr'' as <-.
    destruct Hmv
      as [->|[(st & nw & ch & -> & _)|[(wt0 & -> & Hrun & Hwho)|(cd & sg & -> & Hopen & ->)]]].
    + by apply (Honly r0 task wt).
    + rewrite (proj1 (pushLog_waiters task st nw ch)) in Hin. by apply (Honly r0 task wt).
    + simpl in Hin. apply elem_of_app in Hin as [Hin|Hin]; [by apply (Honly r0 task wt)|].
      apply list_elem_of_singleton in Hin as ->.
      destruct Hwho as [[Hnew _]|(c0 & -> & Hp0 & ->)].
      * destruct ev; simpl in Hnew; try done. injection Hnew as Hc. lia.
      * simpl in Hwc. subst c0. rewrite Hp in Hp0. injection Hp0 as ->. by apply Hterm.
    + simpl in Hin. by apply not_elem_of_nil in Hin.
  - destruct Hstep as [Hnone|(task'' & Hr'' & Hfresh)]; [congruence|].
    rewrite Hr' in Hr''. injection Hr'' as <-.
    destruct Hfresh as (_ & _ & _ & _ & _ & Hw & _). rewrite Hw in Hin.
    by apply not_elem_of_nil in Hin.
Qed.

Lemma suspended_run (evs : list Event) (w : World) (c : nat) (p : Pending) (r : nat) :
  pending w !! c = Some p ->
  (c < nextCall w)%nat ->
  only_on w c r ->
  p <> AwaitWrite ->
  (forall r0, p = AwaitStopTerm r0 -> r0 = r) ->
  Forall (fun ev => ~ wakes p c r ev) evs ->
  pending (run w evs).1 !! c = Some p /\
  (c < nextCall (run w evs).1)%nat /\
  only_on (run w evs).1 c r /\
  returned c (run w evs).2 = [].
Proof.
  intros Hp Hlt Honly Hnw Hterm. revert w Hp Hlt Honly.
  induction evs as [|ev rest IH]; intros w Hp Hlt Honly Hall; [done|].
  apply Forall_cons in Hall as [Hev Hall]. rewrite run_cons. cbn [fst snd].
  destruct (suspended_step w ev c p r Hp Hlt Honly Hnw Hterm Hev) as (Hp' & Hret & Honly').
  pose proof (nextCall_mono w ev) as Hmono.
  destruct (IH (step w ev).1 Hp' ltac:(lia) Honly' Hall) as (Hp'' & Hlt'' & Honly'' & Hret').
  repeat split; try done. by rewrite returned_app, Hret, Hret'.
Qed.

(** Until its process exits, a running task keeps its waiters, its
    state and its launch parameters. *)
Lemma waiter_stays_step (w : World) (ev : Event) (r : nat) (first task : Task)
    (wt : Waiter) :
  (forall code sig, ev <> ProcExit r code sig) ->
  heap w !! r = Some task /\ wt ∈ waiters task /\ state task = running /\
    exitEmitted (proc task) = false /\ same_launch first task ->
  exists task',
    heap (step w ev).1 !! r = Some task' /\ wt ∈ waiters task' /\ state task' = running /\
    exitEmitted (proc task') = false /\ same_launch first task'.
Proof.
  intros Hne (Hr & Hin & Hrun & Hopen & Hsame).
  destruct (step_task w ev r task Hr) as (task' & Hr' & Hmv).
  exists task'. split; [done|].
  destruct Hmv
    as [->|[(st & nw & ch & -> & _)|[(wt0 & -> & _ & _)|(cd & sg & -> & _)]]].
  - done.
  - destruct (pushLog_waiters task st nw ch) as (-> & -> & ->).
    split; [done|]. split; [done|]. split; [done|].
    eapply same_launch_trans; [done|apply pushLog_launch].
  - simpl. split; [|done]. apply elem_of_app. by left.
  - by destruct (Hne cd sg).
Qed.

Lemma waiter_stays_run (evs : list Event) (w : World) (r : nat) (first task : Task)
    (wt : Waiter) :
  Forall (fun ev => forall code sig, ev <> ProcExit r code sig) evs ->
  heap w !! r = Some task /\ wt ∈ waiters task /\ state task = running /\
    exitEmitted (proc task) = false /\ same_launch first task ->
  exists task',
    heap (run w evs).1 !! r = Some task' /\ wt ∈ waiters task' /\ state task' = running /\
    exitEmitted (proc task') = false /\ same_launch first task'.
Proof.
  revert w task. induction evs as [|ev rest IH]; intros w task Hall Hnow.
  - by exists task.
  - apply Forall_cons in Hall as [Hev Hall]. rewrite run_cons. cbn [fst].
    destruct (waiter_stays_step w ev r first task wt Hev Hnow) as (task' & Hnext).
    by apply (IH _ task').
Qed.

(** The exit of a task on which the call [c] is suspended: the call
    gets the summary of the task as the exit handler left it, once, and
    is over. *)
Lemma exit_resumes (w : World) (r c : nat) (task : Task) (wt : Waiter)
    (code : option Z) (sig : option string) :
  heap w !! r = Some task ->
  exitEmitted (proc task) = false ->
  wt ∈ waiters task ->
  awaits w c r wt ->
  exists final,
    returned c (step w (ProcExit r code sig)).2 = [Ok (okJson (JSummary (summary final)))] /\
    heap (step w (ProcExit r code sig)).1 !! r = Some final /\
    pending (step w (ProcExit r code sig)).1 !! c = None /\
    settled code sig final /\ same_launch task final /\
    forall a, a ∈ (step w (ProcExit r code sig)).2 -> exists c0 res, a = Return c0 res.
Proof.
  intros Hr Hopen Hin Haw. simpl. unfold emit_exit. rewrite Hr, Hopen.
  unfold on_exit. simpl.
  set (final := with_waiters _ []).
  pose proof (invoke_all_frame (waiters task) r (set_task w r final)) as (Hh & _).
  assert (Hfinal0 : heap (set_task w r final) !! r = Some final).
  { simpl. apply list_lookup_insert_eq. by eapply lookup_lt_Some. }
  pose proof (invoke_all_resolves _ r c wt _ final Hfinal0 Hin
                (awaits_pending w _ c r wt eq_refl Haw)) as Hret.
  exists final. split; [exact Hret|]. split; [by rewrite Hh|]. split.
  - destruct (invoke_all_call (waiters task) r c (set_task w r final))
      as [[_ Hq]|(_ & _ & _ & _ & _ & _ & _ & _ & _ & Hn & _)]; [congruence|done].
  - split; [by repeat split|]. split; [by repeat split|].
    intros a. apply invoke_all_returns.
Qed.

Lemma suspended_until_exit (evs : list Event) (w : World) (c : nat) (p : Pending)
    (r : nat) (first task : Task) (wt : Waiter) :
  pending w !! c = Some p ->
  (c < nextCall w)%nat ->
  only_on w c r ->
  p <> AwaitWrite ->
  (forall r0, p = AwaitStopTerm r0 -> r0 = r) ->
  (forall w', pending w' !! c = Some p -> awaits w' c r wt) ->
  heap w !! r = Some task /\ wt ∈ waiters task /\ state task = running /\
    exitEmitted (proc task) = false /\ same_launch first task ->
  Forall (fun ev => ~ wakes p c r ev) evs ->
  (pending (run w evs).1 !! c = Some p /\
   (c < nextCall (run w evs).1)%nat /\
   only_on (run w evs).1 c r /\
   returned c (run w evs).2 = []) /\
  (exists now,
     heap (run w evs).1 !! r = Some now /\ wt ∈ waiters now /\ state now = running /\
     exitEmitted (proc now) = false /\ same_launch first now) /\
  forall code sig, exists final,
    returned c (step (run w evs).1 (ProcExit r code sig)).2
      = [Ok (okJson (JSummary (summary final)))] /\
    heap (step (run w evs).1 (ProcExit r code sig)).1 !! r = Some final /\
    pending (step (run w evs).1 (ProcExit r code sig)).1 !! c = None /\
    settled code sig final /\ same_launch first final /\
    forall a, a ∈ (step (run w evs).1 (ProcExit r code sig)).2 ->
              exists c0 res, a = Return c0 res.
Proof.
  intros Hp Hlt Honly Hnw Hterm Haw Hnow Hall.
  pose proof (suspended_run evs w c p r Hp Hlt Honly Hnw Hterm Hall) as Hsusp.
  assert (Hall' : Forall (fun ev => forall code sig, ev <> ProcExit r code sig) evs).
  { eapply Forall_impl; [exact Hall|]. intros ev Hnot code sig ->. by apply Hnot. }
  destruct (waiter_stays_run evs w r first task wt Hall' Hnow)
    as (now & Hr & Hin & Hrun & Hopen & Hsame).
  split; [exact Hsusp|]. split; [by exists now|].
  intros code sig.
  destruct (exit_resumes (run w evs).1 r c now wt code sig Hr Hopen Hin
              (Haw _ (proj1 Hsusp))) as (final & Hret & Hf & Hn & Hset & Hsame' & Hacts).
  exists final. split; [done|]. split; [done|]. split; [done|]. split; [done|].
  split; [by eapply same_launch_trans|done].
Qed.

(** ** Waiting and stopping, until the exit *)

(** X16. A [task_wait] on a running task, with or without a timeout,
    after any history: whatever happens next, as long as the task does
    not exit and the timer of the call, if it has one, does not fire, the
    call gets nothing; other calls, timers, output and a prune of the
    task change nothing to that, and without a timeout no timer ends the
    wait. When the exit of the task then comes, the call returns the
    summary of the task as the exit handler left it: exited, with the
    code and the signal of the exit and the launch parameters it had. *)
Theorem wait_returns_at_exit (evs : list Event) (id : string) (timeoutMs : option Z)
    (o : Oracle) (r : nat) (task : Task) (evs' : list Event) :
  let w := (run init evs).1 in
  let c := nextCall w in
  getTask w id = Ok (r, task) ->
  state task = running ->
  Forall (wait_goes_on timeoutMs c r) evs' ->
  returned c (run w (Call (Req_wait id timeoutMs) o :: evs')).2 = [] /\
  forall code sig, exists final,
    returned c (step (run w (Call (Req_wait id timeoutMs) o :: evs')).1
                  (ProcExit r code sig)).2
      = [Ok (okJson (JSummary (summary final)))] /\
    heap (step (run w (Call (Req_wait id timeoutMs) o :: evs')).1
            (ProcExit r code sig)).1 !! r = Some final /\
    state final = exited /\ exitCode final = code /\ signal final = sig /\
    same_launch task final.
Proof.
  intros w c Hget Hrun Hall.
  pose proof (proj2 (started_always evs)) as Hwait. fold w in Hwait.
  pose proof (lifecycle_always evs) as Hlife. fold w in Hlife.
  clearbody w. subst c.
  pose proof (getTask_Ok _ _ _ _ Hget) as [_ Hr].
  assert (Hopen : exitEmitted (proc task) = false).
  { specialize (Hlife r task Hr). unfold lifecycle_ok in Hlife. rewrite Hrun in Hlife.
    tauto. }
  assert (Hget' : getTask (with_nextCall w (S (nextCall w))) id = Ok (r, task)) by done.
  set (c := nextCall w).
  set (p := match timeoutMs with
            | None => AwaitDone
            | Some _ => AwaitDoneOrTimeout id r
            end).
  set (task1 := with_waiters task (waiters task ++ [ResolveDone c])).
  set (w1 := suspend (set_task (with_nextCall w (S c)) r task1) c p).
  assert (Hstep : exists a1,
            step w (Call (Req_wait id timeoutMs) o) = (w1, a1) /\ returned c a1 = []).
  { simpl. unfold task_wait. rewrite Hget', Hrun. unfold w1, p.
    destruct timeoutMs; by eexists. }
  destruct Hstep as (a1 & Hstep & Hret1). rewrite run_cons, Hstep. cbn [fst snd].
  destruct (suspended_until_exit evs' w1 c p r task task1 (ResolveDone c))
    as ((_ & _ & _ & Hret) & _ & Hexit).
  - apply lookup_insert_eq.
  - simpl. lia.
  - intros r0 task0 wt Hr0 Hin Hwc. destruct (decide (r0 = r)) as [|Hne]; [done|].
    simpl in Hr0. rewrite list_lookup_insert_ne in Hr0 by done.
    pose proof (Hwait r0 task0 wt Hr0 Hin). lia.
  - unfold p. by destruct timeoutMs.
  - unfold p. by destruct timeoutMs.
  - intros w' Hp'. simpl. split; [done|]. rewrite Hp'. unfold p.
    destruct timeoutMs; [right; by eexists|by left].
  - split; [|split; [|by repeat split]].
    + simpl. apply list_lookup_insert_eq. by eapply lookup_lt_Some.
    + simpl. apply elem_of_app. right. left.
  - eapply Forall_impl; [exact Hall|]. intros ev [Hex Htm] Hw.
    destruct ev as [| |r0 code sig| |c0 timer| |]; simpl in Hw; try done.
    + subst r0. by destruct (Hex code sig).
    + destruct Hw as [-> Hown]. unfold p in Hown.
      destruct timeoutMs as [ms|]; [|done].
      injection Hown as <-. by specialize (Htm eq_refl).
  - split; [by rewrite returned_app, Hret1, Hret|].
    intros code sig. destruct (Hexit code sig) as (final & Hres & Hf & _ & Hset & Hsame & _).
    destruct Hset as (Hst & Hcode & Hsig & _).
    by exists final.
Qed.

Lemma wait_returns_at_exit_witness :
  let evs' := [Call (Req_prune (Some true)) demo_oracle;
               ProcData 0%nat stderr (Buffer_from "bye") 1700000000007;
               TimerFired 4%nat WaitTimer] in
  getTask (run init demo_events).1 "7c9e6679" = Ok (0%nat, demo_task) /\
  state demo_task = running /\
  Forall (wait_goes_on None (nextCall (run init demo_events).1) 0%nat) evs' /\
  returned 4%nat
    (run (run init demo_events).1 (Call (Req_wait "7c9e6679" None) demo_oracle :: evs')).2
    = [] /\
  forall code sig, exists final,
    returned 4%nat
      (step (run (run init demo_events).1
               (Call (Req_wait "7c9e6679" None) demo_oracle :: evs')).1
         (ProcExit 0%nat code sig)).2
      = [Ok (okJson (JSummary (summary final)))] /\
    heap (step (run (run init demo_events).1
                  (Call (Req_wait "7c9e6679" None) demo_oracle :: evs')).1
            (ProcExit 0%nat code sig)).1 !! 0%nat = Some final /\
    state final = exited /\ exitCode final = code /\ signal final = sig /\
    same_launch demo_task final.
Proof.
  intros evs'.
  assert (Hall : Forall (wait_goes_on None (nextCall (run init demo_events).1) 0%nat) evs').
  { repeat (apply Forall_cons; split; [split; [intros ? ?; discriminate|done]|]).
    apply Forall_nil_2. }
  split; [reflexivity|]. split; [reflexivity|]. split; [exact Hall|].
  exact (wait_returns_at_exit demo_events "7c9e6679" None demo_oracle 0%nat demo_task evs'
           eq_refl eq_refl Hall).
Defined.

(** A [task_stop] on a running task, up to the end of its first race. *)
Lemma stop_first_race_run (evs : list Event) (id : string) (timeoutMs : option Z)
    (o : Oracle) (r : nat) (task : Task) (evs1 : list Event) :
  getTask (run init evs).1 id = Ok (r, task) ->
  state task = running ->
  Forall (first_race_goes_on (nextCall (run init evs).1) r) evs1 ->
  exists w1 a1,
    step (run init evs).1 (Call (Req_stop id timeoutMs) o) = (w1, a1) /\
    returned (nextCall (run init evs).1) a1 = [] /\
    (pending (run w1 evs1).1 !! nextCall (run init evs).1 = Some (AwaitStopTerm r) /\
     (nextCall (run init evs).1 < nextCall (run w1 evs1).1)%nat /\
     only_on (run w1 evs1).1 (nextCall (run init evs).1) r /\
     returned (nextCall (run init evs).1) (run w1 evs1).2 = []) /\
    (exists now,
       heap (run w1 evs1).1 !! r = Some now /\
       ResolveStopTerm (nextCall (run init evs).1) ∈ waiters now /\
       state now = running /\ exitEmitted (proc now) = false /\ same_launch task now) /\
    forall code sig, exists final,
      returned (nextCall (run init evs).1) (step (run w1 evs1).1 (ProcExit r code sig)).2
        = [Ok (okJson (JSummary (summary final)))] /\
      heap (step (run w1 evs1).1 (ProcExit r code sig)).1 !! r = Some final /\
      pending (step (run w1 evs1).1 (ProcExit r code sig)).1 !! nextCall (run init evs).1
        = None /\
      settled code sig final /\ same_launch task final /\
      forall a, a ∈ (step (run w1 evs1).1 (ProcExit r code sig)).2 ->
                exists c0 res, a = Return c0 res.
Proof.
  intros Hget Hrun Hall.
  pose proof (proj2 (started_always evs)) as Hwait.
  pose proof (lifecycle_always evs) as Hlife.
  set (w := (run init evs).1) in *. clearbody w.
  pose proof (getTask_Ok _ _ _ _ Hget) as [_ Hr].
  assert (Hopen : exitEmitted (proc task) = false).
  { specialize (Hlife r task Hr). unfold lifecycle_ok in Hlife. rewrite Hrun in Hlife.
    tauto. }
  assert (Hget' : getTask (with_nextCall w (S (nextCall w))) id = Ok (r, task)) by done.
  assert (Hstep : step w (Call (Req_stop id timeoutMs) o)
            = (suspend (set_task (with_nextCall w (S (nextCall w))) r
                          (with_waiters task (waiters task ++ [ResolveStopTerm (nextCall w)])))
                 (nextCall w) (AwaitStopTerm r),
               [Kill r "SIGTERM";
                SetTimeout (nextCall w) StopTermTimer (default 5000 timeoutMs)])).
  { simpl. unfold task_stop. by rewrite Hget', Hrun. }
  set (c := nextCall w) in *.
  set (task1 := with_waiters task (waiters task ++ [ResolveStopTerm c])) in *.
  set (w1 := suspend (set_task (with_nextCall w (S c)) r task1) c (AwaitStopTerm r)) in *.
  exists w1, [Kill r "SIGTERM"; SetTimeout c StopTermTimer (default 5000 timeoutMs)].
  split; [exact Hstep|]. split; [done|].
  apply (suspended_until_exit evs1 w1 c (AwaitStopTerm r) r task task1 (ResolveStopTerm c)).
  - apply lookup_insert_eq.
  - simpl. lia.
  - intros r0 task0 wt Hr0 Hin Hwc. destruct (decide (r0 = r)) as [|Hne]; [done|].
    simpl in Hr0. rewrite list_lookup_insert_ne in Hr0 by done.
    pose proof (Hwait r0 task0 wt Hr0 Hin). lia.
  - done.
  - by intros r0 [= ->].
  - intros w' Hp'. by split.
  - split; [|split; [|by repeat split]].
    + simpl. apply list_lookup_insert_eq. by eapply lookup_lt_Some.
    + simpl. apply elem_of_app. right. left.
  - eapply Forall_impl; [exact Hall|]. intros ev [Hex Htm] Hw.
    destruct ev as [| |r0 code sig| |c0 timer| |]; simpl in Hw; try done.
    + subst r0. by destruct (Hex code sig).
    + destruct Hw as [-> [= <-]]. done.
Qed.

(** X17. A [task_stop] on a running task whose process exits before the
    first timer fires, after any history: until the exit the call gets
    nothing, and at the exit it returns the summary of the exited task,
    with the code and the signal of the exit; the turn of the exit sends
    no signal, so no SIGKILL follows the SIGTERM. *)
Theorem stop_returns_at_exit (evs : list Event) (id : string) (timeoutMs : option Z)
    (o : Oracle) (r : nat) (task : Task) (evs1 : list Event) :
  let w := (run init evs).1 in
  let c := nextCall w in
  getTask w id = Ok (r, task) ->
  state task = running ->
  Forall (first_race_goes_on c r) evs1 ->
  returned c (run w (Call (Req_stop id timeoutMs) o :: evs1)).2 = [] /\
  forall code sig, exists final,
    returned c (step (run w (Call (Req_stop id timeoutMs) o :: evs1)).1
                  (ProcExit r code sig)).2
      = [Ok (okJson (JSummary (summary final)))] /\
    heap (step (run w (Call (Req_stop id timeoutMs) o :: evs1)).1
            (ProcExit r code sig)).1 !! r = Some final /\
    state final = exited /\ exitCode final = code /\ signal final = sig /\
    same_launch task final /\
    forall r0 sg,
      Kill r0 sg ∉ (step (run w (Call (Req_stop id timeoutMs) o :: evs1)).1
                      (ProcExit r code sig)).2.
Proof.
  intros w c Hget Hrun Hall. subst w c.
  destruct (stop_first_race_run evs id timeoutMs o r task evs1 Hget Hrun Hall)
    as (w1 & a1 & Hstep & Hret1 & (_ & _ & _ & Hret) & _ & Hexit).
  rewrite run_cons, Hstep. cbn [fst snd].
  split; [by rewrite returned_app, Hret1, Hret|].
  intros code sig. destruct (Hexit code sig) as (final & Hres & Hf & _ & Hset & Hsame & Hacts).
  destruct Hset as (Hst & Hcode & Hsig & _).
  exists final. split; [done|]. split; [done|]. split; [done|]. split; [done|].
  split; [done|]. split; [done|].
  intros r0 sg Hin. by destruct (Hacts _ Hin) as (c0 & res & [=]).
Qed.

Lemma stop_returns_at_exit_witness :
  let evs1 := [ProcData 0%nat stdout (Buffer_from "bye") 1700000000007;
               Call (Req_status "7c9e6679") demo_oracle] in
  getTask (run init demo_events).1 "7c9e6679" = Ok (0%nat, demo_task) /\
  state demo_task = running /\
  Forall (first_race_goes_on (nextCall (run init demo_events).1) 0%nat) evs1 /\
  returned 4%nat
    (run (run init demo_events).1
       (Call (Req_stop "7c9e6679" (Some 250)) demo_oracle :: evs1)).2 = [] /\
  forall code sig, exists final,
    returned 4%nat
      (step (run (run init demo_events).1
               (Call (Req_stop "7c9e6679" (Some 250)) demo_oracle :: evs1)).1
         (ProcExit 0%nat code sig)).2
      = [Ok (okJson (JSummary (summary final)))] /\
    heap (step (run (run init demo_events).1
                  (Call (Req_stop "7c9e6679" (Some 250)) demo_oracle :: evs1)).1
            (ProcExit 0%nat code sig)).1 !! 0%nat = Some final /\
    state final = exited /\ exitCode final = code /\ signal final = sig /\
    same_launch demo_task final /\
    forall r0 sg,
      Kill r0 sg ∉ (step (run (run init demo_events).1
                            (Call (Req_stop "7c9e6679" (Some 250)) demo_oracle :: evs1)).1
                      (ProcExit 0%nat code sig)).2.
Proof.
  intros evs1.
  assert (Hall : Forall (first_race_goes_on (nextCall (run init demo_events).1) 0%nat) evs1).
  { repeat (apply Forall_cons; split; [split; [intros ? ?; discriminate|discriminate]|]).
    apply Forall_nil_2. }
  split; [reflexivity|]. split; [reflexivity|]. split; [exact Hall|].
  exact (stop_returns_at_exit demo_events "7c9e6679" (Some 250) demo_oracle 0%nat demo_task
           evs1 eq_refl eq_refl Hall).
Defined.

(** X18. A [task_stop] on a running task whose process does not exit
    before the first timer fires, after any history: when that timer
    fires SIGKILL is sent and a timer of 1000 ms is set, and the call
    still has no result. If the exit of the task comes next, the call
    returns the summary of the exited task. If the second timer comes
    first, the call returns the summary of the task as it is, with the
    state [running]: the process has outlived the call that stopped it. *)
Theorem stop_escalates_to_sigkill (evs : list Event) (id : string)
    (timeoutMs : option Z) (o : Oracle) (r : nat) (task : Task) (evs1 evs2 : list Event) :
  let w := (run init evs).1 in
  let c := nextCall w in
  let trace := Call (Req_stop id timeoutMs) o :: evs1 ++ TimerFired c StopTermTimer :: evs2 in
  getTask w id = Ok (r, task) ->
  state task = running ->
  Forall (first_race_goes_on c r) evs1 ->
  Forall (second_race_goes_on c r) evs2 ->
  returned c (run w trace).2 = [] /\
  Kill r "SIGKILL" ∈ (run w trace).2 /\
  SetTimeout c StopKillTimer 1000 ∈ (run w trace).2 /\
  (forall code sig, exists final,
     returned c (step (run w trace).1 (ProcExit r code sig)).2
       = [Ok (okJson (JSummary (summary final)))] /\
     state final = exited /\ exitCode final = code /\ signal final = sig /\
     same_launch task final) /\
  exists still,
    heap (run w trace).1 !! r = Some still /\
    state still = running /\ same_launch task still /\
    step (run w trace).1 (TimerFired c StopKillTimer)
      = (finish (run w trace).1 c, [Return c (Ok (okJson (JSummary (summary still))))]).
Proof.
  intros w c trace Hget Hrun Hall1 Hall2. subst w c trace.
  destruct (stop_first_race_run evs id timeoutMs o r task evs1 Hget Hrun Hall1)
    as (w1 & a1 & Hstep & Hret1 & (Hp & Hlt & Honly & Hret) &
        (now & Hr & Hin & Hst & Hopen & Hsame) & _).
  set (c := nextCall (run init evs).1) in *.
  set (wa := (run w1 evs1).1) in *.
  set (task2 := with_waiters now (waiters now ++ [ResolveStopKill c])).
  set (wb := suspend (set_task wa r task2) c (AwaitStopKill r)).
  assert (Htimer : step wa (TimerFired c StopTermTimer)
            = (wb, [Kill r "SIGKILL"; SetTimeout c StopKillTimer 1000])).
  { simpl. unfold on_timeout. by rewrite Hp, Hr, Hst. }
  destruct (suspended_until_exit evs2 wb c (AwaitStopKill r) r task task2 (ResolveStopKill c))
    as ((Hp2 & _ & _ & Hret2) & (still & Hr2 & _ & Hst2 & _ & Hsame2) & Hexit).
  - apply lookup_insert_eq.
  - exact Hlt.
  - intros r0 task0 wt Hr0 Hin0 Hwc. destruct (decide (r0 = r)) as [|Hne]; [done|].
    simpl in Hr0. rewrite list_lookup_insert_ne in Hr0 by done.
    by apply (Honly r0 task0 wt).
  - done.
  - by intros r0.
  - intros w' Hp'. by split.
  - split; [|split; [|split; [done|split; [done|exact Hsame]]]].
    + simpl. apply list_lookup_insert_eq. by eapply lookup_lt_Some.
    + simpl. apply elem_of_app. right. left.
  - eapply Forall_impl; [exact Hall2|]. intros ev [Hex Htm] Hw.
    destruct ev as [| |r0 code sig| |c0 timer| |]; simpl in Hw; try done.
    + subst r0. by destruct (Hex code sig).
    + destruct Hw as [-> [= <-]]. done.
  - rewrite run_cons, Hstep. cbn [fst snd]. rewrite run_app. cbn [fst snd].
    fold wa. rewrite run_cons, Htimer. cbn [fst snd].
    split; [by rewrite !returned_app, Hret1, Hret, Hret2|].
    split; [rewrite !elem_of_app; right; right; left; left|].
    split; [rewrite !elem_of_app; right; right; left; right; left|].
    split.
    + intros code sig.
      destruct (Hexit code sig) as (final & Hres & _ & _ & Hset & Hsame' & _).
      destruct Hset as (Hstf & Hcode & Hsig & _). by exists final.
    + exists still. split; [done|]. split; [done|]. split; [done|].
      simpl. unfold on_timeout. rewrite Hp2. unfold resume_with_summary. by rewrite Hr2.
Qed.

Lemma stop_escalates_to_sigkill_witness :
  let evs1 := [ProcData 0%nat stdout (Buffer_from "bye") 1700000000007] in
  let evs2 := [Call (Req_status "7c9e6679") demo_oracle] in
  let trace := Call (Req_stop "7c9e6679" None) demo_oracle
                 :: evs1 ++ TimerFired 4%nat StopTermTimer :: evs2 in
  getTask (run init demo_events).1 "7c9e6679" = Ok (0%nat, demo_task) /\
  state demo_task = running /\
  Forall (first_race_goes_on (nextCall (run init demo_events).1) 0%nat) evs1 /\
  Forall (second_race_goes_on (nextCall (run init demo_events).1) 0%nat) evs2 /\
  returned 4%nat (run (run init demo_events).1 trace).2 = [] /\
  Kill 0%nat "SIGKILL" ∈ (run (run init demo_events).1 trace).2 /\
  SetTimeout 4%nat StopKillTimer 1000 ∈ (run (run init demo_events).1 trace).2 /\
  (forall code sig, exists final,
     returned 4%nat (step (run (run init demo_events).1 trace).1 (ProcExit 0%nat code sig)).2
       = [Ok (okJson (JSummary (summary final)))] /\
     state final = exited /\ exitCode final = code /\ signal final = sig /\
     same_launch demo_task final) /\
  exists still,
    heap (run (run init demo_events).1 trace).1 !! 0%nat = Some still /\
    state still = running /\ same_launch demo_task still /\
    step (run (run init demo_events).1 trace).1 (TimerFired 4%nat StopKillTimer)
      = (finish (run (run init demo_events).1 trace).1 4%nat,
         [Return 4%nat (Ok (okJson (JSummary (summary still))))]).
Proof.
  intros evs1 evs2 trace.
  assert (Hall1 : Forall (first_race_goes_on (nextCall (run init demo_events).1) 0%nat) evs1).
  { repeat (apply Forall_cons; split; [split; [intros ? ?; discriminate|discriminate]|]).
    apply Forall_nil_2. }
  assert (Hall2 : Forall (second_race_goes_on (nextCall (run init demo_events).1) 0%nat) evs2).
  { repeat (apply Forall_cons; split; [split; [intros ? ?; discriminate|discriminate]|]).
    apply Forall_nil_2. }
  split; [reflexivity|]. split; [reflexivity|]. split; [exact Hall1|]. split; [exact Hall2|].
  exact (stop_escalates_to_sigkill demo_events "7c9e6679" None demo_oracle 0%nat demo_task
           evs1 evs2 eq_refl eq_refl Hall1 Hall2).
Defined.

(** ** What changes a task *)

(** X19. What the tools report about a task changes only on an event of
    its own process. Every other event, be it a tool call, a timer, the
    callback of a write, a shutdown or an event of another process,
    leaves the task object in place with the same summary, the same log
    and the same process handle. *)
Theorem reports_change_only_on_process_events (w : World) (ev : Event) (r : nat)
    (task : Task) :
  heap w !! r = Some task ->
  exists task',
    heap (step w ev).1 !! r = Some task' /\
    ((summary task' = summary task /\ logs task' = logs task /\ proc task' = proc task) \/
     (exists stream chunk now, ev = ProcData r stream chunk now) \/
     (exists err now, ev = ProcError r err now) \/
     (exists code sig, ev = ProcExit r code sig)).
Proof.
  intros Hr. destruct (step_task w ev r task Hr) as (task' & Hr' & Hmv).
  exists task'. split; [done|].
  destruct Hmv
    as [->|[(st & nw & ch & -> & [->|(err & -> & _)])|
            [(wt0 & -> & _ & _)|(cd & sg & -> & _)]]].
  - by left.
  - right. left. by eexists _, _, _.
  - right. right. left. by eexists _, _.
  - by left.
  - right. right. right. by eexists _, _.
Qed.

Lemma reports_change_only_on_process_events_witness :
  heap demo_world !! 0%nat = Some demo_task /\
  exists task',
    heap (step demo_world (Call (Req_stop "7c9e6679" None) demo_oracle)).1 !! 0%nat
      = Some task' /\
    ((summary task' = summary demo_task /\ logs task' = logs demo_task /\
      proc task' = proc demo_task) \/
     (exists stream chunk now,
        Call (Req_stop "7c9e6679" None) demo_oracle = ProcData 0%nat stream chunk now) \/
     (exists err now,
        Call (Req_stop "7c9e6679" None) demo_oracle = ProcError 0%nat err now) \/
     (exists code sig,
        Call (Req_stop "7c9e6679" None) demo_oracle = ProcExit 0%nat code sig)).
Proof.
  split; [reflexivity|].
  apply (reports_change_only_on_process_events demo_world
           (Call (Req_stop "7c9e6679" None) demo_oracle) 0%nat demo_task).
  reflexivity.
Defined.

Lemma retained_bytes_length (items : list LogItem) :
  16 * Z.of_nat (length items) <= retained_bytes items.
Proof.
  induction items as [|i items IH]; [done|].
  change (retained_bytes (i :: items)) with (item_bytes i + retained_bytes items).
  pose proof (item_bytes_pos i). simpl length. lia.
Qed.

(** X20. After any history a task whose budget is not negative retains
    at most one log item for every 16 bytes of its budget, whatever the
    chunks were: each item is accounted with 16 bytes on top of its text. *)
Theorem log_items_bounded_by_budget (evs : list Event) (r : nat) (task : Task) :
  heap (run init evs).1 !! r = Some task ->
  0 <= maxLogBytes task ->
  16 * Z.of_nat (length (logs task)) <= maxLogBytes task.
Proof.
  intros Hr Hmax. pose proof (heap_exact evs r task Hr) as Hacc.
  unfold logBytes_exact in Hacc.
  pose proof (retained_bytes_length (logs task)) as Hlen.
  destruct (within_budget_always evs r task Hr) as [Hle|Hempty]; [lia|].
  rewrite Hempty. simpl. lia.
Qed.

Lemma log_items_bounded_by_budget_witness :
  heap (run init demo_events).1 !! 0%nat = Some demo_task /\
  0 <= maxLogBytes demo_task /\
  16 * Z.of_nat (length (logs demo_task)) <= maxLogBytes demo_task.
Proof.
  assert (Hmax : 0 <= maxLogBytes demo_task) by (simpl; lia).
  split; [reflexivity|]. split; [exact Hmax|].
  exact (log_items_bounded_by_budget demo_events 0%nat demo_task eq_refl Hmax).
Defined.

(** ** Suspended calls wait on running tasks *)

Lemma wakes_dec (p : Pending) (c r : nat) (ev : Event) :
  wakes p c r ev \/ ~ wakes p c r ev.
Proof.
  destruct ev as [| |r0 code sig| |c0 timer| |]; simpl; try (right; tauto).
  - destruct (decide (r0 = r)); [by left|by right].
  - destruct (decide (c0 = c)) as [->|Hne]; [|right; by intros [? _]].
    destruct (decide (own_timer p = Some timer)); [by left|right; by intros [_ ?]].
Qed.

Lemma awaits_not_write (w : World) (c r : nat) (wt : Waiter) (p : Pending) :
  pending w !! c = Some p -> awaits w c r wt -> p <> AwaitWrite.
Proof.
  intros Hp Haw ->. destruct wt; simpl in Haw; destruct Haw as [_ Haw];
    try congruence. destruct Haw as [Haw|[id Haw]]; congruence.
Qed.

(** A call that has just pushed its waiter on a running task, and is
    suspended on it. *)
Lemma waits_on_push (w0 : World) (c r : nat) (task : Task) (wt : Waiter) (p : Pending) :
  heap w0 !! r = Some task ->
  state task = running ->
  exitEmitted (proc task) = false ->
  waiter_call wt = c ->
  (forall r0 task0 wt0,
     r0 <> r -> heap w0 !! r0 = Some task0 -> wt0 ∈ waiters task0 -> waiter_call wt0 <> c) ->
  (forall r0,
     p = AwaitStopTerm r0 \/ p = AwaitStopKill r0 \/ (exists id, p = AwaitDoneOrTimeout id r0) ->
     r0 = r) ->
  (forall w', pending w' !! c = Some p -> awaits w' c r wt) ->
  waits_on (suspend (set_task w0 r (with_waiters task (waiters task ++ [wt]))) c p) c p r.
Proof.
  intros Hr Hrun Hopen Hwc Hfresh Hnames Haw. split; [|split; [exact Hnames|]].
  - intros r0 task0 wt0 Hr0 Hin0 Hwc0. destruct (decide (r0 = r)) as [|Hne]; [done|].
    simpl in Hr0. rewrite list_lookup_insert_ne in Hr0 by done.
    by destruct (Hfresh r0 task0 wt0 Hne Hr0 Hin0).
  - eexists _, wt. split; [simpl; apply list_lookup_insert_eq; by eapply lookup_lt_Some|].
    split; [done|]. split; [done|]. split; [simpl; apply elem_of_app; right; left|].
    apply Haw. apply lookup_insert_eq.
Qed.

Lemma suspended_ok_step (w : World) (ev : Event) :
  started w ->
  (forall r task, heap w !! r = Some task -> lifecycle_ok task) ->
  suspended_ok w ->
  suspended_ok (step w ev).1.
Proof.
  intros [Hpend Hwait] Hlife Hok c p' Hp'.
  destruct (pending w !! c) as [p|] eqn:Hp.
  - pose proof (Hpend c p Hp) as Hlt.
    destruct (Hok c p Hp) as [->|(r & Honly & Hnames & task & wt & Hr & Hrun & Hopen & Hin & Haw)].
    + left.
      assert (Hcase : (exists e, ev = WriteDone c e) \/ (forall e, ev <> WriteDone c e)).
      { destruct ev as [| | | | |c0 e|]; try (right; intros e0; discriminate).
        destruct (decide (c0 = c)) as [->|Hne]; [left; by exists e|].
        right. intros e0 [= ? ?]. done. }
      destruct Hcase as [[e ->]|Hne].
      * simpl in Hp'. unfold on_write_done in Hp'. rewrite Hp in Hp'.
        destruct e; simpl in Hp'; [congruence|]. by rewrite lookup_delete_eq in Hp'.
      * destruct (write_call_step w ev c Hp Hlt Hne) as [Hsame _]. congruence.
    + pose proof (awaits_not_write w c r wt p Hp Haw) as Hnw.
      assert (Hterm : forall r0, p = AwaitStopTerm r0 -> r0 = r).
      { intros r0 Heq. apply Hnames. by left. }
      destruct (wakes_dec p c r ev) as [Hwake|Hnot].
      * destruct ev as [| |r0 code sig| |c0 timer| |]; simpl in Hwake; try done.
        -- subst r0.
           destruct (exit_resumes w r c task wt code sig Hr Hopen Hin Haw)
             as (final & _ & _ & Hnone & _). congruence.
        -- destruct Hwake as [-> Hown]. revert Hp'. simpl. unfold on_timeout. rewrite Hp.
           destruct p as [| r0 | r0 | | id r0]; simpl in Hown; try done;
             injection Hown as <-;
             (assert (r0 = r) as -> by (apply Hnames; eauto)); rewrite ?Hr, ?Hrun.
           ++ simpl. rewrite lookup_insert_eq. intros [= <-].
              right. exists r. apply waits_on_push; [done|done|done|done| | |].
              ** intros r0 task0 wt0 Hne Hr0 Hin0 Hwc0. apply Hne.
                 by apply (Honly r0 task0 wt0).
              ** intros r0 [[=]|[[= ->]|[id [=]]]]. done.
              ** intros w' Hw'. by split.
           ++ unfold resume_with_summary. rewrite Hr. simpl.
              by rewrite lookup_delete_eq.
           ++ simpl. by rewrite lookup_delete_eq.
      * destruct (suspended_step w ev c p r Hp Hlt Honly Hnw Hterm Hnot)
          as (Hsame & _ & Honly').
        assert (Hne : forall code sig, ev <> ProcExit r code sig).
        { intros code sig ->. by apply Hnot. }
        destruct (waiter_stays_step w ev r task task wt Hne)
          as (task' & Hr' & Hin' & Hrun' & Hopen' & _).
        { split; [done|]. split; [done|]. split; [done|]. split; [done|]. by repeat split. }
        assert (p' = p) as -> by congruence.
        right. exists r. split; [done|]. split; [done|].
        exists task', wt. split; [done|]. split; [done|]. split; [done|]. split; [done|].
        apply (awaits_pending w); [congruence|done].
  - destruct (decide (new_call w ev = Some c)) as [Hnew|Hnew].
    2:{ destruct (step_over w ev c Hp Hnew) as [Hq _]. congruence. }
    destruct ev as [req o| | | | | |]; simpl in Hnew; try done. injection Hnew as <-.
    assert (Hfresh : forall r r0 task0 wt0,
              r0 <> r -> heap w !! r0 = Some task0 -> wt0 ∈ waiters task0 ->
              waiter_call wt0 <> nextCall w).
    { intros r r0 task0 wt0 _ Hr0 Hin0. pose proof (Hwait r0 task0 wt0 Hr0 Hin0). lia. }
    assert (Hsame : pending w !! nextCall w = Some p' ->
              p' = AwaitWrite \/ exists r, waits_on (step w (Call req o)).1 (nextCall w) p' r)
      by congruence.
    revert Hp' Hsame. simpl.
    destruct req as [cmd ags dir en nm mx|rid| |rid off tl ts|rid data nl|rid sg|rid ms|rid ms|inc];
      simpl; try (intros Hp' Hsame; by apply Hsame).
    + unfold task_start. destruct (spawn o) as [|[pd|]]; simpl;
        try (intros Hp' Hsame; by apply Hsame).
      destruct (pd =? 0); simpl; intros Hp' Hsame; by apply Hsame.
    + unfold task_write. destruct (getTask _ _) as [[r task]|]; simpl;
        [|intros Hp' Hsame; by apply Hsame].
      destruct (state task); simpl; [|intros Hp' Hsame; by apply Hsame].
      rewrite lookup_insert_eq. intros [= <-] _. by left.
    + unfold task_stop. destruct (getTask _ _) as [[r task]|] eqn:Hget; simpl;
        [|intros Hp' Hsame; by apply Hsame].
      apply getTask_Ok in Hget as [_ Hr]. simpl in Hr.
      destruct (state task) eqn:Hrun; simpl; [|intros Hp' Hsame; by apply Hsame].
      rewrite lookup_insert_eq. intros [= <-] _.
      right. exists r. apply waits_on_push; [done|done| |done| | |].
      * specialize (Hlife r task Hr). unfold lifecycle_ok in Hlife. rewrite Hrun in Hlife.
        tauto.
      * apply Hfresh.
      * intros r0 [[= ->]|[[=]|[id [=]]]]. done.
      * intros w' Hw'. by split.
    + unfold task_wait. destruct (getTask _ _) as [[r task]|] eqn:Hget; simpl;
        [|intros Hp' Hsame; by apply Hsame].
      apply getTask_Ok in Hget as [_ Hr]. simpl in Hr.
      destruct (state task) eqn:Hrun; simpl; [|intros Hp' Hsame; by apply Hsame].
      assert (Hopen : exitEmitted (proc task) = false).
      { specialize (Hlife r task Hr). unfold lifecycle_ok in Hlife. rewrite Hrun in Hlife.
        tauto. }
      destruct ms as [ms|]; simpl; rewrite lookup_insert_eq; intros [= <-] _;
        right; exists r; (apply waits_on_push; [done|done|done|done|apply Hfresh| |]).
      * intros r0 [[=]|[[=]|[id [= _ ->]]]]. done.
      * intros w' Hw'. split; [done|]. right. by exists rid.
      * intros r0 [[=]|[[=]|[id [=]]]].
      * intros w' Hw'. split; [done|]. by left.
    + unfold task_prune. destruct (prune_loop _ _ _ _ _). simpl.
      intros Hp' Hsame. by apply Hsame.
Qed.

Lemma suspended_ok_always (evs : list Event) : suspended_ok (run init evs).1.
Proof.
  induction evs as [|ev evs IH] using rev_ind.
  - intros c p Hp. simpl in Hp. by rewrite lookup_empty in Hp.
  - rewrite run_app. cbn [fst]. rewrite run_cons. cbn [fst run].
    apply suspended_ok_step; [apply started_always| |exact IH].
    intros r task. apply lifecycle_always.
Qed.

(** X21. A timer that fires while its call is still suspended always
    finds the task running, after any history: had the task exited, its
    waiters would have ended the call first. So a [task_wait] that times
    out reports the state [running]; the first timer of a [task_stop]
    always sends SIGKILL and starts the second race; and a [task_stop]
    that ends on its second timer returns the summary of a task that is
    still running. *)
Theorem timers_find_the_task_running (evs : list Event) (c : nat) :
  (forall id r,
     pending (run init evs).1 !! c = Some (AwaitDoneOrTimeout id r) ->
     exists task,
       heap (run init evs).1 !! r = Some task /\ state task = running /\
       (step (run init evs).1 (TimerFired c WaitTimer)).2
         = [Return c (Ok (okJson (JTimeout id running (pid task))))]) /\
  (forall r,
     pending (run init evs).1 !! c = Some (AwaitStopTerm r) ->
     (step (run init evs).1 (TimerFired c StopTermTimer)).2
       = [Kill r "SIGKILL"; SetTimeout c StopKillTimer 1000]) /\
  (forall r,
     pending (run init evs).1 !! c = Some (AwaitStopKill r) ->
     exists task,
       heap (run init evs).1 !! r = Some task /\ state task = running /\
       (step (run init evs).1 (TimerFired c StopKillTimer)).2
         = [Return c (Ok (okJson (JSummary (summary task))))]).
Proof.
  pose proof (suspended_ok_always evs) as Hok.
  set (w := (run init evs).1) in *.
  assert (Hon : forall p r,
            pending w !! c = Some p ->
            p = AwaitStopTerm r \/ p = AwaitStopKill r \/
              (exists id, p = AwaitDoneOrTimeout id r) ->
            exists task, heap w !! r = Some task /\ state task = running).
  { intros p r Hp Hname.
    destruct (Hok c p Hp) as [->|(r' & _ & Hnames & task & _ & Hr & Hrun & _)].
    - by destruct Hname as [|[|[? ?]]].
    - rewrite (Hnames r Hname). by exists task. }
  split; [|split].
  - intros id r Hp. destruct (Hon _ r Hp) as (task & Hr & Hrun); [right; right; by exists id|].
    exists task. split; [done|]. split; [done|].
    simpl. unfold on_timeout. by rewrite Hp, Hr, Hrun.
  - intros r Hp. destruct (Hon _ r Hp) as (task & Hr & Hrun); [by left|].
    simpl. unfold on_timeout. by rewrite Hp, Hr, Hrun.
  - intros r Hp. destruct (Hon _ r Hp) as (task & Hr & Hrun); [right; by left|].
    exists task. split; [done|]. split; [done|].
    simpl. unfold on_timeout. rewrite Hp. unfold resume_with_summary. by rewrite Hr.
Qed.

(** ** Stopping a task: real time, and the end of the call *)

Lemma elem_of_arm (now : Z) (acts : list Action) (c : nat) (timer : Timer) (due : Z) :
  (c, timer, due) ∈ arm now acts <->
  exists ms, SetTimeout c timer ms ∈ acts /\ due = now + timer_delay ms.
Proof.
  unfold arm. rewrite list_elem_of_omap. split.
  - intros (a & Hin & Ha). destruct a; try done. injection Ha as <- <- <-. by eexists.
  - intros (ms & Hin & ->). by eexists (SetTimeout c timer ms).
Qed.

(** A timer is set by the call that starts in the turn, or is the second
    timer of a [task_stop]. *)
Lemma set_timeout_origin (w : World) (ev : Event) (c : nat) (timer : Timer) (ms : Z) :
  SetTimeout c timer ms ∈ (step w ev).2 ->
  new_call w ev = Some c \/ timer = StopKillTimer.
Proof.
  intros Hin.
  destruct ev as [req o|r0 stream chunk now|r0 code sig|r0 err now|c0 tm|c0 e|]; simpl in Hin.
  - destruct req as [cmd ags dir en nm mx|rid| |rid off tl ts|rid data nl|rid sg|rid tms|rid tms|inc];
      simpl in Hin.
    + destruct (task_start _ _ _ _ _ _ _ _). unfold orphan_error in Hin.
      destruct (spawn o) as [|[]]; simpl in Hin; no_such_action Hin.
    + no_such_action Hin.
    + no_such_action Hin.
    + no_such_action Hin.
    + unfold task_write in Hin. destruct (getTask _ _) as [[r' task]|]; simpl in Hin;
        [|no_such_action Hin]. destruct (state task); simpl in Hin; no_such_action Hin.
    + unfold task_signal in Hin. destruct (getTask _ _) as [[r' task]|]; simpl in Hin;
        [|no_such_action Hin]. destruct (state task); simpl in Hin; [|no_such_action Hin].
      destruct (kill o); no_such_action Hin.
    + unfold task_stop in Hin. destruct (getTask _ _) as [[r' task]|]; simpl in Hin;
        [|no_such_action Hin]. destruct (state task); simpl in Hin; [|no_such_action Hin].
      apply elem_of_cons in Hin as [[=]|Hin].
      apply elem_of_cons in Hin as [[= -> _ _]|Hin]; [by left|no_such_action Hin].
    + unfold task_wait in Hin. destruct (getTask _ _) as [[r' task]|]; simpl in Hin;
        [|no_such_action Hin]. destruct (state task); simpl in Hin; [|no_such_action Hin].
      destruct tms; simpl in Hin; [|no_such_action Hin].
      apply elem_of_cons in Hin as [[= -> _ _]|Hin]; [by left|no_such_action Hin].
    + destruct (task_prune _ _). simpl in Hin. no_such_action Hin.
  - no_such_action Hin.
  - unfold emit_exit in Hin. destruct (heap w !! r0) as [task0|]; [|no_such_action Hin].
    destruct (exitEmitted (proc task0)); [no_such_action Hin|].
    unfold on_exit in Hin. simpl in Hin.
    by apply invoke_all_returns in Hin as (c' & res & [=]).
  - no_such_action Hin.
  - unfold on_timeout in Hin.
    destruct tm; destruct (pending w !! c0) as [[| r' | r' | | id r']|] eqn:Hp;
      simpl in Hin; try no_such_action Hin.
    + destruct (heap w !! r') as [task|] eqn:Hr; [|no_such_action Hin].
      destruct (state task) eqn:Hst; simpl in Hin; [|no_such_action Hin].
      apply elem_of_cons in Hin as [[=]|Hin].
      apply elem_of_cons in Hin as [[= _ -> _]|Hin]; [by right|no_such_action Hin].
    + unfold resume_with_summary in Hin.
      destruct (heap w !! r'); simpl in Hin; no_such_action Hin.
    + destruct (heap w !! r'); simpl in Hin; no_such_action Hin.
  - unfold on_write_done in Hin.
    destruct (pending w !! c0) as [[]|]; try destruct e; simpl in Hin; no_such_action Hin.
  - unfold shutdown in Hin. apply list_elem_of_In, in_flat_map in Hin as (e & _ & Hin).
    destruct (state <$> heap w !! e.2) as [[]|]; simpl in Hin; try done.
    by destruct Hin as [[=]|[]].
Qed.

Lemma elem_of_disarm (ev : Event) (armed : Armed) (e : nat * Timer * Z) :
  e ∈ disarm ev armed -> e ∈ armed.
Proof.
  destruct ev; simpl; try done. intros Hin. by apply list_elem_of_filter in Hin as [_ Hin].
Qed.

(** Once a call has started, its first timer is due when it was due. *)
Lemma first_timer_due (tevs : list (Z * Event)) (w : World) (armed : Armed) (now : Z)
    (c : nat) (due0 t : Z) :
  (c < nextCall w)%nat ->
  (forall due, (c, StopTermTimer, due) ∈ armed -> due = due0) ->
  timely w armed now tevs ->
  (t, TimerFired c StopTermTimer) ∈ tevs ->
  due0 <= t.
Proof.
  revert w armed now. induction tevs as [|[t1 ev1] rest IH]; intros w armed now Hlt Hdue Htimely Hin.
  - by apply not_elem_of_nil in Hin.
  - destruct Htimely as (_ & Hfire & Hrest).
    apply elem_of_cons in Hin as [[= -> <-]|Hin].
    + destruct (Hfire c StopTermTimer eq_refl) as (due & Harmed & Hle).
      rewrite <- (Hdue due Harmed). exact Hle.
    + pose proof (nextCall_mono w ev1) as Hmono.
      refine (IH _ _ _ _ _ Hrest Hin); [lia|].
      intros due Harmed. apply elem_of_app in Harmed as [Hold|Hnew].
      * apply Hdue. by eapply elem_of_disarm.
      * apply elem_of_arm in Hnew as (ms & Hset & _).
        destruct (set_timeout_origin w ev1 c StopTermTimer ms Hset) as [Hnew|[=]].
        destruct ev1; simpl in Hnew; try done. injection Hnew as Hc. lia.
Qed.

(** X22. Real time in a [task_stop]. In a history with times in which
    timers fire only when they are due, the first timer of a [task_stop]
    that was called at the time [t0] does not fire before [t0] plus the
    delay that [setTimeout] makes of [timeoutMs ?? 5000]. That delay is
    [timeoutMs] itself from 1 to 2147483647, and 5000 when [timeoutMs] is
    absent, so that SIGKILL, which the call sends in the turn of that
    timer only, is then not sent before [timeoutMs] has passed. *)
Theorem stop_first_timer_not_before_delay (w : World) (armed : Armed) (now t0 : Z)
    (id : string) (timeoutMs : option Z) (o : Oracle) (tevs : list (Z * Event)) (t : Z) :
  (forall timer due, (nextCall w, timer, due) ∉ armed) ->
  timely w armed now ((t0, Call (Req_stop id timeoutMs) o) :: tevs) ->
  (t, TimerFired (nextCall w) StopTermTimer) ∈ tevs ->
  t0 + timer_delay (default 5000 timeoutMs) <= t /\
  (forall ms, timeoutMs = Some ms -> 0 <= ms <= TIMEOUT_MAX -> t0 + ms <= t) /\
  (timeoutMs = None -> t0 + 5000 <= t).
Proof.
  intros Hnone (_ & _ & Hrest) Hin.
  assert (Hbound : t0 + timer_delay (default 5000 timeoutMs) <= t).
  { pose proof (nextCall_step w (Call (Req_stop id timeoutMs) o)) as Hn.
    eapply (first_timer_due tevs _ _ _ (nextCall w)); [| |exact Hrest|exact Hin].
    - rewrite Hn. lia.
    - intros due Harmed. apply elem_of_app in Harmed as [Hold|Hnew].
      + by destruct (Hnone StopTermTimer due).
      + apply elem_of_arm in Hnew as (ms & Hset & ->).
        simpl in Hset. unfold task_stop in Hset.
        destruct (getTask _ _) as [[r task]|]; simpl in Hset; [|no_such_action Hset].
        destruct (state task); simpl in Hset; [|no_such_action Hset].
        apply elem_of_cons in Hset as [[=]|Hset].
        apply elem_of_cons in Hset as [[= ->]|Hset]; [done|no_such_action Hset]. }
  split; [exact Hbound|]. split.
  - intros ms -> Hms. simpl in Hbound. unfold timer_delay in Hbound.
    destruct ((1 <=? ms) && (ms <=? TIMEOUT_MAX)) eqn:Hin_range; [done|].
    apply andb_false_iff in Hin_range as [Hlow|Hhigh]; lia.
  - intros ->. exact Hbound.
Qed.

Lemma stop_first_timer_not_before_delay_witness :
  let tevs := [(8, ProcData 0%nat stdout (Buffer_from "bye") 1700000000007);
               (250, TimerFired 4%nat StopTermTimer)] in
  (forall (timer : Timer) (due : Z),
     (nextCall demo_world, timer, due) ∉ (@nil (nat * Timer * Z))) /\
  timely demo_world [] 0
    ((5, Call (Req_stop "7c9e6679" (Some 200)) demo_oracle) :: tevs) /\
  (250, TimerFired (nextCall demo_world) StopTermTimer) ∈ tevs /\
  5 + timer_delay (default 5000 (Some 200)) <= 250 /\
  (forall ms, Some 200 = Some ms -> 0 <= ms <= TIMEOUT_MAX -> 5 + ms <= 250) /\
  (Some 200 = None -> 5 + 5000 <= 250).
Proof.
  intros tevs.
  assert (Hnone : forall (timer : Timer) (due : Z),
            (nextCall demo_world, timer, due) ∉ (@nil (nat * Timer * Z)))
    by (intros timer due; apply not_elem_of_nil).
  assert (Htimely : timely demo_world [] 0
            ((5, Call (Req_stop "7c9e6679" (Some 200)) demo_oracle) :: tevs)).
  { split; [lia|]. split; [by intros c timer|].
    split; [lia|]. split; [by intros c timer|].
    split; [lia|]. split; [|done].
    intros c timer [= <- <-]. exists 205. split; [|lia]. left. }
  assert (Hin : (250, TimerFired (nextCall demo_world) StopTermTimer) ∈ tevs)
    by (right; left).
  split; [exact Hnone|]. split; [exact Htimely|]. split; [exact Hin|].
  exact (stop_first_timer_not_before_delay demo_world [] 0 5 "7c9e6679" (Some 200)
           demo_oracle tevs 250 Hnone Htimely Hin).
Defined.

(** C4. [task_stop] does not keep SIGKILL back for [timeoutMs] when
    [timeoutMs] is above 2147483647, which the schema admits:
    [setTimeout] then makes the delay 1 ms. On the running task of the
    scenario, a [task_stop] with [timeoutMs] 2147483648 at the time 0 sets
    a timer that is due at the time 1; in the history in which it fires
    then, which is timely, the call sends SIGKILL at the time 1, with the
    task still running, 2147483647 ms before [timeoutMs] has passed. *)
Theorem stop_timeout_overflow :
  let tevs := [(0, Call (Req_stop "7c9e6679" (Some 2147483648)) demo_oracle);
               (1, TimerFired 4%nat StopTermTimer)] in
  getTask demo_world "7c9e6679" = Ok (0%nat, demo_task) /\
  state demo_task = running /\
  nextCall demo_world = 4%nat /\
  timer_delay 2147483648 = 1 /\
  timely demo_world [] 0 tevs /\
  timed_actions demo_world tevs
    = [(0, Kill 0%nat "SIGTERM"); (0, SetTimeout 4%nat StopTermTimer 2147483648);
       (1, Kill 0%nat "SIGKILL"); (1, SetTimeout 4%nat StopKillTimer 1000)] /\
  0 + 1 < 0 + 2147483648.
Proof.
  intros tevs. split; [reflexivity|]. split; [reflexivity|]. split; [reflexivity|].
  split; [reflexivity|]. split; [|split; [reflexivity|lia]].
  split; [lia|]. split; [by intros c timer|].
  split; [lia|]. split; [|done].
  intros c timer [= <- <-]. exists 1. split; [|lia]. left.
Qed.

Lemma stop_kill_step (w : World) (ev : Event) (c r : nat) :
  pending w !! c = Some (AwaitStopKill r) ->
  (c < nextCall w)%nat ->
  (pending (step w ev).1 !! c = Some (AwaitStopKill r) /\ returned c (step w ev).2 = []) \/
  (pending (step w ev).1 !! c = None /\
   exists s, returned c (step w ev).2 = [Ok (okJson (JSummary s))]).
Proof.
  intros Hp Hlt.
  destruct (step_call w ev c _ Hp Hlt)
    as [[Hq Hnone]|[[timer ->]|[[e ->]|
         (r0 & code & sig & task0 & wt & r' & task & -> & _ & _ & _ & _ & _ & Hn & Hret)]]].
  - left. by rewrite Hq.
  - simpl. unfold on_timeout. rewrite Hp. destruct timer; simpl; try (left; by split).
    unfold resume_with_summary. destruct (heap w !! r) as [task|]; [|left; by split].
    right. simpl. split; [apply lookup_delete_eq|]. eexists. apply returned_own.
  - left. simpl. unfold on_write_done. by rewrite Hp.
  - right. split; [done|]. by eexists.
Qed.

Lemma heap_stays (w : World) (ev : Event) (r : nat) :
  is_Some (heap w !! r) -> is_Some (heap (step w ev).1 !! r).
Proof.
  intros [task Hr]. pose proof (step_heap w ev r) as Hstep. rewrite Hr in Hstep.
  destruct Hstep as (task' & Hr' & _). by exists task'.
Qed.

(** One turn of the event loop, for a [task_stop] in the races listed,
    which are both races or the second one alone. *)
Lemma stop_state_step (races : list Pending) (w : World) (ev : Event) (c r : nat)
    (results : list (Result ToolResponse)) :
  races = [AwaitStopTerm r; AwaitStopKill r] \/ races = [AwaitStopKill r] \/ races = [] ->
  stop_state races w c r results ->
  stop_state races (step w ev).1 c r (results ++ returned c (step w ev).2).
Proof.
  intros Hraces (Hlt & Hheap & Hstate).
  pose proof (nextCall_mono w ev) as Hmono.
  split; [lia|]. split; [by apply heap_stays|].
  destruct Hstate as [(p & Hin & Hp & ->)|(Hp & s & ->)].
  - assert (Hphase : p = AwaitStopKill r \/
              (p = AwaitStopTerm r /\ races = [AwaitStopTerm r; AwaitStopKill r])).
    { destruct Hraces as [-> | [-> | ->]].
      - apply elem_of_cons in Hin as [->|Hin]; [right; by split|].
        apply list_elem_of_singleton in Hin as ->. by left.
      - apply list_elem_of_singleton in Hin as ->. by left.
      - by apply not_elem_of_nil in Hin. }
    destruct Hphase as [->|[-> ->]].
    + destruct (stop_kill_step w ev c r Hp Hlt) as [[Hp' Hret]|[Hp' (s & Hret)]].
      * left. exists (AwaitStopKill r). by rewrite Hret.
      * right. split; [done|]. exists s. by rewrite Hret.
    + destruct (stop_call_step w ev c r (or_introl Hp) Hlt)
        as [[[Hp'|Hp'] Hret]|[Hp' (task & _ & Hret)]].
      * left. exists (AwaitStopTerm r). rewrite Hret. split; [left|done].
      * left. exists (AwaitStopKill r). rewrite Hret. split; [right; left|done].
      * right. split; [done|]. exists (summary task). by rewrite Hret.
  - destruct (step_over w ev c Hp) as [Hq Hret].
    { destruct ev; simpl; try done. intros [= ?]. lia. }
    right. rewrite Hret, Hq, app_nil_r. split; [done|]. by exists s.
Qed.

Lemma stop_state_run (races : list Pending) (evs : list Event) (w : World) (c r : nat)
    (results : list (Result ToolResponse)) :
  races = [AwaitStopTerm r; AwaitStopKill r] \/ races = [AwaitStopKill r] \/ races = [] ->
  stop_state races w c r results ->
  stop_state races (run w evs).1 c r (results ++ returned c (run w evs).2).
Proof.
  intros Hraces. revert w results.
  induction evs as [|ev rest IH]; intros w results Hst.
  - simpl. by rewrite app_nil_r.
  - rewrite run_cons. simpl. rewrite returned_app, app_assoc.
    apply IH. by apply stop_state_step.
Qed.

(** The first timer ends the first race, the second timer ends the call. *)
Lemma stop_state_first_timer (w : World) (c r : nat)
    (results : list (Result ToolResponse)) :
  stop_state [AwaitStopTerm r; AwaitStopKill r] w c r results ->
  stop_state [AwaitStopKill r] (step w (TimerFired c StopTermTimer)).1 c r
    (results ++ returned c (step w (TimerFired c StopTermTimer)).2).
Proof.
  intros Hst.
  pose proof (stop_state_step _ w (TimerFired c StopTermTimer) c r results
                (or_introl eq_refl) Hst) as (Hlt' & Hheap' & Hnext).
  destruct Hst as (Hlt & [task Hr] & Hstate).
  split; [done|]. split; [done|].
  destruct Hnext as [(p & Hin & Hp' & Hres)|Hover]; [|by right].
  left. exists (AwaitStopKill r). split; [left|]. split; [|done].
  apply elem_of_cons in Hin as [->|Hin];
    [|by apply list_elem_of_singleton in Hin as ->].
  exfalso. destruct Hstate as [(p0 & Hin0 & Hp & ->)|(Hp & _)].
  - revert Hp'. simpl. unfold on_timeout. rewrite Hp.
    apply elem_of_cons in Hin0 as [->|Hin0].
    + rewrite Hr. destruct (state task); simpl;
        [by rewrite lookup_insert_eq|by rewrite lookup_delete_eq].
    + apply list_elem_of_singleton in Hin0 as ->. simpl. congruence.
  - revert Hp'. simpl. unfold on_timeout. rewrite Hp. simpl. congruence.
Qed.

Lemma stop_state_second_timer (w : World) (c r : nat)
    (results : list (Result ToolResponse)) :
  stop_state [AwaitStopKill r] w c r results ->
  stop_state [] (step w (TimerFired c StopKillTimer)).1 c r
    (results ++ returned c (step w (TimerFired c StopKillTimer)).2).
Proof.
  intros Hst.
  pose proof (stop_state_step _ w (TimerFired c StopKillTimer) c r results
                (or_intror (or_introl eq_refl)) Hst) as (Hlt' & Hheap' & Hnext).
  destruct Hst as (Hlt & [task Hr] & Hstate).
  split; [done|]. split; [done|].
  destruct Hnext as [(p & Hin & Hp' & Hres)|Hover]; [|by right].
  exfalso. apply list_elem_of_singleton in Hin as ->.
  destruct Hstate as [(p0 & Hin0 & Hp & ->)|(Hp & _)].
  - apply list_elem_of_singleton in Hin0 as ->.
    revert Hp'. simpl. unfold on_timeout. rewrite Hp. unfold resume_with_summary.
    rewrite Hr. simpl. by rewrite lookup_delete_eq.
  - revert Hp'. simpl. unfold on_timeout. rewrite Hp. simpl. congruence.
Qed.

(** X23. A [task_stop] on a registered task always ends, and with a
    summary, as long as the server goes on: after any history, whatever
    other events are handled in between and after, once the first timer
    of the call and then its second timer have fired, the call has got
    exactly one result, which is a summary and no error. The exit of the
    task can only bring that result earlier. *)
Theorem stop_always_resolves (evs : list Event) (id : string) (timeoutMs : option Z)
    (o : Oracle) (r : nat) (task : Task) (evs1 evs2 evs3 : list Event) :
  getTask (run init evs).1 id = Ok (r, task) ->
  exists s,
    returned (nextCall (run init evs).1)
      (run (run init evs).1
         (Call (Req_stop id timeoutMs) o
            :: evs1 ++ TimerFired (nextCall (run init evs).1) StopTermTimer
            :: evs2 ++ TimerFired (nextCall (run init evs).1) StopKillTimer :: evs3)).2
      = [Ok (okJson (JSummary s))].
Proof.
  intros Hget. pose proof (proj1 (started_always evs)) as Hpend.
  set (w := (run init evs).1) in *. set (c := nextCall w).
  pose proof (getTask_Ok _ _ _ _ Hget) as [_ Hr].
  assert (Hget' : getTask (with_nextCall w (S (nextCall w))) id = Ok (r, task)) by done.
  assert (Hnone : pending w !! c = None).
  { destruct (pending w !! c) as [p|] eqn:Hp; [|done].
    pose proof (Hpend c p Hp). unfold c in *. lia. }
  assert (Hcall : stop_state [AwaitStopTerm r; AwaitStopKill r]
            (step w (Call (Req_stop id timeoutMs) o)).1 c r
            (returned c (step w (Call (Req_stop id timeoutMs) o)).2)).
  { pose proof (nextCall_step w (Call (Req_stop id timeoutMs) o)) as Hn.
    split; [rewrite Hn; unfold c; lia|].
    split; [apply heap_stays; by exists task|].
    simpl. unfold task_stop. rewrite Hget'. fold c. destruct (state task); simpl.
    - left. exists (AwaitStopTerm r). split; [left|]. split; [apply lookup_insert_eq|done].
    - right. split; [exact Hnone|]. eexists. apply returned_own. }
  rewrite run_cons, run_app, run_cons, run_app, run_cons. cbn [fst snd].
  set (w1 := (step w (Call (Req_stop id timeoutMs) o)).1) in *.
  set (a1 := (step w (Call (Req_stop id timeoutMs) o)).2) in *.
  pose proof (stop_state_run _ evs1 w1 c r _ (or_introl eq_refl) Hcall) as H1.
  set (w2 := (run w1 evs1).1) in *.
  apply stop_state_first_timer in H1.
  set (w3 := (step w2 (TimerFired c StopTermTimer)).1) in *.
  pose proof (stop_state_run _ evs2 w3 c r _ (or_intror (or_introl eq_refl)) H1) as H2.
  set (w4 := (run w3 evs2).1) in *.
  apply stop_state_second_timer in H2.
  set (w5 := (step w4 (TimerFired c StopKillTimer)).1) in *.
  pose proof (stop_state_run _ evs3 w5 c r _ (or_intror (or_intror eq_refl)) H2)
    as (_ & _ & [(p & Hin & _)|(_ & s & Hres)]).
  - by apply not_elem_of_nil in Hin.
  - exists s. rewrite !returned_app. rewrite <- Hres. by rewrite !app_assoc.
Qed.

Lemma stop_always_resolves_witness :
  getTask (run init demo_events).1 "7c9e6679" = Ok (0%nat, demo_task) /\
  exists s,
    returned (nextCall (run init demo_events).1)
      (run (run init demo_events).1
         (Call (Req_stop "7c9e6679" (Some 100)) demo_oracle
            :: [ProcData 0%nat stdout (Buffer_from "bye") 1700000000007]
                 ++ TimerFired (nextCall (run init demo_events).1) StopTermTimer
            :: [] ++ TimerFired (nextCall (run init demo_events).1) StopKillTimer :: [])).2
      = [Ok (okJson (JSummary s))].
Proof.
  split; [reflexivity|].
  apply (stop_always_resolves demo_events "7c9e6679" (Some 100) demo_oracle 0%nat demo_task
           [ProcData 0%nat stdout (Buffer_from "bye") 1700000000007] [] []).
  reflexivity.
Defined.
